(** * jukebox-tpu: the call-site patcher [converttpu.py] and the
      [SummaryWriter] facade of [tensorboardX/writer.py]

    A shallow embedding of the two units and the properties of their
    specification.  Texts are Python [str] values, modelled as lists of
    characters; Python exceptions are an explicit error type. *)

From Stdlib Require Import Ascii String List ZArith Lia Bool Arith DecimalString.
Import ListNotations.

(** ** Python values and the [str] methods the patcher uses *)

Module Py.

Definition text := list ascii.

Definition str (s : string) : text := list_ascii_of_string s.
Arguments str s%_string.

Inductive exn : Type :=
| ValueError
| NameError
| TypeError
| AttributeError
| AssertionError
| IndexError.

Inductive result (A : Type) : Type :=
| Ok (a : A)
| Raise (e : exn).
Arguments Ok {A} a.
Arguments Raise {A} e.

Definition bind {A B : Type} (r : result A) (f : A -> result B) : result B :=
  match r with
  | Ok a => f a
  | Raise e => Raise e
  end.

(** [s.startswith(p)] *)
Fixpoint starts_with (p s : text) : bool :=
  match p, s with
  | [], _ => true
  | _ :: _, [] => false
  | a :: p', b :: s' => Ascii.eqb a b && starts_with p' s'
  end.

(** offset of the leftmost occurrence of [p] in [s] *)
Fixpoint find (p s : text) : option nat :=
  if starts_with p s then Some 0
  else match s with
       | [] => None
       | _ :: s' => option_map S (find p s')
       end.

(** [s.index(sub, start)]: the lowest index at or after [start] where
    [sub] occurs, [ValueError] when there is none. *)
Definition index (s sub : text) (start : nat) : result nat :=
  if length s <? start then Raise ValueError
  else match find sub (skipn start s) with
       | Some j => Ok (start + j)
       | None => Raise ValueError
       end.

(** [s.count(sub)]: the number of non-overlapping occurrences, found
    left to right. *)
Fixpoint count_from (fuel : nat) (sub s : text) : nat :=
  match fuel with
  | 0 => 0
  | S fuel' =>
      match find sub s with
      | None => 0
      | Some j => S (count_from fuel' sub (skipn (j + length sub) s))
      end
  end.

Definition count (s sub : text) : nat :=
  match sub with
  | [] => S (length s)
  | _ :: _ => count_from (length s) sub s
  end.

(** [s.replace(old, new)]: every non-overlapping occurrence of [old],
    left to right; [skip] counts the characters of a replaced occurrence
    still to be dropped. *)
Fixpoint replace_from (old new s : text) (skip : nat) : text :=
  match s with
  | [] => []
  | c :: s' =>
      match skip with
      | S n => replace_from old new s' n
      | 0 => if starts_with old s
             then new ++ replace_from old new s' (length old - 1)
             else c :: replace_from old new s' 0
      end
  end.

Definition replace (s old new : text) : text :=
  match old with
  | [] => new ++ flat_map (fun c => c :: new) s
  | _ :: _ => replace_from old new s 0
  end.

(** [s[:i] + ins + s[i:]]; both slices clamp at the end of [s]. *)
Definition splice (s : text) (i : nat) (ins : text) : text :=
  firstn i s ++ ins ++ skipn i s.

End Py.

(** ** [converttpu.py] *)

Module ConvertTpu.
Import Py.

Definition insert : text := str ".contiguous()".
Definition prefixes : list text := [str "view"; str "reshape"].
Definition pivot_of (prefix : text) : text := str "." ++ prefix ++ str "(".

(** The script's variables that live across loop iterations.  [k] is the
    loop variable of the depth scan: it stays unbound until a scan
    enumerates at least one character, and keeps its last value after. *)
Record state : Type := mkState {
  st_text : text;
  st_subject : nat;
  st_k : option nat;
  st_rep : bool
}.

(** The three [if] statements on one character: returns the new counter. *)
Definition step_cnt (c : ascii) (cnt : Z) : Z :=
  let cnt := if Ascii.eqb c "("%char then (cnt + 1)%Z else cnt in
  if Ascii.eqb c ")"%char then (cnt - 1)%Z else cnt.

(** [for k, c in enumerate(rest): ...; if cnt == 0: break].
    [i] is the index [enumerate] gives next; the result is the value of [k]
    and of [cnt] after the loop. *)
Fixpoint scan_loop (rest : text) (i : nat) (cnt : Z) (k : option nat)
  : option nat * Z :=
  match rest with
  | [] => (k, cnt)
  | c :: rest' =>
      let cnt' := step_cnt c cnt in
      if (cnt' =? 0)%Z then (Some i, cnt')
      else scan_loop rest' (S i) cnt' (Some i)
  end.

Definition scan (rest : text) (k : option nat) : option nat * Z :=
  scan_loop rest 0 1%Z k.

(** The body of [for i in range(amnt)]. *)
Definition patch_call (pivot : text) (st : state) : result state :=
  bind (index (st_text st) pivot (st_subject st)) (fun p =>
  let subject := p + length pivot in
  match fst (scan (skipn subject (st_text st)) (st_k st)) with
  | None => Raise NameError
  | Some k =>
      let insert_idx := subject + k + 1 in
      let tmpidx : result Z :=
        match index (st_text st) insert insert_idx with
        | Ok j => Ok (Z.of_nat j)
        | Raise ValueError => Ok (-1)%Z
        | Raise e => Raise e
        end in
      bind tmpidx (fun tmpidx =>
      if (tmpidx =? Z.of_nat insert_idx)%Z
      then Ok (mkState (st_text st) subject (Some k) (st_rep st))
      else Ok (mkState (splice (st_text st) insert_idx insert)
                       subject (Some k) true))
  end).

Fixpoint for_range (n : nat) (body : state -> result state) (st : state)
  : result state :=
  match n with
  | 0 => Ok st
  | S n' => bind (body st) (for_range n' body)
  end.

(** The body of [for prefix in prefixes]. *)
Definition patch_prefix (prefix : text) (st : state) : result state :=
  let pivot := pivot_of prefix in
  let st := mkState (st_text st) 0 (st_k st) (st_rep st) in
  let amnt := count (st_text st) pivot in
  for_range amnt (patch_call pivot) st.

Fixpoint for_prefixes (ps : list text) (st : state) : result state :=
  match ps with
  | [] => Ok st
  | prefix :: ps' => bind (patch_prefix prefix st) (for_prefixes ps')
  end.

(** [text.replace] applied to the unpacked list of pivots *)
Definition replace_star (s : text) (args : list text) : result text :=
  match args with
  | [old; new] => Ok (replace s old new)
  | _ => Raise TypeError
  end.

(** What the script does to the text of one file.  [k0] is the binding of
    [k] left by the files processed before ([None] for the first file
    whose scan runs).  The result is the text written back, with the
    final [k] and [rep]. *)
Definition patch_body (k0 : option nat) (s : text) : result state :=
  bind (for_prefixes prefixes (mkState s 0 k0 false)) (fun st =>
  bind (replace_star (st_text st) (map pivot_of prefixes)) (fun s' =>
  Ok (mkState s' (st_subject st) (st_k st) (st_rep st)))).

Definition patch_text (k0 : option nat) (s : text) : result text :=
  bind (patch_body k0 s) (fun st => Ok (st_text st)).

Definition view_pivot : text := pivot_of (str "view").
Definition reshape_pivot : text := pivot_of (str "reshape").

(** *** Notions the specification speaks of *)

(** The state after the body of the loop for a pivot that ends at
    [subject] and a scan that leaves [k]: the guard on the marker, told
    by what stands at the insertion offset. *)
Definition after_call (st : state) (subject k : nat) : state :=
  let insert_idx := subject + k + 1 in
  if starts_with insert (skipn insert_idx (st_text st))
  then mkState (st_text st) subject (Some k) (st_rep st)
  else mkState (splice (st_text st) insert_idx insert) subject (Some k) true.

(** The value of the depth counter after the characters of [s], from the
    value [cnt]. *)
Definition depth (cnt : Z) (s : text) : Z :=
  fold_left (fun n c => step_cnt c n) s cnt.

(** [k] is the first offset of [rest] at which the counter, started at 1,
    is 0 after the character there. *)
Definition first_zero (rest : text) (k : nat) : Prop :=
  k < length rest /\
  depth 1 (firstn (S k) rest) = 0%Z /\
  forall j, j < k -> depth 1 (firstn (S j) rest) <> 0%Z.

(** Texts whose parentheses are matched: the argument lists of calls,
    nested to any depth. *)
Inductive balanced : text -> Prop :=
| balanced_nil : balanced []
| balanced_char c s :
    c <> "("%char -> c <> ")"%char -> balanced s -> balanced (c :: s)
| balanced_paren s1 s2 :
    balanced s1 -> balanced s2 ->
    balanced ("("%char :: s1 ++ ")"%char :: s2).

(** The counter never is 0 over [rest]: the call is not closed. *)
Definition unclosed (rest : text) : Prop :=
  forall j, j < length rest -> depth 1 (firstn (S j) rest) <> 0%Z.

(** Characters of a Python identifier (ASCII). *)
Definition ident_char (c : ascii) : bool :=
  let n := nat_of_ascii c in
  ((65 <=? n) && (n <=? 90)) || ((97 <=? n) && (n <=? 122))
  || ((48 <=? n) && (n <=? 57)) || (n =? 95).

(** The [n] characters of [s] from offset [q] are part of a longer
    identifier: an identifier character stands right before or right
    after them. *)
Definition inside_longer_identifier (s : text) (q n : nat) : Prop :=
  (exists c, 0 < q /\ nth_error s (q - 1) = Some c /\ ident_char c = true) \/
  (exists c, nth_error s (q + n) = Some c /\ ident_char c = true).

(** The counter after [s] when it never drops to 0 on the way, from a
    positive [cnt]; [None] when it does. *)
Fixpoint run (cnt : Z) (s : text) : option Z :=
  match s with
  | [] => Some cnt
  | c :: s' =>
      let cnt' := step_cnt c cnt in
      if (cnt' <=? 0)%Z then None else run cnt' s'
  end.

(** The call that starts right before [rest] is closed in [rest]. *)
Definition closed (rest : text) : Prop := exists k, first_zero rest k.

(** Every call of a target name in [s] is closed. *)
Definition well_closed (s : text) : Prop :=
  forall prefix j,
    In prefix prefixes ->
    starts_with (pivot_of prefix) (skipn j s) = true ->
    closed (skipn (j + length (pivot_of prefix)) s).

(** [rest] starts with a closed argument text and its closing parenthesis. *)
Definition closed_suffix (rest : text) : Prop :=
  exists body y, rest = body ++ ")"%char :: y /\ run 1 body = Some 1%Z.

(** The same, with the marker after the closing parenthesis. *)
Definition marked_suffix (rest : text) : Prop :=
  exists body y,
    rest = body ++ ")"%char :: y /\ run 1 body = Some 1%Z /\
    starts_with insert y = true.

(** [p] occurs in [s] at offset [j]. *)
Definition occ (p s : text) (j : nat) : Prop :=
  starts_with p (skipn j s) = true.

Definition all_closed (p s : text) : Prop :=
  forall j, occ p s j -> closed_suffix (skipn (j + length p) s).

Definition all_marked (p s : text) : Prop :=
  forall j, occ p s j -> marked_suffix (skipn (j + length p) s).

(** The calls of [p] that start before [sub] have the marker. *)
Definition marked_before (p s : text) (sub : nat) : Prop :=
  forall j, occ p s j -> j < sub -> marked_suffix (skipn (j + length p) s).

(** The final replacement of the script. *)
Definition rename (s : text) : text := replace s view_pivot reshape_pivot.

(** A text made of calls of one pivot, none inside another: each call is
    given by its argument text and the text that follows it up to the next
    call. *)
Fixpoint render (pivot : text) (calls : list (text * text)) : text :=
  match calls with
  | [] => []
  | (body, sep) :: calls' =>
      pivot ++ body ++ ")"%char :: sep ++ render pivot calls'
  end.

(** [sep] with the marker at its start. *)
Definition mark (sep : text) : text :=
  if starts_with insert sep then sep else insert ++ sep.

Fixpoint render_marked (pivot : text) (calls : list (text * text)) : text :=
  match calls with
  | [] => []
  | (body, sep) :: calls' =>
      pivot ++ body ++ ")"%char :: mark sep ++ render_marked pivot calls'
  end.

(** The calls that are not followed by the marker. *)
Definition unmarked (calls : list (text * text)) : list (text * text) :=
  filter (fun c => negb (starts_with insert (snd c))) calls.

(** The offsets of the characters after the opening parentheses of the
    calls, in the patched text, for calls that start at [start]. *)
Fixpoint open_offsets (pivot : text) (start : nat) (calls : list (text * text))
  : list nat :=
  match calls with
  | [] => []
  | (body, sep) :: calls' =>
      (start + length pivot)
        :: open_offsets pivot
             (start + length pivot + length body + 1 + length (mark sep)) calls'
  end.

(** The values [subject] takes in the turns of [for i in range(n)]. *)
Fixpoint subjects_range (n : nat) (body : state -> result state) (st : state)
  : list nat :=
  match n with
  | 0 => []
  | S n' =>
      match body st with
      | Ok st' => st_subject st' :: subjects_range n' body st'
      | Raise _ => []
      end
  end.

(** A call of the pivot that has no call of it inside or after it. *)
Definition plain_call (pivot : text) (c : text * text) : Prop :=
  balanced (fst c) /\ find pivot (fst c) = None /\ find pivot (snd c) = None.

End ConvertTpu.

(** ** The loop over the files *)

Module ConvertTpuScript.
Import Py ConvertTpu.

(** A path, as [rglob] yields it. *)
Definition path : Type := text.

(** [path.name]: the last component of the path. *)
Fixpoint name_from (p acc : text) : text :=
  match p with
  | [] => acc
  | c :: p' =>
      if Ascii.eqb c "/"%char then name_from p' [] else name_from p' (acc ++ [c])
  end.

Definition name (p : path) : text := name_from p [].

(** One turn of [for path in ...rglob(...)]: the path that [rglob]
    yields, with what the file system answers when the script gets
    there.  [v_read] is the text that [f.read()] returns, in text mode,
    [None] when [open(path, 'r')] or [read] raises; [v_writable] tells
    whether [open(path, 'w')] returns.  Nothing is assumed of how the
    answers at one path depend on what was written at another: they are
    given.  A [write] on a file that was opened is taken to complete. *)
Record visit : Type := mkVisit {
  v_path : path;
  v_read : option text;
  v_writable : bool
}.

(** What the script does to the outside. *)
Inductive io : Type :=
| Printed (line : text)
| Wrote (p : path) (s : text).

(** How the script ends. *)
Inductive outcome : Type :=
| Finished
| ReadError (p : path)
| PatchError (p : path) (e : exn)
| WriteError (p : path).

(** [for path in Path('./').rglob(...)], over the paths in the order in
    which [rglob] yields them.  [k] is the module level variable of the
    depth scan, which the script never resets; [out] is what was done so
    far. *)
Fixpoint for_paths (vs : list visit) (k : option nat) (out : list io)
  : outcome * list io :=
  match vs with
  | [] => (Finished, out)
  | v :: rest =>
      let out := out ++ [Printed (name (v_path v))] in
      match v_read v with
      | None => (ReadError (v_path v), out)
      | Some s =>
          match patch_body k s with
          | Raise e => (PatchError (v_path v) e, out)
          | Ok st =>
              if v_writable v
              then for_paths rest (st_k st)
                             (out ++ [Wrote (v_path v) (st_text st)])
              else (WriteError (v_path v), out)
          end
      end
  end.

(** The script, started with [k] unbound and nothing done. *)
Definition script (vs : list visit) : outcome * list io :=
  for_paths vs None [].

(** The name of the file is printed and the text read from it is
    written to it as it is. *)
Definition written_back (v : visit) : list io :=
  match v_read v with
  | Some s => [Printed (name (v_path v)); Wrote (v_path v) s]
  | None => [Printed (name (v_path v))]
  end.

(** A file that can be read and written and has no call of a target
    name. *)
Definition no_call (v : visit) : Prop :=
  v_writable v = true /\
  exists s, v_read v = Some s /\
            count s view_pivot = 0 /\ count s reshape_pivot = 0.

End ConvertTpuScript.

(** ** [tensorboardX/writer.py] *)

Module Writer.
Import Py.

(** *** Arguments of the facade *)

(** An array or tensor argument, known by its shape. *)
Record ndarray : Type := mkArray { shape : list nat }.

Definition shape_at (a : ndarray) (i : nat) : result nat :=
  match nth_error (shape a) i with
  | Some n => Ok n
  | None => Raise IndexError
  end.

Definition ndim (a : ndarray) : nat := length (shape a).

(** Data arguments are arrays, or a string naming a caffe2 blob. *)
Inductive pyarg : Type :=
| PStr (name : text)
| PArr (a : ndarray).

(** [labels] of [add_image_with_boxes]: [None], one string, or a list. *)
Inductive labels_arg : Type :=
| LNone
| LStr (s : text)
| LList (l : list text).

(** [hparam_dict] and [metric_dict] of [add_hparams]. *)
Inductive pyobj : Type :=
| PNone
| PDict (items : list (text * pyarg))
| POther.

(** The protocol buffer built by a helper of [summary.py], kept as the
    call that builds it. *)
Inductive summary : Type :=
| scalar (tag : text) (scalar_value : pyarg)
| histogram_raw (tag : text) (min max num sum sum_squares : Z)
                (bucket_limits bucket_counts : list Z)
| image_boxes (tag : text) (img_tensor box_tensor : ndarray)
              (dataformats : text) (labels : option (list text))
| hparams_exp (hparam_dict metric_dict : list (text * pyarg))
| hparams_ssi (hparam_dict metric_dict : list (text * pyarg))
| hparams_sei (hparam_dict metric_dict : list (text * pyarg)).

Inductive payload : Type :=
| FileVersion (step : Z)
| SessionStart (step : Z)
| Summary (s : summary).

(** *** The collaborators, seen through the calls made on them *)

Inductive effect : Type :=
| Open (id : nat) (logdir : text)
| AddEvent (id : nat) (p : payload) (step : option Z) (walltime : option nat)
| Flush (id : nat)
| Close (id : nat)
| Warning (msg : text)
| Makedirs (path : text)
| MakeTsv (path : text) (metadata : list text)
| MakeSprite (path : text) (label_img : ndarray)
| MakeMat (path : text) (mat : ndarray)
| AppendPbtxt (logdir subdir : text) (global_step : Z) (tag : text).

Record env : Type := mkEnv {
  trace : list effect;
  next_id : nat;
  dirs : list text
}.

Definition emit (e : effect) (w : env) : env :=
  mkEnv (trace w ++ [e]) (next_id w) (dirs w).

(** *** [DummyFileWriter] and [FileWriter] *)

Inductive file_writer : Type :=
| DummyFileWriter (logdir : text)
| FileWriter (id : nat) (logdir : text).

Definition get_logdir (fw : file_writer) : text :=
  match fw with
  | DummyFileWriter d => d
  | FileWriter _ d => d
  end.

(** [FileWriter(logdir=..., max_queue=..., flush_secs=...,
    filename_suffix=..., **kwargs)]: the constructor has no other
    parameter, so any key of [kwargs] is a [TypeError]. *)
Definition new_FileWriter (logdir : text) (kwargs : list (text * Z)) (w : env)
  : result file_writer * env :=
  match kwargs with
  | [] => (Ok (FileWriter (next_id w) logdir),
           mkEnv (trace w ++ [Open (next_id w) logdir]) (S (next_id w)) (dirs w))
  | _ :: _ => (Raise TypeError, w)
  end.

Definition fw_add_event (fw : file_writer) (p : payload) (step : option Z)
           (walltime : option nat) (w : env) : env :=
  match fw with
  | DummyFileWriter _ => w
  | FileWriter id _ => emit (AddEvent id p step walltime) w
  end.

Definition fw_add_summary (fw : file_writer) (s : summary)
           (global_step : option Z) (walltime : option nat) (w : env) : env :=
  fw_add_event fw (Summary s) global_step walltime w.

Definition fw_flush (fw : file_writer) (w : env) : env :=
  match fw with
  | DummyFileWriter _ => w
  | FileWriter id _ => emit (Flush id) w
  end.

Definition fw_close (fw : file_writer) (w : env) : env :=
  match fw with
  | DummyFileWriter _ => w
  | FileWriter id _ => emit (Close id) w
  end.

(** *** [SummaryWriter] *)

Record SummaryWriter : Type := mkWriter {
  logdir : text;
  purge_step : option Z;
  _max_queue : nat;
  _flush_secs : nat;
  _filename_suffix : text;
  _write_to_disk : bool;
  kwargs : list (text * Z);
  sw_file_writer : option file_writer;
  all_writers : option (list (text * file_writer));
  scalar_dict : list (text * list (option nat * option Z * pyarg))
}.

Definition set_writers (self : SummaryWriter) (fw : option file_writer)
           (ws : option (list (text * file_writer))) : SummaryWriter :=
  mkWriter (logdir self) (purge_step self) (_max_queue self) (_flush_secs self)
           (_filename_suffix self) (_write_to_disk self) (kwargs self)
           fw ws (scalar_dict self).

Definition set_kwargs (self : SummaryWriter) (kw : list (text * Z))
  : SummaryWriter :=
  mkWriter (logdir self) (purge_step self) (_max_queue self) (_flush_secs self)
           (_filename_suffix self) (_write_to_disk self) kw
           (sw_file_writer self) (all_writers self) (scalar_dict self).

Definition set_scalar_dict (self : SummaryWriter)
           (d : list (text * list (option nat * option Z * pyarg)))
  : SummaryWriter :=
  mkWriter (logdir self) (purge_step self) (_max_queue self) (_flush_secs self)
           (_filename_suffix self) (_write_to_disk self) (kwargs self)
           (sw_file_writer self) (all_writers self) d.

(** A method: it runs on the object and the collaborators, and leaves
    both as they are when it raises. *)
Definition M (A : Type) : Type :=
  SummaryWriter -> env -> result A * SummaryWriter * env.

Definition ret {A : Type} (a : A) : M A := fun self w => (Ok a, self, w).
Definition raise {A : Type} (e : exn) : M A := fun self w => (Raise e, self, w).
Definition bindM {A B : Type} (m : M A) (f : A -> M B) : M B :=
  fun self w =>
    match m self w with
    | (Ok a, self', w') => f a self' w'
    | (Raise e, self', w') => (Raise e, self', w')
    end.
Definition effectM (f : env -> env) : M unit :=
  fun self w => (Ok tt, self, f w).

Declare Scope py_scope.
Delimit Scope py_scope with py.
Notation "x <- m ;; k" := (bindM m (fun x => k))
  (at level 61, m at next level, right associativity) : py_scope.
Notation "m ;; k" := (bindM m (fun _ => k))
  (at level 61, right associativity) : py_scope.
Local Open Scope py_scope.

Definition text_eqb (a b : text) : bool :=
  if list_eq_dec Ascii.ascii_dec a b then true else false.

(** dict operations on insertion-ordered items *)
Fixpoint dict_get {V : Type} (d : list (text * V)) (key : text) : option V :=
  match d with
  | [] => None
  | (k, v) :: d' => if text_eqb k key then Some v else dict_get d' key
  end.

Fixpoint dict_pop {V : Type} (d : list (text * V)) (key : text) : list (text * V) :=
  match d with
  | [] => []
  | (k, v) :: d' => if text_eqb k key then d' else (k, v) :: dict_pop d' key
  end.

Fixpoint dict_set {V : Type} (d : list (text * V)) (key : text) (v : V)
  : list (text * V) :=
  match d with
  | [] => [(key, v)]
  | (k, v') :: d' =>
      if text_eqb k key then (k, v) :: d' else (k, v') :: dict_set d' key v
  end.

Definition values {V : Type} (d : list (text * V)) : list V := map snd d.

(** [_check_caffe2_blob] *)
Definition _check_caffe2_blob (item : pyarg) : bool :=
  match item with
  | PStr _ => true
  | PArr _ => false
  end.

(** [if self._check_caffe2_blob(x): x = workspace.FetchBlob(x)]: the module
    binds no name [workspace]. *)
Definition fetch_if_blob (item : pyarg) : M ndarray :=
  match item with
  | PStr _ => raise NameError
  | PArr a => ret a
  end.

Definition _get_file_writer : M file_writer :=
  fun self w =>
    if negb (_write_to_disk self) then
      let fw := DummyFileWriter (logdir self) in
      (Ok fw, set_writers self (Some fw) (Some [(get_logdir fw, fw)]), w)
    else
      match all_writers self, sw_file_writer self with
      | Some _, Some fw => (Ok fw, self, w)
      | _, _ =>
          match dict_get (kwargs self) (str "purge_step") with
          | Some most_recent_step =>
              let self := set_kwargs self (dict_pop (kwargs self) (str "purge_step")) in
              match new_FileWriter (logdir self) (kwargs self) w with
              | (Raise e, w) => (Raise e, self, w)
              | (Ok fw, w) =>
                  let self := set_writers self (Some fw) (all_writers self) in
                  let w := fw_add_event fw (FileVersion most_recent_step) None None w in
                  let w := fw_add_event fw (SessionStart most_recent_step) None None w in
                  (Ok fw, set_writers self (Some fw) (Some [(get_logdir fw, fw)]), w)
              end
          | None =>
              match new_FileWriter (logdir self) (kwargs self) w with
              | (Raise e, w) => (Raise e, self, w)
              | (Ok fw, w) =>
                  (Ok fw, set_writers self (Some fw) (Some [(get_logdir fw, fw)]), w)
              end
          end
      end.

(** [os.path.join(a, b)] for a relative [b] *)
Definition path_join (a b : text) : text :=
  match a with
  | [] => b
  | _ :: _ => if Ascii.eqb (last a "/"%char) "/"%char then a ++ b else a ++ str "/" ++ b
  end.

(** [__init__]; [run_name] is [current_time + '_' + socket.gethostname()]. *)
Definition init (run_name : text) (logdir_arg : option text) (comment : text)
           (purge_step : option Z) (max_queue flush_secs : nat)
           (filename_suffix : text) (write_to_disk : bool)
           (log_dir : option text) (kwargs : list (text * Z)) (w : env)
  : result SummaryWriter * env :=
  let logdir_arg :=
    match log_dir, logdir_arg with
    | Some d, None => Some d
    | _, _ => logdir_arg
    end in
  let logdir :=
    match logdir_arg with
    | None | Some [] => path_join (str "runs") (run_name ++ comment)
    | Some d => d
    end in
  let self := mkWriter logdir purge_step max_queue flush_secs filename_suffix
                       write_to_disk kwargs None None [] in
  match _get_file_writer self w with
  | (Ok _, self, w) => (Ok self, w)
  | (Raise e, _, w) => (Raise e, w)
  end.

Definition add_scalar (tag : text) (scalar_value : pyarg)
           (global_step : option Z) (walltime : option nat) : M unit :=
  v <- fetch_if_blob scalar_value ;;
  fw <- _get_file_writer ;;
  effectM (fw_add_summary fw (scalar tag (PArr v)) global_step walltime).

Definition add_histogram_raw (tag : text) (min max num sum sum_squares : Z)
           (bucket_limits bucket_counts : list Z)
           (global_step : option Z) (walltime : option nat) : M unit :=
  if negb (length bucket_limits =? length bucket_counts)
  then raise ValueError
  else
    fw <- _get_file_writer ;;
    effectM (fw_add_summary fw
               (histogram_raw tag min max num sum sum_squares
                              bucket_limits bucket_counts)
               global_step walltime).

Definition labels_warning : text :=
  str "Number of labels do not equal to number of box, skip the labels.".

Definition add_image_with_boxes (tag : text) (img_tensor box_tensor : pyarg)
           (global_step : option Z) (walltime : option nat)
           (dataformats : text) (labels : labels_arg) : M unit :=
  img <- fetch_if_blob img_tensor ;;
  box <- fetch_if_blob box_tensor ;;
  labels <-
    match labels with
    | LNone => ret None
    | _ =>
        let l := match labels with LStr s => [s] | LList l => l | LNone => [] end in
        fun self w =>
          match shape_at box 0 with
          | Raise e => (Raise e, self, w)
          | Ok n =>
              if negb (length l =? n)
              then (Ok None, self, emit (Warning labels_warning) w)
              else (Ok (Some l), self, w)
          end
    end ;;
  fw <- _get_file_writer ;;
  effectM (fw_add_summary fw (image_boxes tag img box dataformats labels)
                          global_step walltime).

(** [_encode] *)
Definition _encode (rawstr : text) : text :=
  let retval := rawstr in
  let retval := replace retval (str "%") (str "%25") in
  let retval := replace retval (str "/") (str "%2f") in
  let retval := replace retval (str "\") (str "%5c") in
  retval.

Definition str_of_Z (z : Z) : text :=
  list_ascii_of_string (NilEmpty.string_of_int (Z.to_int z)).

(** [s.zfill(width)] *)
Definition zfill (s : text) (width : nat) : text :=
  let pad := repeat "0"%char (width - length s) in
  match s with
  | c :: r =>
      if Ascii.eqb c "+"%char || Ascii.eqb c "-"%char
      then c :: pad ++ r
      else pad ++ s
  | [] => pad
  end.

Definition assert (b : bool) : M unit :=
  if b then ret tt else raise AssertionError.

Definition lift {A : Type} (r : result A) : M A :=
  fun self w => (r, self, w).

Definition exists_warning : text :=
  str "warning: Embedding dir exists, did you set global_step for add_embedding()?".

(** [os.makedirs(save_path)] inside [try ... except OSError: print(...)] *)
Definition makedirs_or_warn (save_path : text) : M unit :=
  effectM (fun w =>
    if existsb (text_eqb save_path) (dirs w)
    then emit (Warning exists_warning) w
    else mkEnv (trace w ++ [Makedirs save_path]) (next_id w) (save_path :: dirs w)).

(** [add_embedding]; [mat] is the array [make_np] returns.  Assertions
    are enabled. *)
Definition add_embedding (mat : ndarray) (metadata : option (list text))
           (label_img : option ndarray) (global_step : option Z) (tag : text)
  : M unit :=
  let global_step := match global_step with None => 0%Z | Some g => g end in
  let subdir := zfill (str_of_Z global_step) 5 ++ str "/" ++ _encode tag in
  fw <- _get_file_writer ;;
  let save_path := path_join (get_logdir fw) subdir in
  makedirs_or_warn save_path ;;
  match metadata with
  | None => ret tt
  | Some md =>
      n <- lift (shape_at mat 0) ;;
      assert (n =? length md) ;;
      effectM (emit (MakeTsv save_path md))
  end ;;
  match label_img with
  | None => ret tt
  | Some img =>
      n <- lift (shape_at mat 0) ;;
      m <- lift (shape_at img 0) ;;
      assert (n =? m) ;;
      h <- lift (shape_at img 2) ;;
      v <- lift (shape_at img 3) ;;
      assert (h =? v) ;;
      effectM (emit (MakeSprite save_path img))
  end ;;
  assert (ndim mat =? 2) ;;
  effectM (emit (MakeMat save_path mat)) ;;
  fw' <- _get_file_writer ;;
  effectM (emit (AppendPbtxt (get_logdir fw') subdir global_step tag)).

(** [__append_to_scalar_dict] *)
Definition append_to_scalar_dict (tag : text) (scalar_value : pyarg)
           (global_step : option Z) (timestamp : option nat) : M unit :=
  fun self w =>
    let d := scalar_dict self in
    let old := match dict_get d tag with Some l => l | None => [] end in
    (Ok tt,
     set_scalar_dict self (dict_set d tag (old ++ [(timestamp, global_step, scalar_value)])),
     w).

(** One turn of the loop of [add_scalars]. *)
Definition add_scalars_item (fw_logdir main_tag : text)
           (global_step : option Z) (walltime : option nat)
           (item : text * pyarg) : M unit :=
  let '(tag, scalar_value) := item in
  let fw_tag := fw_logdir ++ str "/" ++ main_tag ++ str "/" ++ tag in
  fw <- (fun self w =>
           match all_writers self with
           | None => (Raise AttributeError, self, w)
           | Some ws =>
               match dict_get ws fw_tag with
               | Some fw => (Ok fw, self, w)
               | None =>
                   match new_FileWriter fw_tag [] w with
                   | (Raise e, w) => (Raise e, self, w)
                   | (Ok fw, w) =>
                       (Ok fw,
                        set_writers self (sw_file_writer self)
                                    (Some (dict_set ws fw_tag fw)), w)
                   end
               end
           end) ;;
  v <- fetch_if_blob scalar_value ;;
  effectM (fw_add_summary fw (scalar main_tag (PArr v)) global_step walltime) ;;
  append_to_scalar_dict fw_tag (PArr v) global_step walltime.

Fixpoint for_each {A : Type} (body : A -> M unit) (l : list A) : M unit :=
  match l with
  | [] => ret tt
  | a :: l' => body a ;; for_each body l'
  end.

(** [add_scalars]; [now] is what [time.time()] returns. *)
Definition add_scalars (now : nat) (main_tag : text)
           (tag_scalar_dict : list (text * pyarg))
           (global_step : option Z) (walltime : option nat) : M unit :=
  let walltime := match walltime with None => Some now | Some t => Some t end in
  fw <- _get_file_writer ;;
  for_each (add_scalars_item (get_logdir fw) main_tag global_step walltime)
           tag_scalar_dict.

Definition close : M unit :=
  fun self w =>
    match all_writers self with
    | None => (Ok tt, self, w)
    | Some ws =>
        let w := fold_left (fun w writer => fw_close writer (fw_flush writer w))
                           (values ws) w in
        (Ok tt, set_writers self None None, w)
    end.

Definition flush : M unit :=
  fun self w =>
    match all_writers self with
    | None => (Ok tt, self, w)
    | Some ws =>
        (Ok tt, self, fold_left (fun w writer => fw_flush writer w) (values ws) w)
    end.

(** [with SummaryWriter(...) as w_hp: body]: [__exit__] closes [w_hp]
    whether or not the body raised, and lets the exception through. *)
Definition with_writer {A : Type} (w_hp : SummaryWriter) (body : M A) (w : env)
  : result A * env :=
  match body w_hp w with
  | (r, w_hp, w) =>
      match close w_hp w with
      | (Ok _, _, w) => (r, w)
      | (Raise e, _, w) => (Raise e, w)
      end
  end.

(** [add_hparams]; [now] is [str(time.time())]. *)
Definition add_hparams (now : text) (hparam_dict metric_dict : pyobj) : M unit :=
  match hparam_dict, metric_dict with
  | PDict hp, PDict md =>
      fun self w =>
        match sw_file_writer self with
        | None => (Raise AttributeError, self, w)
        | Some fw =>
            match init [] (Some (path_join (get_logdir fw) now)) [] None
                       10 120 [] true None [] w with
            | (Raise e, w) => (Raise e, self, w)
            | (Ok w_hp, w) =>
                let body : M unit :=
                  fun w_hp w =>
                    match sw_file_writer w_hp with
                    | None => (Raise AttributeError, w_hp, w)
                    | Some f =>
                        let w := fw_add_summary f (hparams_exp hp md) None None w in
                        let w := fw_add_summary f (hparams_ssi hp md) None None w in
                        let w := fw_add_summary f (hparams_sei hp md) None None w in
                        for_each (fun kv => add_scalar (fst kv) (snd kv) None None)
                                 md w_hp w
                    end in
                match with_writer w_hp body w with
                | (r, w) => (r, self, w)
                end
            end
        end
  | _, _ => raise TypeError
  end.

(** *** Notions the specification speaks of *)

(** The calls one writer receives when the facade is closed. *)
Definition flush_and_close (fw : file_writer) : list effect :=
  match fw with
  | DummyFileWriter _ => []
  | FileWriter id _ => [Flush id; Close id]
  end.

Definition held_writers (self : SummaryWriter) : list file_writer :=
  match all_writers self with
  | Some ws => values ws
  | None => []
  end.

Definition fresh_env : env := mkEnv [] 0 [].

(** A facade on [runs/exp1] that holds no file writer, and the one file
    writer it gets on demand. *)
Definition idle_writer : SummaryWriter :=
  mkWriter (str "runs/exp1") None 10 120 [] true [] None None [].

Definition first_writer : file_writer := FileWriter 0 (str "runs/exp1").

Definition open_writer : SummaryWriter :=
  set_writers idle_writer (Some first_writer)
              (Some [(str "runs/exp1", first_writer)]).

(** The save directory of an embedding. *)
Definition embedding_path (fw : file_writer) (global_step : option Z)
           (tag : text) : text :=
  path_join (get_logdir fw)
    (zfill (str_of_Z (match global_step with None => 0%Z | Some g => g end)) 5
     ++ str "/" ++ _encode tag).

End Writer.

(** ** Programs that use the facade *)

Module WriterCalls.
Import Py Writer.
Local Open Scope py_scope.

(** What [_encode] makes of one character. *)
Definition escape (c : ascii) : text :=
  if Ascii.eqb "%"%char c then str "%25"
  else if Ascii.eqb "/"%char c then str "%2f"
  else if Ascii.eqb "\"%char c then str "%5c"
  else [c].

(** One call of a method of the facade, with its arguments. *)
Inductive call : Type :=
| CallAddScalar (tag : text) (scalar_value : pyarg)
                (global_step : option Z) (walltime : option nat)
| CallAddScalars (now : nat) (main_tag : text)
                 (tag_scalar_dict : list (text * pyarg))
                 (global_step : option Z) (walltime : option nat)
| CallAddHistogramRaw (tag : text) (min max num sum sum_squares : Z)
                      (bucket_limits bucket_counts : list Z)
                      (global_step : option Z) (walltime : option nat)
| CallAddImageWithBoxes (tag : text) (img_tensor box_tensor : pyarg)
                        (global_step : option Z) (walltime : option nat)
                        (dataformats : text) (labels : labels_arg)
| CallAddEmbedding (mat : ndarray) (metadata : option (list text))
                   (label_img : option ndarray) (global_step : option Z)
                   (tag : text)
| CallAddHparams (now : text) (hparam_dict metric_dict : pyobj)
| CallFlush
| CallClose.

Definition exec (c : call) : M unit :=
  match c with
  | CallAddScalar tag v g t => add_scalar tag v g t
  | CallAddScalars now main_tag d g t => add_scalars now main_tag d g t
  | CallAddHistogramRaw tag mn mx num sm sq bl bc g t =>
      add_histogram_raw tag mn mx num sm sq bl bc g t
  | CallAddImageWithBoxes tag img box g t df l =>
      add_image_with_boxes tag img box g t df l
  | CallAddEmbedding mat md img g tag => add_embedding mat md img g tag
  | CallAddHparams now hp md => add_hparams now hp md
  | CallFlush => flush
  | CallClose => close
  end.

(** A program that makes the calls one after the other, and goes on
    when one of them raises. *)
Fixpoint exec_all (cs : list call) (self : SummaryWriter) (w : env)
  : SummaryWriter * env :=
  match cs with
  | [] => (self, w)
  | c :: cs' =>
      match exec c self w with
      | (_, self', w') => exec_all cs' self' w'
      end
  end.

(** The file writers that were opened and not closed since. *)
Fixpoint live_after (tr : list effect) (l : list nat) : list nat :=
  match tr with
  | [] => l
  | Open id _ :: tr' => live_after tr' (id :: l)
  | Close id :: tr' => live_after tr' (List.remove Nat.eq_dec id l)
  | _ :: tr' => live_after tr' l
  end.

Definition live (tr : list effect) : list nat := live_after tr [].

(** The identifiers of the real file writers among [fws]. *)
Definition writer_ids (fws : list file_writer) : list nat :=
  flat_map (fun fw => match fw with
                      | DummyFileWriter _ => []
                      | FileWriter id _ => [id]
                      end) fws.

(** An effect that opens and closes nothing. *)
Definition quiet (e : effect) : Prop :=
  match e with
  | Open _ _ | Close _ => False
  | _ => True
  end.

(** The facade holds both its default file writer and its dictionary of
    file writers, or neither. *)
Definition synced (self : SummaryWriter) : Prop :=
  match all_writers self, sw_file_writer self with
  | Some _, Some _ | None, None => True
  | _, _ => False
  end.

(** A facade that writes to disk holds every file writer that is open,
    but for those of [others]. *)
Definition accounted (others : list nat) (self : SummaryWriter) (w : env) : Prop :=
  _write_to_disk self = true /\
  synced self /\
  forall id, In id (live (trace w)) ->
             In id (writer_ids (held_writers self)) \/ In id others.

(** The method leaves [I] true, whether it returns or raises. *)
Definition keeps {A : Type} (I : SummaryWriter -> env -> Prop) (m : M A) : Prop :=
  forall self w, I self w -> I (snd (fst (m self w))) (snd (m self w)).

(** The directory [add_scalars] gives the file writer of one tag. *)
Definition scalars_dir (fw_logdir main_tag tag : text) : text :=
  fw_logdir ++ str "/" ++ main_tag ++ str "/" ++ tag.

(** A dictionary of scalars whose values are arrays. *)
Definition array_items (items : list (text * ndarray)) : list (text * pyarg) :=
  map (fun kv => (fst kv, PArr (snd kv))) items.

(** One file writer opened and one summary added for each item, the
    first file writer being the one numbered [id]. *)
Fixpoint scalars_trace (fw_logdir main_tag : text) (global_step : option Z)
         (walltime : option nat) (id : nat) (items : list (text * ndarray))
  : list effect :=
  match items with
  | [] => []
  | (tag, a) :: items' =>
      Open id (scalars_dir fw_logdir main_tag tag)
        :: AddEvent id (Summary (scalar main_tag (PArr a))) global_step walltime
        :: scalars_trace fw_logdir main_tag global_step walltime (S id) items'
  end.

(** An effect other than the two events that start a purge. *)
Definition no_purge (e : effect) : Prop :=
  match e with
  | AddEvent _ (FileVersion _) _ _ | AddEvent _ (SessionStart _) _ _ => False
  | _ => True
  end.

(** The facade has no key [purge_step] among its keyword arguments, and
    no purge was started. *)
Definition unpurged (self : SummaryWriter) (w : env) : Prop :=
  dict_get (kwargs self) (str "purge_step") = None /\
  Forall no_purge (trace w).

(** The statements of [add_embedding] that follow [os.makedirs]. *)
Definition embedding_files (mat : ndarray) (metadata : option (list text))
           (label_img : option ndarray) (global_step : option Z) (tag : text)
           (fw : file_writer) : M unit :=
  let step := match global_step with None => 0%Z | Some g => g end in
  let subdir := zfill (str_of_Z step) 5 ++ str "/" ++ _encode tag in
  let save_path := path_join (get_logdir fw) subdir in
  match metadata with
  | None => ret tt
  | Some md =>
      n <- lift (shape_at mat 0) ;;
      assert (n =? length md) ;;
      effectM (emit (MakeTsv save_path md))
  end ;;
  match label_img with
  | None => ret tt
  | Some img =>
      n <- lift (shape_at mat 0) ;;
      m <- lift (shape_at img 0) ;;
      assert (n =? m) ;;
      h <- lift (shape_at img 2) ;;
      v <- lift (shape_at img 3) ;;
      assert (h =? v) ;;
      effectM (emit (MakeSprite save_path img))
  end ;;
  assert (ndim mat =? 2) ;;
  effectM (emit (MakeMat save_path mat)) ;;
  fw' <- _get_file_writer ;;
  effectM (emit (AppendPbtxt (get_logdir fw') subdir step tag)).

Definition not_makedirs (e : effect) : Prop :=
  match e with
  | Makedirs _ => False
  | _ => True
  end.

(** The default file writer of the facade is on [d] and stays: a
    facade that writes to disk holds it, with a dictionary that has the
    keys [keys]; one that does not makes a dummy on its [logdir], which
    is [d]. *)
Definition stays (d : text) (keys : list text) (self : SummaryWriter) : Prop :=
  if _write_to_disk self
  then exists fw ws,
         sw_file_writer self = Some fw /\ all_writers self = Some ws /\
         get_logdir fw = d /\
         forall key, In key keys -> dict_get ws key <> None
  else logdir self = d.


(** An invariant in two parts, of the facade and of its collaborators. *)
Definition both (J : SummaryWriter -> Prop) (Q : env -> Prop)
  : SummaryWriter -> env -> Prop :=
  fun self w => J self /\ Q w.

Definition not_close (c : call) : Prop :=
  match c with
  | CallClose => False
  | _ => True
  end.

End WriterCalls.

(** * Properties *)

(** ** Facts on the [str] methods *)

Module PyFacts.
Import Py.

Lemma starts_with_app (p s : text) : starts_with p (p ++ s) = true.
Proof.
  induction p as [|a p IH]; simpl; [reflexivity|].
  now rewrite Ascii.eqb_refl.
Qed.

Lemma starts_with_inv (p s : text) :
  starts_with p s = true -> exists r, s = p ++ r.
Proof.
  revert s; induction p as [|a p IH]; intros s H.
  - now exists s.
  - destruct s as [|b s]; simpl in H; [discriminate|].
    apply andb_true_iff in H as [Hab Hps].
    apply Ascii.eqb_eq in Hab; subst b.
    destruct (IH _ Hps) as [r ->]. now exists r.
Qed.

Lemma starts_with_length (p s : text) :
  starts_with p s = true -> length p <= length s.
Proof.
  intros H. destruct (starts_with_inv _ _ H) as [r ->].
  rewrite length_app. lia.
Qed.

Lemma starts_with_nil_r (p : text) : p <> [] -> starts_with p [] = false.
Proof. now destruct p. Qed.

Lemma find_zero (p s : text) (j : nat) :
  find p s = Some j -> (j =? 0) = starts_with p s.
Proof.
  destruct s as [|c s]; simpl; destruct (starts_with p _) eqn:E;
    try discriminate; try (intros [= <-]; reflexivity).
  destruct (find p s); simpl; [intros [= <-]; reflexivity|discriminate].
Qed.

Lemma find_none_starts (p s : text) : find p s = None -> starts_with p s = false.
Proof. destruct s; simpl; destruct (starts_with p _); congruence. Qed.

(** What [find] returns is an occurrence, the leftmost one. *)
Lemma find_some (p s : text) :
  forall j, find p s = Some j ->
            j <= length s /\
            starts_with p (skipn j s) = true /\
            forall i, i < j -> starts_with p (skipn i s) = false.
Proof.
  induction s as [|c s IH]; intros j; simpl find.
  - destruct (starts_with p []) eqn:E; [|discriminate].
    intros [= <-]. repeat split; [lia|exact E|intros; lia].
  - destruct (starts_with p (c :: s)) eqn:E.
    + intros [= <-]. repeat split; [lia|exact E|intros; lia].
    + destruct (find p s) as [j'|] eqn:F; simpl; [|discriminate].
      intros [= <-]. destruct (IH _ eq_refl) as (Hl & Ho & Hf).
      repeat split; [simpl; lia|exact Ho|].
      intros [|i] Hi; [exact E|]. apply Hf. lia.
Qed.

Lemma find_none (p s : text) :
  find p s = None -> forall i, starts_with p (skipn i s) = false.
Proof.
  induction s as [|c s IH]; simpl find.
  - destruct (starts_with p []) eqn:E; [discriminate|].
    intros _ i. now rewrite skipn_nil.
  - destruct (starts_with p (c :: s)) eqn:E; [discriminate|].
    destruct (find p s) eqn:F; [discriminate|].
    intros _ [|i]; [exact E|]. now apply IH.
Qed.

(** An occurrence at [j] with none before it is what [find] returns. *)
Lemma find_first (p s : text) :
  forall j, j <= length s ->
            starts_with p (skipn j s) = true ->
            (forall i, i < j -> starts_with p (skipn i s) = false) ->
            find p s = Some j.
Proof.
  induction s as [|c s IH]; intros j Hj Ho Hf.
  - simpl in Hj. assert (j = 0) by lia; subst j. simpl in *. now rewrite Ho.
  - destruct j as [|j].
    + simpl in Ho. simpl find. now rewrite Ho.
    + simpl find. pose proof (Hf 0 ltac:(lia)) as H0. simpl in H0. rewrite H0.
      rewrite (IH j); [reflexivity|simpl in Hj; lia|exact Ho|].
      intros i Hi. apply (Hf (S i)). lia.
Qed.

Lemma index_find (s sub : text) (start j : nat) :
  start <= length s -> find sub (skipn start s) = Some j ->
  index s sub start = Ok (start + j).
Proof.
  intros Hs Hf. unfold index.
  destruct (length s <? start) eqn:E; [apply Nat.ltb_lt in E; lia|].
  now rewrite Hf.
Qed.

Lemma index_inv (s sub : text) (start p : nat) :
  index s sub start = Ok p ->
  start <= length s /\ exists j, p = start + j /\ find sub (skipn start s) = Some j.
Proof.
  unfold index. destruct (length s <? start) eqn:E; [discriminate|].
  apply Nat.ltb_ge in E.
  destruct (find sub (skipn start s)) as [j|] eqn:F; [|discriminate].
  intros [= <-]. split; [exact E|]. now exists j.
Qed.

Lemma index_raises (s sub : text) (start : nat) (e : exn) :
  index s sub start = Raise e -> e = ValueError.
Proof.
  unfold index. destruct (length s <? start); [congruence|].
  destruct (find sub (skipn start s)); congruence.
Qed.

Lemma count_from_none (fuel : nat) (sub s : text) :
  find sub s = None -> count_from fuel sub s = 0.
Proof. intros H. destruct fuel; simpl; [reflexivity|now rewrite H]. Qed.

Lemma index_occurrence (s sub : text) (start p : nat) :
  index s sub start = Ok p ->
  start <= p /\ p <= length s /\ exists r, skipn p s = sub ++ r.
Proof.
  intros H. destruct (index_inv _ _ _ _ H) as (Hs & j & -> & F).
  destruct (find_some _ _ _ F) as (Hj & Ho & _).
  rewrite length_skipn in Hj. rewrite skipn_skipn in Ho.
  repeat split; [lia|lia|].
  rewrite (Nat.add_comm start j). now apply starts_with_inv.
Qed.

Lemma index_here (pre sub post : text) :
  index (pre ++ sub ++ post) sub (length pre) = Ok (length pre).
Proof.
  unfold index. rewrite length_app.
  replace (length pre + length (sub ++ post) <? length pre) with false
    by (symmetry; apply Nat.ltb_ge; lia).
  rewrite skipn_app, skipn_all, Nat.sub_diag. cbn [app skipn].
  assert (F : find sub (sub ++ post) = Some 0).
  { destruct (sub ++ post) eqn:E; simpl;
      rewrite <- E, starts_with_app; reflexivity. }
  rewrite F. f_equal. lia.
Qed.

(** A text without the character [c0] that starts [x ++ c0 :: y] lies
    within [x]. *)
Lemma starts_with_stop (c0 : ascii) (p : text) :
  ~ In c0 p -> forall x y, starts_with p (x ++ c0 :: y) = starts_with p x.
Proof.
  induction p as [|a p IH]; intros Hp x y; [reflexivity|].
  destruct x as [|b x]; cbn [app starts_with].
  - destruct (Ascii.eqb_spec a c0) as [->|_]; [|reflexivity].
    exfalso. apply Hp. now left.
  - rewrite IH; [reflexivity|]. intros H. apply Hp. now right.
Qed.

Lemma starts_with_app_l (p x y : text) :
  starts_with p x = true -> starts_with p (x ++ y) = true.
Proof.
  intros H. destruct (starts_with_inv _ _ H) as [r ->].
  rewrite <- app_assoc. apply starts_with_app.
Qed.

(** A text [q ++ [c]] with no [c] in [q] ends at the first [c]: what
    follows that [c] does not matter. *)
Lemma starts_with_upto (c : ascii) (q : text) :
  ~ In c q ->
  forall x y y',
    starts_with (q ++ [c]) (x ++ c :: y) = starts_with (q ++ [c]) (x ++ c :: y').
Proof.
  induction q as [|a q IH]; intros Hq x y y'.
  - destruct x as [|b x]; cbn; now rewrite ?andb_true_r.
  - destruct x as [|b x]; cbn [app starts_with].
    + destruct (Ascii.eqb_spec a c) as [->|_]; [|reflexivity].
      exfalso. apply Hq. now left.
    + rewrite (IH ltac:(intros H; apply Hq; now right) x y y'). reflexivity.
Qed.

Lemma starts_with_cons (a : ascii) (p : text) (b : ascii) (s : text) :
  starts_with (a :: p) (b :: s) = Ascii.eqb a b && starts_with p s.
Proof. reflexivity. Qed.

Lemma find_cons (p : text) (b : ascii) (s : text) :
  find p (b :: s)
  = if starts_with p (b :: s) then Some 0 else option_map S (find p s).
Proof. reflexivity. Qed.

(** [find] across a character the pattern does not have. *)
Lemma find_app_stop (c0 : ascii) (p : text) :
  p <> [] -> ~ In c0 p ->
  forall x y,
    find p (x ++ c0 :: y)
    = match find p x with
      | Some j => Some j
      | None => option_map (Nat.add (S (length x))) (find p y)
      end.
Proof.
  intros Hne Hp x y. induction x as [|b x IH].
  - cbn [app find length]. rewrite (starts_with_nil_r p Hne).
    replace (starts_with p (c0 :: y)) with false.
    + destruct (find p y); reflexivity.
    + symmetry. change (c0 :: y) with ([] ++ c0 :: y).
      rewrite (starts_with_stop c0 p Hp [] y).
      now apply starts_with_nil_r.
  - change ((b :: x) ++ c0 :: y) with (b :: x ++ c0 :: y).
    rewrite !find_cons.
    change (b :: x ++ c0 :: y) with ((b :: x) ++ c0 :: y).
    rewrite (starts_with_stop c0 p Hp (b :: x) y).
    destruct (starts_with p (b :: x)); [reflexivity|].
    rewrite IH. destruct (find p x); [reflexivity|].
    cbn [length]. destruct (find p y); reflexivity.
Qed.

(** [find] of a pattern that starts with its only [c0], across a [c0]. *)
Lemma find_app_lead (c0 : ascii) (w : text) :
  ~ In c0 w ->
  forall x y,
    find (c0 :: w) (x ++ c0 :: y)
    = match find (c0 :: w) x with
      | Some j => Some j
      | None => option_map (Nat.add (length x)) (find (c0 :: w) (c0 :: y))
      end.
Proof.
  intros Hw x y. induction x as [|b x IH].
  - cbn [app length]. replace (find (c0 :: w) []) with (@None nat) by reflexivity.
    destruct (find (c0 :: w) (c0 :: y)); reflexivity.
  - change ((b :: x) ++ c0 :: y) with (b :: x ++ c0 :: y).
    rewrite (find_cons (c0 :: w) b (x ++ c0 :: y)), (find_cons (c0 :: w) b x).
    cbn [starts_with].
    rewrite (starts_with_stop c0 w Hw x y).
    destruct (Ascii.eqb c0 b && starts_with w x); [reflexivity|].
    rewrite IH. destruct (find (c0 :: w) x); [reflexivity|].
    cbn [length]. destruct (find (c0 :: w) (c0 :: y)); reflexivity.
Qed.

Lemma find_length (p s : text) (j : nat) :
  find p s = Some j -> j + length p <= length s.
Proof.
  intros F. destruct (find_some _ _ _ F) as (Hj & Ho & _).
  apply starts_with_length in Ho. rewrite length_skipn in Ho. lia.
Qed.

(** [count_from] does not depend on fuel that is enough. *)
Lemma count_from_enough (sub : text) :
  sub <> [] ->
  forall fuel s, length s <= fuel ->
                 count_from fuel sub s = count_from (length s) sub s.
Proof.
  intros Hne.
  assert (G : forall n fuel s, length s <= n -> n <= fuel ->
                               count_from fuel sub s = count_from n sub s).
  { induction n as [|n IH]; intros fuel s Hs Hf.
    - destruct s; [|simpl in Hs; lia].
      destruct fuel; cbn; [reflexivity|].
      now rewrite (starts_with_nil_r sub Hne).
    - destruct fuel as [|fuel]; [lia|]. cbn [count_from].
      destruct (find sub s) as [j|] eqn:F; [|reflexivity].
      f_equal. apply IH; [|lia].
      pose proof (find_length _ _ _ F) as Hl.
      rewrite length_skipn. destruct sub; [contradiction|]. simpl in *. lia. }
  intros fuel s Hs. apply G; lia.
Qed.

Lemma count_unfold (s sub : text) :
  sub <> [] ->
  count s sub = match find sub s with
                | None => 0
                | Some j => S (count (skipn (j + length sub) s) sub)
                end.
Proof.
  intros Hne. unfold count. destruct sub as [|a sub]; [contradiction|].
  destruct s as [|c s].
  - cbn. reflexivity.
  - cbn [length count_from].
    destruct (find (a :: sub) (c :: s)) as [j|] eqn:F; [|reflexivity].
    f_equal. apply count_from_enough; [discriminate|].
    pose proof (find_length _ _ _ F) as Hl.
    rewrite length_skipn. cbn [length] in Hl |- *. lia.
Qed.

Lemma count_none (s sub : text) : find sub s = None -> sub <> [] -> count s sub = 0.
Proof. intros F Hne. now rewrite count_unfold, F. Qed.

End PyFacts.

(** ** The call-site patcher *)

Module ConvertTpuSpec.
Import Py ConvertTpu PyFacts.

Example patch_scenario :
  patch_text None (str "x.reshape(1,2).sum(1)")
  = Ok (str "x.reshape(1,2).contiguous().sum(1)").
Proof. reflexivity. Qed.

Example patch_header_comment :
  patch_text None (str "blabla.view(foo(1), 2, bar(foo(3))).sum(1)")
  = Ok (str "blabla.reshape(foo(1), 2, bar(foo(3))).contiguous().sum(1)").
Proof. reflexivity. Qed.

(** *** The depth scan *)

Lemma depth_app (cnt : Z) (a b : text) :
  depth cnt (a ++ b) = depth (depth cnt a) b.
Proof. unfold depth. apply fold_left_app. Qed.

Lemma depth_cons (cnt : Z) (c : ascii) (s : text) :
  depth cnt (c :: s) = depth (step_cnt c cnt) s.
Proof. reflexivity. Qed.

Lemma step_cnt_open (cnt : Z) : step_cnt "(" cnt = (cnt + 1)%Z.
Proof. reflexivity. Qed.

Lemma step_cnt_close (cnt : Z) : step_cnt ")" cnt = (cnt - 1)%Z.
Proof. reflexivity. Qed.

Lemma step_cnt_other (c : ascii) (cnt : Z) :
  c <> "("%char -> c <> ")"%char -> step_cnt c cnt = cnt.
Proof.
  intros Ho Hc. unfold step_cnt.
  apply Ascii.eqb_neq in Ho, Hc. now rewrite Ho, Hc.
Qed.

(** The scan returns the first offset where the counter is 0. *)
Lemma scan_loop_first_zero (rest : text) :
  forall (i : nat) (cnt : Z) (k0 : option nat) (k : nat),
    k < length rest ->
    depth cnt (firstn (S k) rest) = 0%Z ->
    (forall j, j < k -> depth cnt (firstn (S j) rest) <> 0%Z) ->
    scan_loop rest i cnt k0 = (Some (i + k), 0%Z).
Proof.
  induction rest as [|c rest IH]; intros i cnt k0 k Hk Hz Hnz.
  - simpl in Hk. lia.
  - destruct k as [|k].
    + cbn in Hz. simpl. rewrite Hz. simpl. now rewrite Nat.add_0_r.
    + simpl scan_loop.
      assert (H0 : step_cnt c cnt <> 0%Z) by (apply (Hnz 0); lia).
      apply Z.eqb_neq in H0. rewrite H0.
      rewrite (IH (S i) (step_cnt c cnt) (Some i) k).
      * f_equal. f_equal. lia.
      * simpl in Hk. lia.
      * exact Hz.
      * intros j Hj. apply (Hnz (S j)). lia.
Qed.

(** Where the counter never is 0 the scan runs to the end of the text,
    and [k] is the last offset, or what it was when the text is empty. *)
Lemma scan_loop_no_zero (rest : text) :
  forall (i : nat) (cnt : Z) (k0 : option nat),
    (forall j, j < length rest -> depth cnt (firstn (S j) rest) <> 0%Z) ->
    scan_loop rest i cnt k0
    = (match rest with [] => k0 | _ :: _ => Some (i + length rest - 1) end,
       depth cnt rest).
Proof.
  induction rest as [|c rest IH]; intros i cnt k0 Hnz; [reflexivity|].
  simpl scan_loop.
  assert (H0 : step_cnt c cnt <> 0%Z) by (apply (Hnz 0); simpl; lia).
  apply Z.eqb_neq in H0. rewrite H0.
  rewrite IH.
  - rewrite depth_cons. destruct rest; simpl; f_equal; f_equal; lia.
  - intros j Hj. apply (Hnz (S j)). simpl. lia.
Qed.

(** A balanced text leaves the counter where it was and never takes it
    below that. *)
Lemma depth_balanced (body : text) :
  balanced body ->
  forall cnt, depth cnt body = cnt /\
              forall j, (cnt <= depth cnt (firstn j body))%Z.
Proof.
  induction 1 as [|c s Ho Hc Hs IH|s1 s2 H1 IH1 H2 IH2]; intros cnt.
  - split; [reflexivity|]. intros j. rewrite firstn_nil. simpl. lia.
  - split.
    + rewrite depth_cons, step_cnt_other by assumption. apply IH.
    + intros [|j]; simpl firstn; [simpl; lia|].
      rewrite depth_cons, step_cnt_other by assumption. apply IH.
  - split.
    + rewrite depth_cons, step_cnt_open, depth_app, depth_cons, step_cnt_close.
      rewrite (proj1 (IH1 _)). replace (cnt + 1 - 1)%Z with cnt by lia.
      apply IH2.
    + intros [|j]; simpl firstn; [simpl; lia|].
      rewrite depth_cons, step_cnt_open, firstn_app, depth_app.
      destruct (j - length s1) as [|m] eqn:Hm.
      * simpl firstn.
        pose proof (proj2 (IH1 (cnt + 1)%Z) j) as Hge.
        change (depth (depth (cnt + 1) (firstn j s1)) [])
          with (depth (cnt + 1) (firstn j s1)).
        lia.
      * assert (Hj : firstn j s1 = s1) by (apply firstn_all2; lia).
        rewrite Hj, (proj1 (IH1 _)). simpl firstn.
        rewrite depth_cons, step_cnt_close.
        replace (cnt + 1 - 1)%Z with cnt by lia. apply IH2.
Qed.

Lemma balanced_first_zero (body tail : text) :
  balanced body -> first_zero (body ++ ")"%char :: tail) (length body).
Proof.
  intros Hb. unfold first_zero. repeat split.
  - rewrite length_app. simpl. lia.
  - replace (S (length body)) with (length body + 1) by lia.
    rewrite firstn_app_2. simpl firstn.
    rewrite depth_app, (proj1 (depth_balanced _ Hb _)). reflexivity.
  - intros j Hj. rewrite firstn_app.
    replace (S j - length body) with 0 by lia.
    rewrite firstn_O, app_nil_r.
    pose proof (proj2 (depth_balanced _ Hb 1%Z) (S j)). lia.
Qed.

Lemma scan_first_zero (rest : text) (k0 : option nat) (k : nat) :
  first_zero rest k -> scan rest k0 = (Some k, 0%Z).
Proof.
  intros (Hk & Hz & Hnz). unfold scan.
  now rewrite (scan_loop_first_zero rest 0 1%Z k0 k Hk Hz Hnz).
Qed.


(** *** One located call *)

(** The guard: [tmpidx] equals [insert_idx] exactly when the marker
    starts at [insert_idx]. *)
Lemma marker_guard (s : text) (i : nat) :
  exists z,
    match index s insert i with
    | Ok j => Ok (Z.of_nat j)
    | Raise ValueError => Ok (-1)%Z
    | Raise e => Raise e
    end = Ok z /\
    (z =? Z.of_nat i)%Z = starts_with insert (skipn i s).
Proof.
  destruct (index s insert i) as [j|e] eqn:E.
  - exists (Z.of_nat j). split; [reflexivity|].
    destruct (index_inv _ _ _ _ E) as (_ & j' & -> & F).
    rewrite <- (find_zero _ _ _ F).
    destruct j'; simpl.
    + rewrite Nat.add_0_r. apply Z.eqb_refl.
    + apply Z.eqb_neq. lia.
  - rewrite (index_raises _ _ _ _ E). exists (-1)%Z. split; [reflexivity|].
    replace (-1 =? Z.of_nat i)%Z with false by (symmetry; apply Z.eqb_neq; lia).
    symmetry. unfold index in E.
    destruct (length s <? i) eqn:L.
    + apply Nat.ltb_lt in L. rewrite skipn_all2 by lia. reflexivity.
    + destruct (find insert (skipn i s)) eqn:F; [discriminate|].
      now apply find_none_starts.
Qed.

Lemma patch_call_located (pivot : text) (st : state) (p : nat) :
  index (st_text st) pivot (st_subject st) = Ok p ->
  patch_call pivot st =
    match fst (scan (skipn (p + length pivot) (st_text st)) (st_k st)) with
    | None => Raise NameError
    | Some k => Ok (after_call st (p + length pivot) k)
    end.
Proof.
  intros Hp. unfold patch_call. rewrite Hp. cbn [bind].
  destruct (fst (scan _ _)) as [k|]; [|reflexivity].
  destruct (marker_guard (st_text st) (p + length pivot + k + 1)) as (z & -> & Hz).
  cbn [bind]. unfold after_call. rewrite Hz.
  now destruct (starts_with insert _).
Qed.

Lemma splice_past_end (s ins : text) (i : nat) :
  length s <= i -> splice s i ins = s ++ ins.
Proof.
  intros H. unfold splice.
  now rewrite firstn_all2, skipn_all2, app_nil_r by lia.
Qed.

(** C3, as the code has it. Where the text after a located pivot is not
    empty and the counter never is 0 over it, the patcher raises nothing:
    the scan runs to the end, the offset of the last character is taken
    for the end of the call, and the marker is appended at the end of the
    text. *)
Theorem unclosed_call_appends_marker (pivot : text) (st : state) (p : nat) :
  index (st_text st) pivot (st_subject st) = Ok p ->
  skipn (p + length pivot) (st_text st) <> [] ->
  unclosed (skipn (p + length pivot) (st_text st)) ->
  patch_call pivot st =
    Ok (mkState (st_text st ++ insert) (p + length pivot)
                (Some (length (st_text st) - (p + length pivot) - 1)) true).
Proof.
  intros Hp Hne Hun. rewrite (patch_call_located _ _ _ Hp).
  unfold scan. rewrite scan_loop_no_zero by exact Hun.
  destruct (skipn (p + length pivot) (st_text st)) as [|c r] eqn:E;
    [contradiction|].
  cbn [fst]. rewrite <- E, length_skipn. unfold after_call.
  assert (Hlen : p + length pivot < length (st_text st)).
  { assert (L : length (skipn (p + length pivot) (st_text st)) = S (length r))
      by now rewrite E.
    rewrite length_skipn in L. lia. }
  replace (p + length pivot + (0 + (length (st_text st) - (p + length pivot)) - 1) + 1)
    with (length (st_text st)) by lia.
  rewrite skipn_all. cbn [starts_with insert str list_ascii_of_string].
  rewrite splice_past_end by lia.
  reflexivity.
Qed.

Lemma unclosed_call_appends_marker_witness :
  index (str "foo.view(bar(") view_pivot 0 = Ok 3 /\
  skipn 9 (str "foo.view(bar(") <> [] /\
  unclosed (skipn 9 (str "foo.view(bar(")) /\
  patch_call view_pivot (mkState (str "foo.view(bar(") 0 None false)
  = Ok (mkState (str "foo.view(bar(.contiguous()") 9 (Some 3) true).
Proof.
  assert (Hi : index (str "foo.view(bar(") view_pivot 0 = Ok 3) by reflexivity.
  assert (Hn : skipn 9 (str "foo.view(bar(") <> []) by discriminate.
  assert (Hu : unclosed (skipn 9 (str "foo.view(bar("))).
  { intros j Hj. cbn in Hj.
    do 4 (destruct j as [|j]; [discriminate|]). lia. }
  split; [exact Hi|]. split; [exact Hn|]. split; [exact Hu|].
  exact (unclosed_call_appends_marker view_pivot
           (mkState (str "foo.view(bar(") 0 None false) 3 Hi Hn Hu).
Defined.

(** C3, the claim as stated fails: the call of [bar] and the call of
    [view] are left open, and the patcher returns a text. *)
Lemma unclosed_call_no_error :
  unclosed (str "bar(") /\
  patch_text None (str "foo.view(bar(")
  = Ok (str "foo.reshape(bar(.contiguous()").
Proof.
  split; [|reflexivity].
  intros j Hj. simpl in Hj.
  do 4 (destruct j as [|j]; [discriminate|]). lia.
Qed.

(** C9. Where the text ends with the located pivot, the scan has no
    character to enumerate and leaves [k] as it was: the body of the loop
    raises [NameError] when [k] is unbound, and otherwise computes the
    insertion offset from the stale [k], an offset past the end of the
    text, at which the slices put the marker after the pivot. The patcher
    is not total: the text [x.view(] of a first file raises. *)
Theorem pivot_at_end_of_text (pivot : text) (st : state) (p : nat) :
  index (st_text st) pivot (st_subject st) = Ok p ->
  p + length pivot = length (st_text st) ->
  scan (skipn (p + length pivot) (st_text st)) (st_k st) = (st_k st, 1%Z) /\
  patch_call pivot st =
    match st_k st with
    | None => Raise NameError
    | Some k =>
        Ok (mkState (splice (st_text st) (length (st_text st) + k + 1) insert)
                    (length (st_text st)) (Some k) true)
    end /\
  (forall k, splice (st_text st) (length (st_text st) + k + 1) insert
             = st_text st ++ insert) /\
  patch_text None (str "x.view(") = Raise NameError /\
  patch_text None (str "a.view(b).view(")
  = Ok (str "a.reshape(b).contiguous().reshape(.contiguous()").
Proof.
  intros Hp Hend.
  assert (Hs : skipn (p + length pivot) (st_text st) = [])
    by (rewrite Hend; apply skipn_all).
  repeat split.
  - now rewrite Hs.
  - rewrite (patch_call_located _ _ _ Hp), Hs. cbn [scan scan_loop fst].
    destruct (st_k st) as [k|]; [|reflexivity].
    unfold after_call. rewrite Hend, skipn_all2 by lia.
    reflexivity.
  - intros k. apply splice_past_end. lia.
Qed.

Lemma pivot_at_end_of_text_witness :
  index (str "x.view(") view_pivot 0 = Ok 1 /\
  1 + length view_pivot = length (str "x.view(") /\
  patch_call view_pivot (mkState (str "x.view(") 0 None false)
  = Raise NameError /\
  patch_call view_pivot (mkState (str "x.view(") 0 (Some 4) false)
  = Ok (mkState (str "x.view(.contiguous()") 7 (Some 4) true).
Proof.
  split; [reflexivity|]. split; [reflexivity|]. split.
  - exact (proj1 (proj2 (pivot_at_end_of_text view_pivot
                           (mkState (str "x.view(") 0 None false) 1
                           eq_refl eq_refl))).
  - exact (proj1 (proj2 (pivot_at_end_of_text view_pivot
                           (mkState (str "x.view(") 0 (Some 4) false) 1
                           eq_refl eq_refl))).
Defined.

(** *** The final replacement *)

(** A text without a dot that starts the replaced text started the
    original text. *)
Lemma starts_with_replace_nodot (w : text) :
  ~ In "."%char w ->
  forall s, starts_with w (replace_from view_pivot reshape_pivot s 0) = true ->
            starts_with w s = true.
Proof.
  induction w as [|a w IH]; intros Hw s H; [reflexivity|].
  destruct s as [|c s]; [discriminate H|].
  cbn [replace_from] in H.
  destruct (starts_with view_pivot (c :: s)) eqn:E.
  - cbn in H. apply andb_true_iff in H as [H _].
    apply Ascii.eqb_eq in H. subst a. exfalso. apply Hw. now left.
  - cbn [starts_with] in H |- *.
    apply andb_true_iff in H as [H1 H2]. rewrite H1. cbn [andb].
    apply IH; [|exact H2]. intros Hin. apply Hw. now right.
Qed.

Lemma find_replace_none (s : text) :
  forall skip, find view_pivot (replace_from view_pivot reshape_pivot s skip) = None.
Proof.
  induction s as [|c s IH]; intros skip; [reflexivity|].
  cbn [replace_from]. destruct skip as [|n]; [|apply IH].
  destruct (starts_with view_pivot (c :: s)) eqn:E.
  - cbn. now rewrite IH.
  - cbn [find]. rewrite IH. cbn [option_map].
    destruct (starts_with view_pivot
                (c :: replace_from view_pivot reshape_pivot s 0)) eqn:F;
      [|reflexivity].
    exfalso.
    change view_pivot with ("."%char :: str "view(") in F, E at 1.
    cbn [starts_with] in F, E.
    apply andb_true_iff in F as [F1 F2]. rewrite F1 in E. cbn [andb] in E.
    assert (Hnd : ~ In "."%char (str "view(")).
    { cbn. intros H. repeat (destruct H as [H|H]; [discriminate H|]). exact H. }
    apply (starts_with_replace_nodot (str "view(") Hnd) in F2.
    congruence.
Qed.

Lemma patch_body_inv (k0 : option nat) (s : text) (st : state) :
  patch_body k0 s = Ok st ->
  exists mid,
    for_prefixes prefixes (mkState s 0 k0 false) = Ok mid /\
    st = mkState (replace (st_text mid) view_pivot reshape_pivot)
                 (st_subject mid) (st_k mid) (st_rep mid).
Proof.
  unfold patch_body. destruct (for_prefixes _ _) as [mid|e]; [|discriminate].
  cbn. intros [= <-]. now exists mid.
Qed.

(** C5. Whenever the patcher returns, the text it returns is the text
    left by the loops over the two target names with one replacement of
    [.view(] by [.reshape(] applied to it, no occurrence of [.view(] is
    left, and the value of [rep] plays no part: the replacement is made
    with [rep] false (no marker inserted) as with [rep] true. *)
Theorem final_replace_unconditional (k0 : option nat) (s : text) (st : state) :
  patch_body k0 s = Ok st ->
  (exists mid,
      for_prefixes prefixes (mkState s 0 k0 false) = Ok mid /\
      st_text st = replace (st_text mid) (str ".view(") (str ".reshape(") /\
      st_rep st = st_rep mid) /\
  find (str ".view(") (st_text st) = None /\
  count (st_text st) (str ".view(") = 0 /\
  (exists st', patch_body None (str "x.view(1).contiguous()") = Ok st' /\
               st_rep st' = false /\
               st_text st' = str "x.reshape(1).contiguous()") /\
  (exists st', patch_body None (str "x.view(1)") = Ok st' /\
               st_rep st' = true /\
               st_text st' = str "x.reshape(1).contiguous()").
Proof.
  intros H. destruct (patch_body_inv _ _ _ H) as (mid & Hmid & ->).
  cbn [st_text st_rep].
  assert (Hf : find (str ".view(")
                 (replace (st_text mid) view_pivot reshape_pivot) = None)
    by apply (find_replace_none (st_text mid) 0).
  repeat split.
  - exists mid. now repeat split.
  - exact Hf.
  - unfold count. cbn [str list_ascii_of_string]. now apply count_from_none.
  - eexists. repeat split.
  - eexists. repeat split.
Qed.

Lemma final_replace_unconditional_witness :
  patch_body None (str "a.view(b.view(1))")
  = Ok (mkState (str "a.reshape(b.reshape(1).contiguous()).contiguous()")
                0 (Some 1) true) /\
  find (str ".view(") (str "a.reshape(b.reshape(1).contiguous()).contiguous()")
  = None /\
  count (str "a.reshape(b.reshape(1).contiguous()).contiguous()") (str ".view(")
  = 0.
Proof.
  split; [reflexivity|].
  pose proof (final_replace_unconditional None (str "a.view(b.view(1))")
                (mkState (str "a.reshape(b.reshape(1).contiguous()).contiguous()")
                         0 (Some 1) true) eq_refl) as H.
  exact (conj (proj1 (proj2 H)) (proj1 (proj2 (proj2 H)))).
Defined.

(** *** What the locator matches *)

(** At a located pivot the name stands between a dot and an open
    parenthesis. *)
Lemma pivot_occurrence_shape (s prefix : text) (start p : nat) :
  index s (pivot_of prefix) start = Ok p ->
  nth_error s p = Some "."%char /\
  firstn (length prefix) (skipn (S p) s) = prefix /\
  nth_error s (S p + length prefix) = Some "("%char.
Proof.
  intros H. destruct (index_occurrence _ _ _ _ H) as (_ & _ & r & Hr).
  unfold pivot_of in Hr. cbn [str list_ascii_of_string app] in Hr.
  repeat split.
  - rewrite <- (Nat.add_0_r p), <- nth_error_skipn, Hr. reflexivity.
  - replace (S p) with (1 + p) by lia.
    rewrite <- skipn_skipn, Hr. cbn [skipn].
    rewrite <- app_assoc, firstn_app, firstn_all, Nat.sub_diag.
    cbn [firstn]. apply app_nil_r.
  - replace (S p + length prefix) with (p + S (length prefix)) by lia.
    rewrite <- nth_error_skipn, Hr. cbn [nth_error].
    rewrite <- app_assoc, nth_error_app2, Nat.sub_diag by lia. reflexivity.
Qed.

Lemma located_name_not_inside_identifier (s prefix : text) (start p : nat) :
  index s (pivot_of prefix) start = Ok p ->
  ~ inside_longer_identifier s (S p) (length prefix).
Proof.
  intros H. destruct (pivot_occurrence_shape _ _ _ _ H) as (Hdot & _ & Hpar).
  intros [(c & _ & Hc & Hid)|(c & Hc & Hid)].
  - replace (S p - 1) with p in Hc by lia.
    rewrite Hdot in Hc. injection Hc as <-. discriminate Hid.
  - rewrite Hpar in Hc. injection Hc as <-. discriminate Hid.
Qed.

(** C6, as the code has it. The locator searches the raw text for the
    literal made of a dot, the name and an open parenthesis, from any
    offset and whatever stands before the dot; at every match the name is
    right after a dot and right before an open parenthesis, so the name
    located is never a part of a longer identifier. *)
Theorem pivot_match_is_delimited (s prefix : text) (start p : nat) :
  index s (pivot_of prefix) start = Ok p ->
  nth_error s p = Some "."%char /\
  firstn (length prefix) (skipn (S p) s) = prefix /\
  nth_error s (S p + length prefix) = Some "("%char /\
  ~ inside_longer_identifier s (S p) (length prefix) /\
  (forall pre post,
      index (pre ++ pivot_of prefix ++ post) (pivot_of prefix) (length pre)
      = Ok (length pre)).
Proof.
  intros H. destruct (pivot_occurrence_shape _ _ _ _ H) as (H1 & H2 & H3).
  repeat split; try assumption.
  - fold (~ inside_longer_identifier s (S p) (length prefix)).
    now apply located_name_not_inside_identifier with (start := start).
  - intros pre post. apply index_here.
Qed.

Lemma pivot_match_is_delimited_witness :
  index (str "y = x.view(1)") (pivot_of (str "view")) 0 = Ok 5 /\
  nth_error (str "y = x.view(1)") 5 = Some "."%char /\
  firstn 4 (skipn 6 (str "y = x.view(1)")) = str "view" /\
  nth_error (str "y = x.view(1)") 10 = Some "("%char /\
  ~ inside_longer_identifier (str "y = x.view(1)") 6 4.
Proof.
  split; [reflexivity|].
  pose proof (pivot_match_is_delimited (str "y = x.view(1)") (str "view") 0 5
                eq_refl) as (H1 & H2 & H3 & H4 & _).
  exact (conj H1 (conj H2 (conj H3 H4))).
Defined.

(** C6, the claim as stated fails: no text has a located target name
    that is part of a longer identifier, and a call of [preview] is left
    as it is. *)
Lemma no_match_inside_identifier :
  ~ (exists s prefix start p,
        In prefix prefixes /\
        index s (pivot_of prefix) start = Ok p /\
        inside_longer_identifier s (S p) (length prefix)) /\
  patch_text None (str "x.preview(1)") = Ok (str "x.preview(1)").
Proof.
  split; [|reflexivity].
  intros (s & prefix & start & p & _ & H & Hin).
  exact (located_name_not_inside_identifier _ _ _ _ H Hin).
Qed.

(** *** Closed calls *)

Lemma step_cnt_cases (c : ascii) (cnt : Z) :
  (c = "("%char /\ step_cnt c cnt = (cnt + 1)%Z) \/
  (c = ")"%char /\ step_cnt c cnt = (cnt - 1)%Z) \/
  (c <> "("%char /\ c <> ")"%char /\ step_cnt c cnt = cnt).
Proof.
  destruct (Ascii.eqb_spec c "("%char) as [->|Ho]; [left; now split|].
  destruct (Ascii.eqb_spec c ")"%char) as [->|Hc]; [right; left; now split|].
  right; right. repeat split; try assumption. now apply step_cnt_other.
Qed.

Lemma run_app (a b : text) :
  forall cnt,
    run cnt (a ++ b) = match run cnt a with
                       | Some c => run c b
                       | None => None
                       end.
Proof.
  induction a as [|x a IH]; intros cnt; [reflexivity|].
  cbn [app run]. destruct (step_cnt x cnt <=? 0)%Z; [reflexivity|apply IH].
Qed.

Lemma run_pos (s : text) :
  forall cnt c, (0 < cnt)%Z -> run cnt s = Some c -> (0 < c)%Z.
Proof.
  induction s as [|x s IH]; intros cnt c Hc; cbn [run].
  - now intros [= <-].
  - destruct (step_cnt x cnt <=? 0)%Z eqn:E; [discriminate|].
    apply Z.leb_gt in E. now apply IH.
Qed.

Lemma run_cons_other (c : ascii) (s : text) (cnt : Z) :
  c <> "("%char -> c <> ")"%char -> (0 < cnt)%Z ->
  run cnt (c :: s) = run cnt s.
Proof.
  intros Ho Hc Hp. cbn [run]. rewrite step_cnt_other by assumption.
  now replace (cnt <=? 0)%Z with false by (symmetry; apply Z.leb_gt; lia).
Qed.

Lemma run_cons_open (s : text) (cnt : Z) :
  (0 < cnt)%Z -> run cnt ("("%char :: s) = run (cnt + 1) s.
Proof.
  intros Hp. cbn [run]. rewrite step_cnt_open.
  now replace (cnt + 1 <=? 0)%Z with false by (symmetry; apply Z.leb_gt; lia).
Qed.

Lemma run_cons_close (s : text) (cnt : Z) :
  (1 < cnt)%Z -> run cnt (")"%char :: s) = run (cnt - 1) s.
Proof.
  intros Hp. cbn [run]. rewrite step_cnt_close.
  now replace (cnt - 1 <=? 0)%Z with false by (symmetry; apply Z.leb_gt; lia).
Qed.

Ltac run_plain :=
  repeat (rewrite run_cons_other; [|discriminate|discriminate|assumption]).

(** The marker leaves the counter where it was. *)
Lemma run_marker (s : text) (cnt : Z) :
  (0 < cnt)%Z -> run cnt (insert ++ s) = run cnt s.
Proof.
  intros Hp. cbn [insert str list_ascii_of_string app]. run_plain.
  rewrite run_cons_open by assumption.
  rewrite run_cons_close by lia.
  now replace (cnt + 1 - 1)%Z with cnt by lia.
Qed.

Lemma balanced_run (b : text) :
  balanced b -> forall cnt, (0 < cnt)%Z -> run cnt b = Some cnt.
Proof.
  induction 1 as [|c s Ho Hc Hs IH|s1 s2 H1 IH1 H2 IH2]; intros cnt Hp.
  - reflexivity.
  - rewrite run_cons_other by assumption. now apply IH.
  - rewrite run_cons_open by assumption.
    rewrite run_app, IH1 by lia.
    rewrite run_cons_close by lia.
    replace (cnt + 1 - 1)%Z with cnt by lia. now apply IH2.
Qed.

(** The scan over an argument text that keeps the counter positive and
    ends at 1 stops at the parenthesis that follows. *)
Lemma scan_loop_run (body : text) :
  forall (i : nat) (cnt : Z) (k0 : option nat) (y : text),
    run cnt body = Some 1%Z ->
    scan_loop (body ++ ")"%char :: y) i cnt k0 = (Some (i + length body), 0%Z).
Proof.
  induction body as [|c body IH]; intros i cnt k0 y; cbn [run].
  - intros [= ->]. cbn. now rewrite Nat.add_0_r.
  - destruct (step_cnt c cnt <=? 0)%Z eqn:E; [discriminate|].
    intros Hr. apply Z.leb_gt in E.
    cbn [app scan_loop].
    replace (step_cnt c cnt =? 0)%Z with false by (symmetry; apply Z.eqb_neq; lia).
    rewrite IH by exact Hr. cbn [length]. do 2 f_equal. lia.
Qed.

Lemma scan_run (body y : text) (k0 : option nat) :
  run 1 body = Some 1%Z ->
  scan (body ++ ")"%char :: y) k0 = (Some (length body), 0%Z).
Proof. intros H. unfold scan. now rewrite scan_loop_run. Qed.

(** Where the counter is not 0 after any of the first characters, it is
    positive all along. *)
Lemma run_of_depth (body : text) :
  forall cnt,
    (0 < cnt)%Z ->
    (forall j, j < length body -> depth cnt (firstn (S j) body) <> 0%Z) ->
    run cnt body = Some (depth cnt body) /\ (0 < depth cnt body)%Z.
Proof.
  induction body as [|c body IH]; intros cnt Hp Hnz.
  - cbn. now split.
  - assert (H0 : step_cnt c cnt <> 0%Z) by (apply (Hnz 0); cbn; lia).
    assert (H1 : (0 < step_cnt c cnt)%Z).
    { destruct (step_cnt_cases c cnt) as [[_ E]|[[_ E]|(_ & _ & E)]]; lia. }
    cbn [run]. rewrite depth_cons.
    replace (step_cnt c cnt <=? 0)%Z with false by (symmetry; apply Z.leb_gt; lia).
    apply IH; [exact H1|].
    intros j Hj. apply (Hnz (S j)). cbn. lia.
Qed.

(** A closed call, cut at its closing parenthesis. *)
Lemma first_zero_run (r : text) (k : nat) :
  first_zero r k ->
  exists body y,
    r = body ++ ")"%char :: y /\ length body = k /\ run 1 body = Some 1%Z.
Proof.
  intros (Hk & Hz & Hnz).
  destruct (skipn k r) as [|c y] eqn:E.
  { apply (f_equal (@length ascii)) in E. rewrite length_skipn in E.
    cbn in E. lia. }
  assert (Hr : r = firstn k r ++ c :: y) by (rewrite <- E; symmetry; apply firstn_skipn).
  assert (Hl : length (firstn k r) = k) by (rewrite length_firstn; lia).
  set (body := firstn k r) in *.
  assert (Hpre : forall j, j <= k -> firstn j r = firstn j body).
  { intros j Hj. unfold body. rewrite firstn_firstn. f_equal. lia. }
  destruct (run_of_depth body 1%Z ltac:(lia)) as (Hrun & Hpos).
  { intros j Hj. rewrite <- Hpre by lia. apply Hnz. lia. }
  assert (Hz' : step_cnt c (depth 1 body) = 0%Z).
  { rewrite Hr in Hz. replace (S k) with (length body + 1) in Hz by lia.
    rewrite firstn_app_2 in Hz. cbn [firstn] in Hz.
    now rewrite depth_app in Hz. }
  destruct (step_cnt_cases c (depth 1 body)) as [[_ Ec]|[[-> Ec]|(_ & _ & Ec)]];
    try lia.
  exists body, y. repeat split; try assumption.
  rewrite Hrun. f_equal. lia.
Qed.

Lemma skipn_app_length (a b : text) : skipn (length a) (a ++ b) = b.
Proof. now rewrite skipn_app, skipn_all, Nat.sub_diag. Qed.

Lemma skipn_app_more (a b : text) (n : nat) :
  skipn (length a + n) (a ++ b) = skipn n b.
Proof.
  rewrite skipn_app, skipn_all2 by lia.
  cbn [app]. f_equal. lia.
Qed.

Lemma firstn_app_length (a b : text) : firstn (length a) (a ++ b) = a.
Proof. now rewrite firstn_app, firstn_all, Nat.sub_diag, firstn_O, app_nil_r. Qed.

Lemma splice_app (a b ins : text) : splice (a ++ b) (length a) ins = a ++ ins ++ b.
Proof. unfold splice. now rewrite firstn_app_length, skipn_app_length. Qed.

(** The body of the loop at a closed call: [P] is the text up to the
    opening parenthesis of the call. *)
Lemma after_call_closed (P body y : text) (sub : nat) (k : option nat) (rep : bool) :
  after_call (mkState (P ++ body ++ ")"%char :: y) sub k rep) (length P) (length body)
  = mkState (P ++ body ++ ")"%char :: mark y) (length P) (Some (length body))
            (if starts_with insert y then rep else true).
Proof.
  unfold after_call, mark. cbn [st_text st_rep].
  assert (E : P ++ body ++ ")"%char :: y = (P ++ body ++ [")"%char]) ++ y)
    by now rewrite <- !app_assoc.
  assert (L : length P + length body + 1 = length (P ++ body ++ [")"%char]))
    by (rewrite !length_app; cbn; lia).
  rewrite L, E, skipn_app_length, splice_app.
  destruct (starts_with insert y); rewrite <- ?app_assoc; cbn [app];
    now rewrite <- ?app_assoc.
Qed.

Lemma patch_call_closed (pivot done s0 body y : text) (k : option nat) (rep : bool) :
  find pivot (s0 ++ pivot ++ body ++ ")"%char :: y) = Some (length s0) ->
  run 1 body = Some 1%Z ->
  patch_call pivot
    (mkState (done ++ s0 ++ pivot ++ body ++ ")"%char :: y) (length done) k rep)
  = Ok (mkState (done ++ s0 ++ pivot ++ body ++ ")"%char :: mark y)
                (length (done ++ s0 ++ pivot)) (Some (length body))
                (if starts_with insert y then rep else true)).
Proof.
  intros Hf Hr.
  assert (Hi : index (done ++ s0 ++ pivot ++ body ++ ")"%char :: y) pivot (length done)
               = Ok (length done + length s0)).
  { apply index_find; [rewrite length_app; lia|].
    now rewrite skipn_app_length. }
  rewrite (patch_call_located pivot
             (mkState (done ++ s0 ++ pivot ++ body ++ ")"%char :: y)
                      (length done) k rep) _ Hi).
  cbn [st_text st_k].
  assert (E : done ++ s0 ++ pivot ++ body ++ ")"%char :: y
              = (done ++ s0 ++ pivot) ++ body ++ ")"%char :: y)
    by now rewrite <- !app_assoc.
  assert (L : length done + length s0 + length pivot = length (done ++ s0 ++ pivot))
    by (rewrite !length_app; lia).
  rewrite L, E, skipn_app_length, scan_run by exact Hr.
  cbn [fst]. rewrite after_call_closed. now rewrite <- !app_assoc.
Qed.


(** C1. For every call whose argument text [body] has matched
    parentheses, followed by its closing parenthesis and any [tail], the
    scan of the patcher, which starts its counter at 1 after the opening
    parenthesis, adds 1 on each open parenthesis and subtracts 1 on each
    close parenthesis, stops at the first offset where the counter is 0
    (as it does on any text that has such an offset), and that offset is
    the one of the closing parenthesis of the call: [length body],
    whatever the nesting inside [body]. The body of the loop, at a call
    located after [s0], takes that offset for [k] and puts the marker,
    unless it is there, right after that closing parenthesis. *)
Theorem scan_stops_at_matching_paren (body tail : text) (k0 : option nat) :
  balanced body ->
  first_zero (body ++ ")"%char :: tail) (length body) /\
  scan (body ++ ")"%char :: tail) k0 = (Some (length body), 0%Z) /\
  (forall rest k, first_zero rest k -> scan rest k0 = (Some k, 0%Z)) /\
  (forall pivot done s0 rep,
      find pivot (s0 ++ pivot ++ body ++ ")"%char :: tail) = Some (length s0) ->
      exists st',
        patch_call pivot
          (mkState (done ++ s0 ++ pivot ++ body ++ ")"%char :: tail)
                   (length done) k0 rep)
        = Ok st' /\
        st_subject st' = length (done ++ s0 ++ pivot) /\
        st_k st' = Some (length body) /\
        st_text st' = done ++ s0 ++ pivot ++ body ++ ")"%char :: mark tail).
Proof.
  intros Hb. split; [now apply balanced_first_zero|]. split; [|split].
  - apply scan_first_zero. now apply balanced_first_zero.
  - intros rest k. apply scan_first_zero.
  - intros pivot done s0 rep Hf. eexists. split.
    + apply patch_call_closed; [exact Hf|]. apply balanced_run; [exact Hb|lia].
    + repeat split.
Qed.

Ltac plain_chars :=
  repeat (apply balanced_char; [discriminate|discriminate|]).

Lemma scan_stops_at_matching_paren_witness :
  balanced (str "inner(a,b), c") /\
  (first_zero (str "inner(a,b), c)") 13 /\
   scan (str "inner(a,b), c)") None = (Some 13, 0%Z)).
Proof.
  assert (Hb : balanced (str "inner(a,b), c")).
  { cbn. plain_chars.
    apply (balanced_paren (str "a,b") (str ", c")); cbn; plain_chars;
      apply balanced_nil. }
  split; [exact Hb|].
  pose proof (scan_stops_at_matching_paren (str "inner(a,b), c") [] None Hb)
    as (H1 & H2 & _).
  exact (conj H1 H2).
Defined.

(** *** Inserting the marker after a closing parenthesis *)

Lemma no_char_in (c : ascii) (s : text) :
  forallb (fun x => negb (Ascii.eqb c x)) s = true -> ~ In c s.
Proof.
  intros H Hin. rewrite forallb_forall in H. specialize (H c Hin).
  now rewrite Ascii.eqb_refl in H.
Qed.


Lemma app_cons_split (c : ascii) (x : text) :
  forall body y y0,
    x ++ c :: y = body ++ c :: y0 ->
    (x = body /\ y = y0) \/
    (exists z, body = x ++ c :: z /\ y = z ++ c :: y0) \/
    (exists z, x = body ++ c :: z /\ y0 = z ++ c :: y).
Proof.
  induction x as [|a x IH]; intros body y y0 H.
  - destruct body as [|b body]; cbn [app] in H.
    + injection H as ->. now left.
    + injection H as <- ->. right; left. now exists body.
  - destruct body as [|b body]; cbn [app] in H.
    + injection H as -> <-. right; right. now exists x.
    + injection H as <- H.
      destruct (IH _ _ _ H) as [[-> ->]|[(z & -> & ->)|(z & -> & ->)]].
      * now left.
      * right; left. now exists z.
      * right; right. now exists z.
Qed.

Lemma marker_upto_close (x y y' : text) :
  starts_with insert (x ++ ")"%char :: y) = starts_with insert (x ++ ")"%char :: y').
Proof.
  change insert with (str ".contiguous(" ++ [")"%char]).
  apply starts_with_upto. apply no_char_in. reflexivity.
Qed.

Lemma run_insert_marker (x z : text) (cnt c : Z) :
  (0 < cnt)%Z ->
  run cnt (x ++ ")"%char :: z) = Some c ->
  run cnt (x ++ ")"%char :: insert ++ z) = Some c.
Proof.
  intros Hp.
  assert (E1 : x ++ ")"%char :: z = (x ++ [")"%char]) ++ z)
    by (rewrite <- app_assoc; reflexivity).
  assert (E2 : x ++ ")"%char :: insert ++ z = (x ++ [")"%char]) ++ insert ++ z)
    by (rewrite <- app_assoc; reflexivity).
  rewrite E1, E2.
  rewrite (run_app (x ++ [")"%char]) z), (run_app (x ++ [")"%char]) (insert ++ z)).
  destruct (run cnt (x ++ [")"%char])) as [d|] eqn:E; [|discriminate].
  intros H. rewrite run_marker; [exact H|].
  exact (run_pos _ _ _ Hp E).
Qed.

Lemma closed_suffix_insert (x y : text) :
  closed_suffix (x ++ ")"%char :: y) ->
  closed_suffix (x ++ ")"%char :: insert ++ y).
Proof.
  intros (body & y0 & E & Hr).
  destruct (app_cons_split _ _ _ _ _ E) as [[-> ->]|[(z & -> & ->)|(z & -> & ->)]].
  - now exists body, (insert ++ y0).
  - exists (x ++ ")"%char :: insert ++ z), y0. split.
    + rewrite <- ?app_assoc. cbn [app]. now rewrite <- ?app_assoc.
    + apply run_insert_marker; [lia|exact Hr].
  - exists body, (z ++ ")"%char :: insert ++ y). split; [|exact Hr].
    rewrite <- ?app_assoc. reflexivity.
Qed.

Lemma marked_suffix_insert (x y : text) :
  marked_suffix (x ++ ")"%char :: y) ->
  marked_suffix (x ++ ")"%char :: insert ++ y).
Proof.
  intros (body & y0 & E & Hr & Hm).
  destruct (app_cons_split _ _ _ _ _ E) as [[-> ->]|[(z & -> & ->)|(z & -> & ->)]].
  - exists body, (insert ++ y0). split; [reflexivity|]. split; [exact Hr|].
    apply starts_with_app.
  - exists (x ++ ")"%char :: insert ++ z), y0. split; [|split].
    + rewrite <- ?app_assoc. cbn [app]. now rewrite <- ?app_assoc.
    + apply run_insert_marker; [lia|exact Hr].
    + exact Hm.
  - exists body, (z ++ ")"%char :: insert ++ y). split; [|split].
    + rewrite <- ?app_assoc. reflexivity.
    + exact Hr.
    + now rewrite (marker_upto_close z (insert ++ y) y).
Qed.

Lemma marked_is_closed (r : text) : marked_suffix r -> closed_suffix r.
Proof. intros (body & y & E & Hr & _). now exists body, y. Qed.

(** *** Pivots and the marker *)

Section Pivot.

Variable w : text.
Hypothesis w_no_dot : ~ In "."%char w.
Hypothesis w_no_close : ~ In ")"%char w.
Hypothesis w_not_marker : forall z, starts_with ("."%char :: w) (insert ++ z) = false.
Hypothesis marker_not_w : forall z, starts_with insert ("."%char :: w ++ z) = false.

Let pivot : text := "."%char :: w.

Lemma pivot_no_close : ~ In ")"%char pivot.
Proof. intros [H|H]; [discriminate H|now apply w_no_close]. Qed.

Lemma pivot_not_nil : pivot <> [].
Proof. discriminate. Qed.

Lemma find_pivot_here (z : text) : find pivot (pivot ++ z) = Some 0.
Proof.
  unfold pivot. cbn [app]. rewrite find_cons.
  change ("."%char :: w ++ z) with (("."%char :: w) ++ z).
  now rewrite starts_with_app.
Qed.

(** The next call is where the text before it ends. *)
Lemma find_next_pivot (s0 z : text) :
  find pivot s0 = None -> find pivot (s0 ++ pivot ++ z) = Some (length s0).
Proof.
  intros H.
  change (find ("."%char :: w) (s0 ++ "."%char :: w ++ z) = Some (length s0)).
  rewrite (find_app_lead "."%char w w_no_dot s0 (w ++ z)).
  change (find ("."%char :: w) s0) with (find pivot s0). rewrite H.
  change (find ("."%char :: w) ("."%char :: w ++ z)) with (find pivot (pivot ++ z)).
  rewrite find_pivot_here. cbn. f_equal. lia.
Qed.

Lemma find_pivot_marker (z : text) :
  find pivot (insert ++ z) = option_map (Nat.add (length insert)) (find pivot z).
Proof.
  pose proof (w_not_marker z) as H0. unfold pivot.
  cbn [insert str list_ascii_of_string app] in H0 |- *.
  rewrite find_cons, H0.
  do 12 (rewrite find_cons; cbn [starts_with Ascii.eqb Bool.eqb andb]).
  destruct (find ("."%char :: w) z); reflexivity.
Qed.

Lemma find_pivot_mark (sep : text) :
  find pivot sep = None -> find pivot (mark sep) = None.
Proof.
  intros H. unfold mark. destruct (starts_with insert sep); [exact H|].
  now rewrite find_pivot_marker, H.
Qed.

Lemma find_pivot_call (body sep : text) :
  find pivot body = None -> find pivot sep = None ->
  find pivot (body ++ ")"%char :: sep) = None.
Proof.
  intros Hb Hs.
  now rewrite (find_app_stop ")"%char pivot pivot_not_nil pivot_no_close), Hb, Hs.
Qed.

(** Whether the marker follows a call is told by the text up to the next
    call. *)
Lemma marker_before_calls (sep : text) (calls : list (text * text)) :
  starts_with insert (sep ++ render pivot calls) = starts_with insert sep.
Proof.
  destruct calls as [|[body sep'] calls]; cbn [render]; [now rewrite app_nil_r|].
  unfold pivot. cbn [app].
  destruct sep as [|c sep].
  - cbn [app]. rewrite marker_not_w. reflexivity.
  - change insert with ("."%char :: str "contiguous()").
    cbn [app]. rewrite !starts_with_cons.
    f_equal. apply starts_with_stop.
    cbn. intros H. repeat (destruct H as [H|H]; [discriminate H|]). exact H.
Qed.

Lemma mark_before_calls (sep : text) (calls : list (text * text)) :
  mark (sep ++ render pivot calls) = mark sep ++ render pivot calls.
Proof.
  unfold mark. rewrite marker_before_calls.
  destruct (starts_with insert sep); [reflexivity|now rewrite app_assoc].
Qed.

Lemma count_calls (calls : list (text * text)) :
  forall s0,
    find pivot s0 = None -> Forall (plain_call pivot) calls ->
    count (s0 ++ render pivot calls) pivot = length calls.
Proof.
  induction calls as [|[body sep] calls IH]; intros s0 H0 Hc.
  - cbn [render]. rewrite app_nil_r. now apply count_none.
  - inversion Hc as [|c l (Hb & Hfb & Hfs) Hl]; subst. cbn [fst snd] in *.
    rewrite count_unfold by discriminate. cbn [render].
    rewrite find_next_pivot by exact H0.
    rewrite app_assoc, <- length_app, skipn_app_length.
    cbn [length]. f_equal.
    change (body ++ ")"%char :: sep ++ render pivot calls)
      with (body ++ (")"%char :: sep) ++ render pivot calls).
    rewrite app_assoc. apply IH; [|exact Hl].
    now apply find_pivot_call.
Qed.

(** The loop over the calls: every turn finds the next call, and puts the
    marker after its closing parenthesis unless it is there. *)
Lemma for_range_calls (calls : list (text * text)) :
  forall (done s0 : text) (k : option nat) (rep : bool),
    find pivot s0 = None -> Forall (plain_call pivot) calls ->
    let st := mkState (done ++ s0 ++ render pivot calls) (length done) k rep in
    (exists sub' k',
        for_range (length calls) (patch_call pivot) st
        = Ok (mkState (done ++ s0 ++ render_marked pivot calls) sub' k'
                      (rep || existsb (fun c => negb (starts_with insert (snd c)))
                                      calls))) /\
    subjects_range (length calls) (patch_call pivot) st
    = open_offsets pivot (length (done ++ s0)) calls.
Proof.
  induction calls as [|[body sep] calls IH]; intros done s0 k rep H0 Hc.
  - cbn. rewrite orb_false_r. split; [|reflexivity]. now exists (length done), k.
  - inversion Hc as [|c l (Hb & Hfb & Hfs) Hl]; subst. cbn [fst snd] in *.
    cbn zeta. cbn [render length for_range subjects_range].
    rewrite patch_call_closed;
      [|now apply find_next_pivot|apply balanced_run; [exact Hb|lia]].
    rewrite marker_before_calls, mark_before_calls. cbn [bind].
    assert (E : done ++ s0 ++ pivot ++ body ++ ")"%char :: mark sep ++ render pivot calls
                = (done ++ s0 ++ pivot) ++ (body ++ ")"%char :: mark sep)
                    ++ render pivot calls).
    { rewrite <- ?app_assoc. cbn [app]. now rewrite <- ?app_assoc. }
    rewrite E.
    destruct (IH (done ++ s0 ++ pivot) (body ++ ")"%char :: mark sep)
                 (Some (length body))
                 (if starts_with insert sep then rep else true))
      as ((sub' & k' & Hrun) & Hsub);
      [apply find_pivot_call; [exact Hfb|now apply find_pivot_mark]|exact Hl|].
    cbn zeta in Hrun, Hsub. split.
    + exists sub', k'. rewrite Hrun. f_equal. f_equal.
      * cbn [render_marked]. rewrite <- ?app_assoc. cbn [app].
        now rewrite <- ?app_assoc.
      * cbn [existsb snd]. destruct (starts_with insert sep), rep; reflexivity.
    + rewrite Hsub. cbn [open_offsets]. f_equal.
      * cbn [st_subject]. rewrite !length_app. lia.
      * f_equal. rewrite !length_app. cbn [length]. lia.
Qed.

Lemma length_render_marked (calls : list (text * text)) :
  length (render_marked pivot calls)
  = length (render pivot calls) + length insert * length (unmarked calls).
Proof.
  induction calls as [|[body sep] calls IH]; [reflexivity|].
  cbn [render render_marked unmarked filter snd].
  rewrite !length_app. cbn [length]. rewrite !length_app, IH.
  unfold mark. fold (unmarked calls).
  destruct (starts_with insert sep); cbn [negb length]; rewrite ?length_app; lia.
Qed.

(** No call starts inside the marker. *)
Lemma no_pivot_in_marker (i : nat) (z : text) :
  i < length insert -> starts_with pivot (skipn i insert ++ z) = false.
Proof.
  intros Hi. destruct i as [|i]; [apply w_not_marker|].
  cbn [insert str list_ascii_of_string length] in Hi |- *.
  do 12 (destruct i as [|i]; [reflexivity|]). lia.
Qed.

(** The calls of the text with the marker inserted are the calls of the
    text without it. *)
Lemma occ_insert (a y : text) (j : nat) :
  occ pivot (a ++ ")"%char :: insert ++ y) j ->
  (j + length pivot <= length a /\ occ pivot (a ++ ")"%char :: y) j) \/
  (length a + 1 + length insert <= j /\
   occ pivot (a ++ ")"%char :: y) (j - length insert)).
Proof.
  unfold occ. intros H.
  destruct (Nat.le_gt_cases j (length a)) as [Hj|Hj].
  - left. rewrite skipn_app in H |- *.
    replace (j - length a) with 0 in * by lia. cbn [skipn] in *.
    rewrite (starts_with_stop ")"%char pivot pivot_no_close) in H |- *.
    split; [|exact H].
    apply starts_with_length in H. rewrite length_skipn in H. lia.
  - right.
    assert (E' : a ++ ")"%char :: insert ++ y = (a ++ [")"%char]) ++ insert ++ y)
      by (rewrite <- app_assoc; reflexivity).
    assert (E : a ++ ")"%char :: y = (a ++ [")"%char]) ++ y)
      by (rewrite <- app_assoc; reflexivity).
    assert (L : length (a ++ [")"%char]) = length a + 1)
      by (rewrite length_app; reflexivity).
    destruct (Nat.le_gt_cases (length a + 1 + length insert) j) as [Hk|Hk].
    + split; [exact Hk|].
      rewrite E. rewrite E' in H.
      replace j with (length (a ++ [")"%char]) + (length insert + (j - length a - 1 - length insert)))
        in H by lia.
      rewrite skipn_app_more, skipn_app_more in H.
      replace (j - length insert)
        with (length (a ++ [")"%char]) + (j - length a - 1 - length insert)) by lia.
      now rewrite skipn_app_more.
    + exfalso. rewrite E' in H.
      replace j with (length (a ++ [")"%char]) + (j - length a - 1)) in H by lia.
      rewrite skipn_app_more, skipn_app in H.
      replace (j - length a - 1 - length insert) with 0 in H by lia.
      cbn [skipn] in H.
      rewrite no_pivot_in_marker in H by lia. discriminate H.
Qed.

(** What holds of the text after every call that starts before [sub], and
    stands an insertion of the marker, holds after the insertion. *)
Lemma calls_insert (Q : text -> Prop) (a y : text) (sub : nat) :
  (forall x z, Q (x ++ ")"%char :: z) -> Q (x ++ ")"%char :: insert ++ z)) ->
  (forall j, occ pivot (a ++ ")"%char :: y) j -> j < sub ->
             Q (skipn (j + length pivot) (a ++ ")"%char :: y))) ->
  forall j, occ pivot (a ++ ")"%char :: insert ++ y) j -> j < sub ->
            Q (skipn (j + length pivot) (a ++ ")"%char :: insert ++ y)).
Proof.
  intros HQ H j Ho Hj.
  destruct (occ_insert _ _ _ Ho) as [(Hl & Ho')|(Hl & Ho')].
  - specialize (H j Ho' Hj). rewrite skipn_app in H |- *.
    replace (j + length pivot - length a) with 0 in * by lia.
    cbn [skipn] in *. now apply HQ.
  - specialize (H (j - length insert) Ho' ltac:(lia)).
    assert (E' : a ++ ")"%char :: insert ++ y = (a ++ ")"%char :: insert) ++ y)
      by (rewrite <- app_assoc; reflexivity).
    assert (E : a ++ ")"%char :: y = (a ++ [")"%char]) ++ y)
      by (rewrite <- app_assoc; reflexivity).
    assert (L' : length (a ++ ")"%char :: insert) = length a + 1 + length insert)
      by (rewrite length_app; cbn [length]; lia).
    assert (L : length (a ++ [")"%char]) = length a + 1)
      by (rewrite length_app; reflexivity).
    rewrite E'. rewrite E in H.
    replace (j + length pivot)
      with (length (a ++ ")"%char :: insert)
            + (j - length a - 1 - length insert + length pivot)) by lia.
    replace (j - length insert + length pivot)
      with (length (a ++ [")"%char])
            + (j - length a - 1 - length insert + length pivot)) in H by lia.
    rewrite skipn_app_more in H |- *. exact H.
Qed.

Lemma all_closed_insert (a y : text) :
  all_closed pivot (a ++ ")"%char :: y) ->
  all_closed pivot (a ++ ")"%char :: insert ++ y).
Proof.
  intros H j Ho.
  apply (calls_insert closed_suffix a y (S j) closed_suffix_insert);
    [|exact Ho|lia].
  intros i Hi _. now apply H.
Qed.

Lemma all_marked_insert (a y : text) :
  all_marked pivot (a ++ ")"%char :: y) ->
  all_marked pivot (a ++ ")"%char :: insert ++ y).
Proof.
  intros H j Ho.
  apply (calls_insert marked_suffix a y (S j) marked_suffix_insert);
    [|exact Ho|lia].
  intros i Hi _. now apply H.
Qed.

Lemma marked_before_insert (a y : text) (sub : nat) :
  marked_before pivot (a ++ ")"%char :: y) sub ->
  marked_before pivot (a ++ ")"%char :: insert ++ y) sub.
Proof.
  intros H. exact (calls_insert marked_suffix a y sub marked_suffix_insert H).
Qed.

(** The marker adds no call and hides none. *)
Lemma count_insert (x : text) :
  forall y,
    count (x ++ ")"%char :: insert ++ y) pivot = count (x ++ ")"%char :: y) pivot.
Proof.
  assert (G : forall n x y, length x <= n ->
                            count (x ++ ")"%char :: insert ++ y) pivot
                            = count (x ++ ")"%char :: y) pivot).
  { clear x. induction n as [|n IH]; intros x y Hn;
      rewrite (count_unfold (x ++ ")"%char :: insert ++ y) pivot pivot_not_nil),
              (count_unfold (x ++ ")"%char :: y) pivot pivot_not_nil),
              !(find_app_stop ")"%char pivot pivot_not_nil pivot_no_close);
      destruct (find pivot x) as [j|] eqn:F.
    - apply find_length in F. cbn [pivot length] in F. lia.
    - rewrite find_pivot_marker.
      destruct (find pivot y) as [j|]; [|reflexivity]. cbn [option_map]. f_equal.
      assert (E' : x ++ ")"%char :: insert ++ y = (x ++ ")"%char :: insert) ++ y)
        by (rewrite <- app_assoc; reflexivity).
      assert (E : x ++ ")"%char :: y = (x ++ [")"%char]) ++ y)
        by (rewrite <- app_assoc; reflexivity).
      rewrite E', E.
      replace (S (length x) + (length insert + j) + length pivot)
        with (length (x ++ ")"%char :: insert) + (j + length pivot))
        by (rewrite length_app; cbn [length]; lia).
      replace (S (length x) + j + length pivot)
        with (length (x ++ [")"%char]) + (j + length pivot))
        by (rewrite length_app; cbn [length]; lia).
      now rewrite !skipn_app_more.
    - f_equal. pose proof (find_length _ _ _ F) as Hl.
      rewrite !skipn_app.
      replace (j + length pivot - length x) with 0 by lia. cbn [skipn].
      apply IH. rewrite length_skipn. cbn [pivot length] in *. lia.
    - rewrite find_pivot_marker.
      destruct (find pivot y) as [j|]; [|reflexivity]. cbn [option_map]. f_equal.
      assert (E' : x ++ ")"%char :: insert ++ y = (x ++ ")"%char :: insert) ++ y)
        by (rewrite <- app_assoc; reflexivity).
      assert (E : x ++ ")"%char :: y = (x ++ [")"%char]) ++ y)
        by (rewrite <- app_assoc; reflexivity).
      rewrite E', E.
      replace (S (length x) + (length insert + j) + length pivot)
        with (length (x ++ ")"%char :: insert) + (j + length pivot))
        by (rewrite length_app; cbn [length]; lia).
      replace (S (length x) + j + length pivot)
        with (length (x ++ [")"%char]) + (j + length pivot))
        by (rewrite length_app; cbn [length]; lia).
      now rewrite !skipn_app_more. }
  intros y. now apply (G (length x)).
Qed.

(** *** One pass over the calls of a pivot *)

(** Two calls do not overlap. *)
Lemma pivot_no_overlap (r : text) (d : nat) :
  0 < d < length pivot -> starts_with pivot (skipn d (pivot ++ r)) = false.
Proof.
  intros Hd. destruct d as [|d]; [lia|].
  cbn [pivot length] in Hd. cbn [pivot app skipn].
  rewrite skipn_app. replace (d - length w) with 0 by lia. cbn [skipn].
  destruct (skipn d w) as [|c w'] eqn:E.
  { apply (f_equal (@length ascii)) in E. rewrite length_skipn in E.
    cbn in E. lia. }
  cbn [app]. unfold pivot. rewrite starts_with_cons.
  destruct (Ascii.eqb_spec "."%char c) as [<-|_]; [|reflexivity].
  exfalso. apply w_no_dot.
  rewrite <- (firstn_skipn d w), E. apply in_or_app. right. now left.
Qed.

Lemma find_none_before (s0 r : text) :
  find pivot (s0 ++ pivot ++ r) = Some (length s0) -> find pivot s0 = None.
Proof.
  unfold pivot. cbn [app].
  rewrite (find_app_lead "."%char w w_no_dot s0 (w ++ r)).
  destruct (find ("."%char :: w) s0) as [j|] eqn:F; [|reflexivity].
  intros [= ->]. apply find_length in F. cbn [length] in F. lia.
Qed.

(** The calls before the next one and the next one have the marker: all
    the calls before the text after its opening parenthesis have it. *)
Lemma marked_before_next (done s0 r : text) :
  find pivot (s0 ++ pivot ++ r) = Some (length s0) ->
  marked_before pivot (done ++ s0 ++ pivot ++ r) (length done) ->
  marked_suffix r ->
  marked_before pivot (done ++ s0 ++ pivot ++ r) (length (done ++ s0 ++ pivot)).
Proof.
  intros Hf Hb Hm j Ho Hj.
  destruct (Nat.lt_ge_cases j (length done)) as [Hd|Hd]; [now apply Hb|].
  rewrite !length_app in Hj.
  destruct (find_some _ _ _ Hf) as (_ & _ & Hfirst).
  unfold occ in Ho.
  replace j with (length done + (j - length done)) in Ho by lia.
  rewrite skipn_app_more in Ho.
  destruct (Nat.lt_trichotomy (j - length done) (length s0)) as [Hl|[He|Hg]].
  - rewrite Hfirst in Ho by exact Hl. discriminate Ho.
  - replace (j + length pivot) with (length (done ++ s0 ++ pivot))
      by (rewrite !length_app; lia).
    rewrite !app_assoc, skipn_app_length. exact Hm.
  - replace (j - length done) with (length s0 + (j - length done - length s0))
      in Ho by lia.
    rewrite skipn_app_more, pivot_no_overlap in Ho by lia. discriminate Ho.
Qed.

(** The next call of a text that has one left. *)
Lemma next_occurrence (done s : text) (n : nat) :
  count s pivot = S n ->
  exists s0 r,
    s = s0 ++ pivot ++ r /\
    find pivot (s0 ++ pivot ++ r) = Some (length s0) /\
    count r pivot = n /\
    occ pivot (done ++ s) (length (done ++ s0)) /\
    skipn (length (done ++ s0) + length pivot) (done ++ s) = r.
Proof.
  rewrite (count_unfold s pivot pivot_not_nil).
  destruct (find pivot s) as [j|] eqn:F; [|discriminate].
  intros [= Hn].
  destruct (find_some _ _ _ F) as (Hj & Ho & _).
  destruct (starts_with_inv _ _ Ho) as [r Hr].
  assert (Hs : s = firstn j s ++ pivot ++ r)
    by (rewrite <- Hr; symmetry; apply firstn_skipn).
  assert (Hl : length (firstn j s) = j) by (rewrite length_firstn; lia).
  exists (firstn j s), r.
  assert (Hsk : skipn (j + length pivot) s = r).
  { rewrite Nat.add_comm, <- skipn_skipn, Hr. apply skipn_app_length. }
  repeat split.
  - exact Hs.
  - rewrite <- Hs, Hl. exact F.
  - now rewrite <- Hsk.
  - unfold occ. rewrite length_app, Hl, skipn_app_more. exact Ho.
  - rewrite length_app, Hl, <- Nat.add_assoc, skipn_app_more. exact Hsk.
Qed.

Lemma no_occurrence_left (done s : text) :
  count s pivot = 0 ->
  forall j, occ pivot (done ++ s) j -> j < length done.
Proof.
  rewrite (count_unfold s pivot pivot_not_nil).
  destruct (find pivot s) as [j|] eqn:F; [discriminate|].
  intros _ j Ho. destruct (Nat.lt_ge_cases j (length done)) as [H|H]; [exact H|].
  unfold occ in Ho. replace j with (length done + (j - length done)) in Ho by lia.
  rewrite skipn_app_more, (find_none _ _ F) in Ho. discriminate Ho.
Qed.

Lemma starts_with_mark (y : text) : starts_with insert (mark y) = true.
Proof.
  unfold mark. destruct (starts_with insert y) eqn:E; [exact E|].
  apply starts_with_app.
Qed.

(** What stands an insertion of the marker holds of the text after the
    body of the loop. *)
Lemma mark_preserves (P : text -> Prop) (a y : text) :
  (forall x z, P (x ++ ")"%char :: z) -> P (x ++ ")"%char :: insert ++ z)) ->
  P (a ++ ")"%char :: y) -> P (a ++ ")"%char :: mark y).
Proof.
  intros HP H. unfold mark. destruct (starts_with insert y); [exact H|].
  now apply HP.
Qed.

Section Pass.

Variable Keep : text -> Prop.
Hypothesis Keep_insert :
  forall x z, Keep (x ++ ")"%char :: z) -> Keep (x ++ ")"%char :: insert ++ z).

(** The loop over a text whose calls of the pivot are closed leaves
    every call of the pivot followed by the marker. *)
Lemma for_range_marks (n : nat) :
  forall (done s : text) (k : option nat) (rep : bool),
    count s pivot = n ->
    all_closed pivot (done ++ s) ->
    marked_before pivot (done ++ s) (length done) ->
    Keep (done ++ s) ->
    exists st',
      for_range n (patch_call pivot) (mkState (done ++ s) (length done) k rep)
      = Ok st' /\
      all_marked pivot (st_text st') /\ Keep (st_text st').
Proof.
  induction n as [|n IH]; intros done s k rep Hn Hc Hb Hk.
  - eexists. split; [reflexivity|]. cbn [st_text]. split; [|exact Hk].
    intros j Ho. apply Hb; [exact Ho|]. now apply (no_occurrence_left done s Hn).
  - destruct (next_occurrence done s n Hn) as (s0 & r & -> & Hf & Hr & Ho & Hsk).
    destruct (Hc _ Ho) as (body & y & E & Hrun). rewrite Hsk in E. subst r.
    cbn [for_range]. rewrite patch_call_closed by assumption. cbn [bind].
    assert (A : forall z, done ++ s0 ++ pivot ++ body ++ ")"%char :: z
                          = (done ++ s0 ++ pivot ++ body) ++ ")"%char :: z)
      by (intros z; now rewrite <- !app_assoc).
    assert (B : forall z, done ++ s0 ++ pivot ++ body ++ ")"%char :: z
                          = (done ++ s0 ++ pivot) ++ body ++ ")"%char :: z)
      by (intros z; now rewrite <- !app_assoc).
    rewrite (B (mark y)).
    apply IH.
    + rewrite <- Hr. unfold mark. destruct (starts_with insert y); [reflexivity|].
      apply count_insert.
    + rewrite <- B, A. apply (mark_preserves (all_closed pivot)).
      * exact all_closed_insert.
      * now rewrite <- A.
    + rewrite <- B. apply marked_before_next.
      * apply find_next_pivot. exact (find_none_before _ _ Hf).
      * rewrite A.
        apply (mark_preserves (fun t => marked_before pivot t (length done))).
        -- intros x z. apply marked_before_insert.
        -- now rewrite <- A.
      * exists body, (mark y). split; [reflexivity|]. split; [exact Hrun|].
        apply starts_with_mark.
    + rewrite <- B, A. apply (mark_preserves Keep); [exact Keep_insert|].
      now rewrite <- A.
Qed.

End Pass.

(** The loop over a text whose calls of the pivot all have the marker
    changes neither the text nor [rep]. *)
Lemma for_range_marked_same (n : nat) :
  forall (done s : text) (k : option nat) (rep : bool),
    count s pivot = n ->
    all_marked pivot (done ++ s) ->
    exists sub' k',
      for_range n (patch_call pivot) (mkState (done ++ s) (length done) k rep)
      = Ok (mkState (done ++ s) sub' k' rep).
Proof.
  induction n as [|n IH]; intros done s k rep Hn Hm.
  - now exists (length done), k.
  - destruct (next_occurrence done s n Hn) as (s0 & r & -> & Hf & Hr & Ho & Hsk).
    destruct (Hm _ Ho) as (body & y & E & Hrun & Hy). rewrite Hsk in E. subst r.
    cbn [for_range]. rewrite patch_call_closed by assumption. cbn [bind].
    unfold mark. rewrite Hy.
    assert (B : done ++ s0 ++ pivot ++ body ++ ")"%char :: y
                = (done ++ s0 ++ pivot) ++ body ++ ")"%char :: y)
      by now rewrite <- !app_assoc.
    rewrite B. apply IH; [exact Hr|]. now rewrite <- B.
Qed.

End Pivot.

(** The two pivots have the shape the lemmas above ask for. *)
Lemma prefix_shape (prefix : text) :
  In prefix prefixes ->
  exists w,
    pivot_of prefix = "."%char :: w /\
    ~ In "."%char w /\ ~ In ")"%char w /\
    (forall z, starts_with ("."%char :: w) (insert ++ z) = false) /\
    (forall z, starts_with insert ("."%char :: w ++ z) = false).
Proof.
  intros [<-|[<-|[]]].
  - exists (str "view("). repeat split; try (apply no_char_in; reflexivity).
  - exists (str "reshape("). repeat split; try (apply no_char_in; reflexivity).
Qed.

Lemma existsb_unmarked (calls : list (text * text)) :
  existsb (fun c => negb (starts_with insert (snd c))) calls
  = negb (length (unmarked calls) =? 0).
Proof.
  unfold unmarked. induction calls as [|c calls IH]; [reflexivity|].
  cbn [existsb filter]. destruct (starts_with insert (snd c)); cbn [negb orb];
    [exact IH|reflexivity].
Qed.

(** C4, as the code has it. For a text made of N calls of one target
    name, each with matched parentheses and none inside another, the loop
    over the occurrences runs N times, finds the calls once each from left
    to right (the search resumes after the opening parenthesis found
    before), and leaves every call followed by the marker right after its
    closing parenthesis: the marker is inserted after the calls that were
    not followed by it, and only after those. *)
Theorem patch_prefix_marks_each_call
        (prefix s0 : text) (calls : list (text * text)) (st : state) :
  In prefix prefixes ->
  find (pivot_of prefix) s0 = None ->
  Forall (plain_call (pivot_of prefix)) calls ->
  st_text st = s0 ++ render (pivot_of prefix) calls ->
  count (st_text st) (pivot_of prefix) = length calls /\
  (exists st',
      patch_prefix prefix st = Ok st' /\
      st_text st' = s0 ++ render_marked (pivot_of prefix) calls /\
      st_rep st' = st_rep st || negb (length (unmarked calls) =? 0) /\
      length (st_text st')
      = length (st_text st) + length insert * length (unmarked calls)) /\
  subjects_range (length calls) (patch_call (pivot_of prefix))
                 (mkState (st_text st) 0 (st_k st) (st_rep st))
  = open_offsets (pivot_of prefix) (length s0) calls.
Proof.
  intros Hin H0 Hc Ht.
  destruct (prefix_shape prefix Hin) as (w & Hw & Hd & Hcl & Hm1 & Hm2).
  rewrite Hw in *.
  pose proof (count_calls w Hd Hcl calls s0 H0 Hc) as Hcount.
  destruct (for_range_calls w Hd Hcl Hm1 Hm2 calls [] s0 (st_k st) (st_rep st) H0 Hc)
    as ((sub' & k' & Hrun) & Hsub).
  cbn [app length] in Hrun, Hsub. rewrite <- Ht in Hrun, Hsub, Hcount.
  split; [exact Hcount|]. split; [|exact Hsub].
  eexists. unfold patch_prefix. cbn zeta. rewrite Hw. cbn [st_text st_k st_rep].
  rewrite Hcount. split; [exact Hrun|]. cbn [st_text st_rep]. repeat split.
  - f_equal. apply existsb_unmarked.
  - rewrite Ht, !length_app, (length_render_marked w). lia.
Qed.

Lemma patch_prefix_marks_each_call_witness :
  let calls := [(str "f(1)", str " + y"); (str "2", str ".contiguous()")] in
  let st := mkState (str "x.view(f(1)) + y.view(2).contiguous()") 0 None false in
  In (str "view") prefixes /\
  find view_pivot (str "x") = None /\
  Forall (plain_call view_pivot) calls /\
  st_text st = str "x" ++ render view_pivot calls /\
  count (st_text st) view_pivot = 2 /\
  (exists st',
      patch_prefix (str "view") st = Ok st' /\
      st_text st' = str "x.view(f(1)).contiguous() + y.view(2).contiguous()" /\
      st_rep st' = true /\
      length (st_text st') = length (st_text st) + 13 * 1) /\
  subjects_range 2 (patch_call view_pivot) st = [7; 35].
Proof.
  intros calls st.
  assert (Hin : In (str "view") prefixes) by (left; reflexivity).
  assert (Hc : Forall (plain_call view_pivot) calls).
  { apply Forall_cons; [|apply Forall_cons; [|apply Forall_nil]];
      (split; [|split; reflexivity]); cbn.
    - plain_chars. apply (balanced_paren (str "1") []); cbn; plain_chars;
        apply balanced_nil.
    - plain_chars. apply balanced_nil. }
  split; [exact Hin|]. split; [reflexivity|]. split; [exact Hc|].
  split; [reflexivity|].
  exact (patch_prefix_marks_each_call (str "view") (str "x") calls st
           Hin eq_refl Hc eq_refl).
Defined.

(** C4, the claim as stated fails: a text with one call, which the marker
    follows, gets no marker. *)
Lemma marked_call_gets_no_marker :
  let s := str "x.view(1).contiguous()" in
  s = str "x" ++ render view_pivot [(str "1", str ".contiguous()")] /\
  plain_call view_pivot (str "1", str ".contiguous()") /\
  patch_prefix (str "view") (mkState s 0 None false)
  = Ok (mkState s 7 (Some 1) false).
Proof.
  cbn zeta. split; [reflexivity|]. split; [|reflexivity].
  split; [|split; reflexivity]. cbn. plain_chars. apply balanced_nil.
Qed.

(** *** The replacement and the calls *)

Lemma replace_from_skip (old new : text) (s : text) :
  forall n, replace_from old new s n = replace_from old new (skipn n s) 0.
Proof.
  induction s as [|c s IH]; intros [|n]; try reflexivity.
  cbn [replace_from skipn]. apply IH.
Qed.

Lemma rename_unfold (s : text) :
  rename s = if starts_with view_pivot s
             then reshape_pivot ++ rename (skipn (length view_pivot) s)
             else match s with
                  | [] => []
                  | c :: s' => c :: rename s'
                  end.
Proof.
  destruct s as [|c s]; [reflexivity|].
  unfold rename, replace. change view_pivot with ("."%char :: str "view(").
  cbn [replace_from]. destruct (starts_with _ (c :: s)); [|reflexivity].
  f_equal. rewrite replace_from_skip. reflexivity.
Qed.

Lemma rename_none (s : text) : find view_pivot s = None -> rename s = s.
Proof.
  induction s as [|c s IH]; intros F; [reflexivity|].
  rewrite rename_unfold, (find_none_starts _ _ F).
  f_equal. apply IH. rewrite find_cons in F.
  destruct (starts_with view_pivot (c :: s)); [discriminate|].
  now destruct (find view_pivot s).
Qed.

Lemma rename_marker (y : text) : rename (insert ++ y) = insert ++ rename y.
Proof. reflexivity. Qed.

Lemma rename_reshape_tail (y : text) :
  rename (str "reshape(" ++ y) = str "reshape(" ++ rename y.
Proof. reflexivity. Qed.

Lemma view_no_close : ~ In ")"%char view_pivot.
Proof. apply no_char_in. reflexivity. Qed.

Lemma rename_app_close (x : text) :
  forall y, rename (x ++ ")"%char :: y) = rename x ++ ")"%char :: rename y.
Proof.
  assert (G : forall n x y, length x <= n ->
                            rename (x ++ ")"%char :: y)
                            = rename x ++ ")"%char :: rename y).
  { clear x. induction n as [|n IH]; intros x y Hn;
      rewrite (rename_unfold (x ++ ")"%char :: y)), (rename_unfold x),
              (starts_with_stop ")"%char view_pivot view_no_close);
      destruct (starts_with view_pivot x) eqn:V.
    - apply starts_with_length in V. cbn in V. lia.
    - destruct x as [|c x]; [reflexivity|]. cbn in Hn. lia.
    - pose proof (starts_with_length _ _ V) as Hl.
      rewrite skipn_app.
      replace (length view_pivot - length x) with 0 by lia. cbn [skipn].
      rewrite IH by (rewrite length_skipn; cbn in *; lia).
      now rewrite <- app_assoc.
    - destruct x as [|c x]; [reflexivity|].
      cbn [app]. f_equal. apply IH. cbn in Hn. lia. }
  intros y. now apply (G (length x)).
Qed.

Lemma run_view (z : text) (cnt : Z) :
  (0 < cnt)%Z -> run cnt (view_pivot ++ z) = run (cnt + 1) z.
Proof.
  intros Hp. cbn [view_pivot pivot_of str list_ascii_of_string app].
  run_plain. now apply run_cons_open.
Qed.

Lemma run_reshape (z : text) (cnt : Z) :
  (0 < cnt)%Z -> run cnt (reshape_pivot ++ z) = run (cnt + 1) z.
Proof.
  intros Hp. cbn [reshape_pivot pivot_of str list_ascii_of_string app].
  run_plain. now apply run_cons_open.
Qed.

Lemma run_rename (s : text) :
  forall cnt, (0 < cnt)%Z -> run cnt (rename s) = run cnt s.
Proof.
  assert (G : forall n s cnt, length s <= n -> (0 < cnt)%Z ->
                              run cnt (rename s) = run cnt s).
  { clear s. induction n as [|n IH]; intros s cnt Hn Hp;
      rewrite rename_unfold; destruct (starts_with view_pivot s) eqn:V.
    - apply starts_with_length in V. cbn in V. lia.
    - destruct s as [|c s]; [reflexivity|]. cbn in Hn. lia.
    - pose proof (starts_with_length _ _ V) as Hl.
      destruct (starts_with_inv _ _ V) as [s2 ->].
      rewrite skipn_app_length, run_reshape, run_view by assumption.
      apply IH; [|lia]. rewrite length_app in Hn. cbn in Hn. lia.
    - destruct s as [|c s]; [reflexivity|].
      cbn [run]. destruct (step_cnt c cnt <=? 0)%Z eqn:E; [reflexivity|].
      apply Z.leb_gt in E. apply IH; [cbn in Hn; lia|exact E]. }
  intros cnt. now apply (G (length s)).
Qed.

Lemma marked_suffix_rename (r : text) :
  marked_suffix r -> marked_suffix (rename r).
Proof.
  intros (body & y & -> & Hr & Hy).
  destruct (starts_with_inv _ _ Hy) as [y' ->].
  exists (rename body), (insert ++ rename y'). split; [|split].
  - now rewrite rename_app_close, rename_marker.
  - now rewrite run_rename by lia.
  - apply starts_with_app.
Qed.

Lemma reshape_no_dot : ~ In "."%char (str "reshape(").
Proof. apply no_char_in. reflexivity. Qed.

(** A call of [reshape] in the renamed text was a call of [view] or of
    [reshape], and the text after it is the renamed text after that call. *)
Lemma occ_rename (t : text) :
  forall j',
    occ reshape_pivot (rename t) j' ->
    exists p j,
      (p = view_pivot \/ p = reshape_pivot) /\
      occ p t j /\
      skipn (j' + length reshape_pivot) (rename t) = rename (skipn (j + length p) t).
Proof.
  assert (G : forall n t j',
             length t <= n ->
             occ reshape_pivot (rename t) j' ->
             exists p j,
               (p = view_pivot \/ p = reshape_pivot) /\
               occ p t j /\
               skipn (j' + length reshape_pivot) (rename t)
               = rename (skipn (j + length p) t)).
  { clear t. induction n as [|n IH]; intros t j' Hn Ho.
    - destruct t; [|cbn in Hn; lia].
      unfold occ in Ho. cbn in Ho. rewrite skipn_nil in Ho. discriminate Ho.
    - unfold occ in Ho. rewrite rename_unfold in Ho |- *.
      destruct (starts_with view_pivot t) eqn:V.
      + destruct (starts_with_inv _ _ V) as [t2 ->].
        rewrite skipn_app_length in Ho |- *.
        rewrite length_app in Hn.
        destruct (Nat.lt_ge_cases j' (length reshape_pivot)) as [Hlt|Hge].
        * destruct j' as [|j'].
          -- exists view_pivot, 0. split; [now left|]. split; [exact V|].
             cbn [Nat.add]. now rewrite !skipn_app_length.
          -- change reshape_pivot with ("."%char :: str "reshape(") in Ho, Hlt.
             rewrite (pivot_no_overlap (str "reshape(") reshape_no_dot) in Ho
               by (cbn [length] in *; lia).
             discriminate Ho.
        * replace j' with (length reshape_pivot + (j' - length reshape_pivot))
            in Ho by lia.
          rewrite skipn_app_more in Ho.
          destruct (IH t2 _ ltac:(cbn in Hn; lia) Ho) as (p & j & Hp & Hoj & Hs).
          exists p, (length view_pivot + j). split; [exact Hp|]. split.
          -- unfold occ. now rewrite skipn_app_more.
          -- replace (j' + length reshape_pivot)
               with (length reshape_pivot
                     + (j' - length reshape_pivot + length reshape_pivot)) by lia.
             rewrite skipn_app_more, Hs, <- Nat.add_assoc.
             now rewrite skipn_app_more.
      + destruct t as [|c t].
        { rewrite skipn_nil in Ho. discriminate Ho. }
        destruct j' as [|j'].
        * cbn [skipn] in Ho.
          change reshape_pivot with ("."%char :: str "reshape(") in Ho.
          rewrite starts_with_cons in Ho.
          apply andb_true_iff in Ho as [Hc Hr]. apply Ascii.eqb_eq in Hc. subst c.
          apply (starts_with_replace_nodot (str "reshape(") reshape_no_dot) in Hr.
          destruct (starts_with_inv _ _ Hr) as [t3 ->].
          exists reshape_pivot, 0. split; [now right|]. split.
          -- unfold occ. cbn [skipn].
             change ("."%char :: str "reshape(" ++ t3) with (reshape_pivot ++ t3).
             apply starts_with_app.
          -- cbn [Nat.add].
             change ("."%char :: str "reshape(" ++ t3) with (reshape_pivot ++ t3).
             rewrite skipn_app_length.
             rewrite rename_reshape_tail.
             change ("."%char :: str "reshape(" ++ rename t3)
               with (reshape_pivot ++ rename t3).
             now rewrite skipn_app_length.
        * cbn [skipn] in Ho.
          destruct (IH t j' ltac:(cbn in Hn; lia) Ho) as (p & j & Hp & Hoj & Hs).
          exists p, (S j). split; [exact Hp|]. split; [exact Hoj|].
          cbn [Nat.add skipn]. exact Hs. }
  intros j'. now apply (G (length t)).
Qed.

Lemma all_marked_rename (t : text) :
  all_marked view_pivot t -> all_marked reshape_pivot t ->
  all_marked reshape_pivot (rename t).
Proof.
  intros Hv Hr j' Ho.
  destruct (occ_rename t j' Ho) as (p & j & [->| ->] & Hoj & ->);
    apply marked_suffix_rename; [now apply Hv|now apply Hr].
Qed.

(** *** The patcher run again *)

Lemma closed_is_closed_suffix (r : text) : closed r -> closed_suffix r.
Proof.
  intros [k Hk]. destruct (first_zero_run r k Hk) as (body & y & E & _ & Hr).
  now exists body, y.
Qed.

Lemma well_closed_all_closed (s prefix : text) :
  In prefix prefixes -> well_closed s -> all_closed (pivot_of prefix) s.
Proof.
  intros Hin H j Ho. apply closed_is_closed_suffix. now apply H.
Qed.

(** One turn of the loop over the target names, on a text whose calls of
    the name are closed. *)
Lemma patch_prefix_marks (prefix : text) (Keep : text -> Prop) (st : state) :
  In prefix prefixes ->
  (forall x z, Keep (x ++ ")"%char :: z) -> Keep (x ++ ")"%char :: insert ++ z)) ->
  all_closed (pivot_of prefix) (st_text st) ->
  Keep (st_text st) ->
  exists st',
    patch_prefix prefix st = Ok st' /\
    all_marked (pivot_of prefix) (st_text st') /\ Keep (st_text st').
Proof.
  intros Hin HK Hc Hk.
  destruct (prefix_shape prefix Hin) as (w & Hw & Hd & Hcl & Hm1 & _).
  unfold patch_prefix. cbn zeta. cbn [st_text st_k st_rep]. rewrite Hw in *.
  apply (for_range_marks w Hd Hcl Hm1 Keep HK
           (count (st_text st) ("."%char :: w)) [] (st_text st) (st_k st) (st_rep st));
    try assumption; [reflexivity|].
  intros j _ Hj. cbn in Hj. lia.
Qed.

Lemma patch_prefix_marked_same (prefix : text) (st : state) :
  all_marked (pivot_of prefix) (st_text st) ->
  exists sub' k',
    patch_prefix prefix st = Ok (mkState (st_text st) sub' k' (st_rep st)).
Proof.
  intros Hm. unfold patch_prefix. cbn zeta. cbn [st_text st_k st_rep].
  exact (for_range_marked_same (prefix ++ str "(")
           (count (st_text st) (pivot_of prefix)) [] (st_text st)
           (st_k st) (st_rep st) eq_refl Hm).
Qed.

Lemma reshape_no_close : ~ In ")"%char (str "reshape(").
Proof. apply no_char_in. reflexivity. Qed.

Lemma view_tail_no_close : ~ In ")"%char (str "view(").
Proof. apply no_char_in. reflexivity. Qed.

Lemma patch_body_marked (s : text) (k : option nat) :
  find view_pivot s = None ->
  all_marked reshape_pivot s ->
  exists sub' k', patch_body k s = Ok (mkState s sub' k' false).
Proof.
  intros Hf Hm. unfold patch_body. cbn [prefixes for_prefixes].
  assert (Hv : patch_prefix (str "view") (mkState s 0 k false)
               = Ok (mkState s 0 k false)).
  { unfold patch_prefix. cbn zeta. cbn [st_text st_k st_rep].
    change (pivot_of (str "view")) with view_pivot.
    now rewrite (count_none s view_pivot Hf ltac:(discriminate)). }
  rewrite Hv. cbn [bind].
  destruct (patch_prefix_marked_same (str "reshape") (mkState s 0 k false) Hm)
    as (sub' & k' & Hr).
  rewrite Hr. cbn [bind st_text st_subject st_k st_rep].
  exists sub', k'.
  change (Ok (mkState (rename s) sub' k' false) = Ok (mkState s sub' k' false)).
  now rewrite (rename_none s Hf).
Qed.

(** C2, as the code has it. On a text in which every call of a target
    name is closed the patcher returns a text, and run on that text again,
    whatever [k] was left, it returns the same text and inserts no marker
    ([rep] stays false). *)
Theorem patch_again_changes_nothing (s : text) (k0 : option nat) :
  well_closed s ->
  exists s',
    patch_text k0 s = Ok s' /\
    forall k,
      patch_text k s' = Ok s' /\
      exists st, patch_body k s' = Ok st /\ st_text st = s' /\ st_rep st = false.
Proof.
  intros H.
  destruct (patch_prefix_marks (str "view") (all_closed reshape_pivot)
              (mkState s 0 k0 false))
    as (st1 & H1 & Hm1 & Hk1).
  { left; reflexivity. }
  { apply (all_closed_insert (str "reshape(") reshape_no_close). reflexivity. }
  { apply well_closed_all_closed; [left; reflexivity|exact H]. }
  { apply (well_closed_all_closed s (str "reshape"));
      [right; left; reflexivity|exact H]. }
  destruct (patch_prefix_marks (str "reshape") (all_marked view_pivot) st1)
    as (st2 & H2 & Hm2 & Hk2).
  { right; left; reflexivity. }
  { apply (all_marked_insert (str "view(") view_tail_no_close). reflexivity. }
  { exact Hk1. }
  { exact Hm1. }
  exists (rename (st_text st2)).
  assert (Hfirst : patch_body k0 s
                   = Ok (mkState (rename (st_text st2)) (st_subject st2)
                                 (st_k st2) (st_rep st2))).
  { unfold patch_body. cbn [prefixes for_prefixes]. rewrite H1. cbn [bind].
    rewrite H2. reflexivity. }
  split.
  - unfold patch_text. now rewrite Hfirst.
  - intros k.
    destruct (patch_body_marked (rename (st_text st2)) k) as (sub' & k' & Hsecond).
    { apply (find_replace_none (st_text st2) 0). }
    { now apply all_marked_rename. }
    split.
    + unfold patch_text. now rewrite Hsecond.
    + eexists. split; [exact Hsecond|]. split; reflexivity.
Qed.

Ltac past_the_end H :=
  cbn in H; rewrite skipn_nil in H; discriminate H.

Lemma patch_again_changes_nothing_witness :
  well_closed (str "x.view(1)") /\
  patch_text None (str "x.view(1)") = Ok (str "x.reshape(1).contiguous()") /\
  patch_text (Some 1) (str "x.reshape(1).contiguous()")
  = Ok (str "x.reshape(1).contiguous()").
Proof.
  assert (Hw : well_closed (str "x.view(1)")).
  { intros prefix j [<-|[<-|[]]] Ho.
    - destruct j as [|j]; [discriminate Ho|].
      destruct j as [|j].
      + exists 1. split; [cbn; lia|]. split; [reflexivity|].
        intros i Hi. destruct i as [|i]; [discriminate|lia].
      + do 7 (destruct j as [|j]; [discriminate Ho|]). past_the_end Ho.
    - do 9 (destruct j as [|j]; [discriminate Ho|]). past_the_end Ho. }
  destruct (patch_again_changes_nothing (str "x.view(1)") None Hw)
    as (s' & H1 & H2).
  split; [exact Hw|].
  assert (E : s' = str "x.reshape(1).contiguous()").
  { assert (C : patch_text None (str "x.view(1)")
                = Ok (str "x.reshape(1).contiguous()")) by reflexivity.
    rewrite C in H1. now injection H1 as <-. }
  subst s'. split; [exact H1|].
  exact (proj1 (H2 (Some 1))).
Defined.

(** C2, the claim as stated fails: the call is not closed, and each run
    appends one more marker. *)
Lemma unclosed_call_marked_again :
  patch_body None (str "x.view(a")
  = Ok (mkState (str "x.reshape(a.contiguous()") 0 (Some 0) true) /\
  patch_text (Some 0) (str "x.reshape(a.contiguous()")
  = Ok (str "x.reshape(a.contiguous().contiguous()") /\
  str "x.reshape(a.contiguous().contiguous()" <> str "x.reshape(a.contiguous()".
Proof. split; [reflexivity|]. split; [reflexivity|discriminate]. Qed.

End ConvertTpuSpec.

(** ** The writer facade *)

Module WriterSpec.
Import Py Writer.
Local Open Scope py_scope.

Lemma close_all_trace (fws : list file_writer) :
  forall w,
    fold_left (fun w writer => fw_close writer (fw_flush writer w)) fws w
    = mkEnv (trace w ++ flat_map flush_and_close fws) (next_id w) (dirs w).
Proof.
  induction fws as [|fw fws IH]; intros w.
  - simpl. rewrite app_nil_r. now destruct w.
  - simpl fold_left. rewrite IH.
    destruct fw as [d|id d]; simpl; [reflexivity|].
    now rewrite <- !app_assoc.
Qed.

(** Whether the file writer is there or can be made does not depend on
    what was written so far. *)
Lemma get_file_writer_emit (self self' : SummaryWriter) (w w' : env)
      (fw : file_writer) (e : effect) :
  _get_file_writer self w = (Ok fw, self', w') ->
  exists w'', _get_file_writer self (emit e w) = (Ok fw, self', w'').
Proof.
  unfold _get_file_writer.
  destruct (negb (_write_to_disk self)).
  - intros [= <- <- <-]. eexists. reflexivity.
  - destruct (all_writers self) as [ws|], (sw_file_writer self) as [f|];
      try (intros [= <- <- <-]; eexists; reflexivity);
      (destruct (dict_get (kwargs self) (str "purge_step")) as [step|];
       unfold new_FileWriter; cbn [kwargs set_kwargs];
       [destruct (dict_pop (kwargs self) (str "purge_step"))
       |destruct (kwargs self)];
       cbn; intros [= <- <- <-]; eexists; reflexivity).
Qed.

(** C8, as the code has it. Bucket limits and bucket counts of different
    lengths make [add_histogram_raw] raise [ValueError] before anything
    is done. Labels whose number differs from the number of data points
    make [add_embedding] fail its assertion, once the file writer is
    there and the save directory was asked for. Labels whose number
    differs from the number of boxes do not make [add_image_with_boxes]
    raise: it logs a warning and goes on as the call without labels. *)
Theorem shape_preconditions
        (self : SummaryWriter) (w : env)
        (bucket_limits bucket_counts : list Z)
        (mat : ndarray) (metadata : list text) (n : nat)
        (fw : file_writer) (self' : SummaryWriter) (w' : env)
        (box : ndarray) (labels : list text) (m : nat) :
  length bucket_limits <> length bucket_counts ->
  shape_at mat 0 = Ok n -> n <> length metadata ->
  _get_file_writer self w = (Ok fw, self', w') ->
  shape_at box 0 = Ok m -> length labels <> m ->
  (forall tag min max num sum sum_squares global_step walltime,
      add_histogram_raw tag min max num sum sum_squares
                        bucket_limits bucket_counts global_step walltime self w
      = (Raise ValueError, self, w)) /\
  (forall label_img global_step tag,
      add_embedding mat (Some metadata) label_img global_step tag self w
      = (Raise AssertionError, self',
         snd (makedirs_or_warn (embedding_path fw global_step tag) self' w'))) /\
  (forall tag img global_step walltime dataformats,
      add_image_with_boxes tag (PArr img) (PArr box) global_step walltime
                           dataformats (LList labels) self w
      = add_image_with_boxes tag (PArr img) (PArr box) global_step walltime
                             dataformats LNone self
                             (emit (Warning labels_warning) w) /\
      fst (fst (add_image_with_boxes tag (PArr img) (PArr box) global_step
                                     walltime dataformats (LList labels) self w))
      = Ok tt).
Proof.
  intros Hlen Hn Hmd Hfw Hm Hlab. repeat split.
  - intros. unfold add_histogram_raw.
    apply Nat.eqb_neq in Hlen. now rewrite Hlen.
  - intros. unfold add_embedding, bindM at 1. rewrite Hfw.
    unfold bindM at 1. unfold makedirs_or_warn at 1, effectM at 1.
    unfold bindM at 1. unfold bindM at 1. unfold lift at 1. rewrite Hn.
    unfold bindM at 1. apply Nat.eqb_neq in Hmd. rewrite Hmd.
    reflexivity.
  - unfold add_image_with_boxes. cbn [fetch_if_blob].
    unfold bindM, ret. rewrite Hm. apply Nat.eqb_neq in Hlab. rewrite Hlab.
    cbn [negb]. reflexivity.
  - unfold add_image_with_boxes. cbn [fetch_if_blob].
    unfold bindM, ret. rewrite Hm. apply Nat.eqb_neq in Hlab. rewrite Hlab.
    cbn [negb].
    destruct (get_file_writer_emit _ _ _ _ _ (Warning labels_warning) Hfw)
      as (w'' & ->).
    reflexivity.
Qed.

Lemma shape_preconditions_witness :
  length [1%Z; 2%Z; 3%Z] <> length [4%Z; 5%Z] /\
  shape_at (mkArray [3; 5]) 0 = Ok 3 /\
  3 <> length [str "a"; str "b"] /\
  _get_file_writer idle_writer fresh_env
  = (Ok first_writer, open_writer, mkEnv [Open 0 (str "runs/exp1")] 1 []) /\
  shape_at (mkArray [2; 4]) 0 = Ok 2 /\
  length [str "cat"] <> 2 /\
  add_histogram_raw (str "h") 0 9 5 20 90 [1%Z; 2%Z; 3%Z] [4%Z; 5%Z] None None
                    idle_writer fresh_env
  = (Raise ValueError, idle_writer, fresh_env) /\
  add_embedding (mkArray [3; 5]) (Some [str "a"; str "b"]) None None (str "e")
                idle_writer fresh_env
  = (Raise AssertionError, open_writer,
     mkEnv [Open 0 (str "runs/exp1"); Makedirs (str "runs/exp1/00000/e")] 1
           [str "runs/exp1/00000/e"]) /\
  fst (fst (add_image_with_boxes (str "img") (PArr (mkArray [3; 8; 8]))
                                 (PArr (mkArray [2; 4])) None None (str "CHW")
                                 (LList [str "cat"]) idle_writer fresh_env))
  = Ok tt.
Proof.
  assert (H1 : length [1%Z; 2%Z; 3%Z] <> length [4%Z; 5%Z]) by (cbn; lia).
  assert (H3 : 3 <> length [str "a"; str "b"]) by (cbn; lia).
  assert (H6 : length [str "cat"] <> 2) by (cbn; lia).
  pose proof (shape_preconditions idle_writer fresh_env
                [1%Z; 2%Z; 3%Z] [4%Z; 5%Z]
                (mkArray [3; 5]) [str "a"; str "b"] 3
                first_writer open_writer (mkEnv [Open 0 (str "runs/exp1")] 1 [])
                (mkArray [2; 4]) [str "cat"] 2
                H1 eq_refl H3 eq_refl eq_refl H6) as (Ha & Hb & Hc).
  split; [exact H1|]. split; [reflexivity|]. split; [exact H3|].
  split; [reflexivity|]. split; [reflexivity|]. split; [exact H6|].
  split; [apply Ha|]. split.
  - exact (Hb None None (str "e")).
  - exact (proj2 (Hc (str "img") (mkArray [3; 8; 8]) None None (str "CHW"))).
Defined.

(** C8, the claim as stated fails: one label for two boxes, and
    [add_image_with_boxes] returns after a warning and the event of the
    image without labels. *)
Lemma mismatched_labels_do_not_raise :
  match init [] (Some (str "runs/exp1")) [] None 10 120 [] true None []
             fresh_env with
  | (Ok self, w) =>
      length [str "cat"] <> 2 /\
      add_image_with_boxes (str "img") (PArr (mkArray [3; 8; 8]))
                           (PArr (mkArray [2; 4])) None None (str "CHW")
                           (LList [str "cat"]) self w
      = (Ok tt, self,
         mkEnv [Open 0 (str "runs/exp1");
                Warning labels_warning;
                AddEvent 0 (Summary (image_boxes (str "img") (mkArray [3; 8; 8])
                                                 (mkArray [2; 4]) (str "CHW") None))
                         None None]
               1 [])
  | (Raise _, _) => False
  end.
Proof. cbn. split; [discriminate|reflexivity]. Qed.

(** C10. On a facade that was closed, [add_hparams] reads the file
    writer that [close] has dropped and raises [AttributeError], where
    [add_scalar], like the other recording operations, asks
    [_get_file_writer] for it and records into a new file writer. *)
Theorem add_hparams_after_close_raises
        (self : SummaryWriter) (w : env) (ws : list (text * file_writer))
        (now : text) (hparam_dict metric_dict : list (text * pyarg)) :
  all_writers self = Some ws ->
  let '(_, self1, w1) := close self w in
  add_hparams now (PDict hparam_dict) (PDict metric_dict) self1 w1
  = (Raise AttributeError, self1, w1) /\
  (_write_to_disk self = true -> kwargs self = [] ->
   forall tag v global_step walltime,
     let fw := FileWriter (next_id w1) (logdir self) in
     add_scalar tag (PArr v) global_step walltime self1 w1
     = (Ok tt, set_writers self1 (Some fw) (Some [(logdir self, fw)]),
        mkEnv (trace w1 ++ [Open (next_id w1) (logdir self);
                            AddEvent (next_id w1) (Summary (scalar tag (PArr v)))
                                     global_step walltime])
              (S (next_id w1)) (dirs w1))).
Proof.
  intros Hws. unfold close. rewrite Hws.
  generalize (fold_left (fun w0 writer => fw_close writer (fw_flush writer w0))
                        (values ws) w) as w1.
  intros w1. split.
  - reflexivity.
  - intros Hdisk Hkw tag v global_step walltime.
    unfold add_scalar, bindM, fetch_if_blob, ret, _get_file_writer.
    cbn [set_writers _write_to_disk all_writers sw_file_writer kwargs logdir].
    rewrite Hdisk, Hkw. cbn. unfold effectM, fw_add_summary, fw_add_event, emit.
    cbn. now rewrite <- app_assoc.
Qed.

Lemma add_hparams_after_close_raises_witness :
  all_writers open_writer = Some [(str "runs/exp1", first_writer)] /\
  add_hparams (str "1.5") (PDict [(str "lr", PArr (mkArray []))])
              (PDict [(str "acc", PArr (mkArray []))])
              idle_writer (mkEnv [Flush 0; Close 0] 1 [])
  = (Raise AttributeError, idle_writer, mkEnv [Flush 0; Close 0] 1 []).
Proof.
  split; [reflexivity|].
  exact (proj1 (add_hparams_after_close_raises open_writer (mkEnv [] 1 [])
                  [(str "runs/exp1", first_writer)] (str "1.5")
                  [(str "lr", PArr (mkArray []))]
                  [(str "acc", PArr (mkArray []))] eq_refl)).
Defined.

End WriterSpec.

(** ** More on the call-site patcher *)

Module ConvertTpuExtra.
Import Py ConvertTpu PyFacts ConvertTpuSpec.

(** *** What one turn of the loop does to the state *)

Lemma scan_loop_none (rest : text) :
  forall i cnt k0, fst (scan_loop rest i cnt k0) = None -> rest = [] /\ k0 = None.
Proof.
  induction rest as [|c rest IH]; intros i cnt k0; cbn [scan_loop fst].
  - now intros ->.
  - destruct (step_cnt c cnt =? 0)%Z; cbn [fst]; [discriminate|].
    intros H. destruct (IH _ _ _ H) as [_ E]. discriminate E.
Qed.

Lemma scan_loop_bound (rest : text) :
  forall i cnt k0 k,
    fst (scan_loop rest i cnt k0) = Some k -> rest <> [] -> i <= k < i + length rest.
Proof.
  induction rest as [|c rest IH]; intros i cnt k0 k H Hne; [contradiction|].
  cbn [scan_loop] in H. cbn [length].
  destruct (step_cnt c cnt =? 0)%Z; cbn [fst] in H.
  - injection H as <-. lia.
  - destruct rest as [|c' rest].
    + cbn in H. injection H as <-. lia.
    + specialize (IH _ _ _ _ H ltac:(discriminate)). cbn [length] in IH |- *. lia.
Qed.

Lemma length_splice (s ins : text) (i : nat) :
  length (splice s i ins) = length s + length ins.
Proof.
  unfold splice. rewrite !length_app, length_firstn, length_skipn. lia.
Qed.

Lemma firstn_splice (s ins : text) (i n : nat) :
  n <= i -> n <= length s -> firstn n (splice s i ins) = firstn n s.
Proof.
  intros H Hl. unfold splice.
  rewrite firstn_app, firstn_firstn.
  replace (Nat.min n i) with n by lia.
  replace (n - length (firstn i s)) with 0 by (rewrite length_firstn; lia).
  cbn [firstn]. apply app_nil_r.
Qed.

(** X1. A turn of the loop that returns has moved [subject] past the
    pivot it found, has bound [k], and has left the text up to the new
    [subject] as it was: the text is unchanged with [rep] as before, or it
    has the marker spliced in at an offset after the new [subject], with
    [rep] set. *)
Theorem loop_body_keeps_prefix (pivot : text) (st st' : state) :
  patch_call pivot st = Ok st' ->
  st_subject st + length pivot <= st_subject st' <= length (st_text st) /\
  firstn (st_subject st') (st_text st') = firstn (st_subject st') (st_text st) /\
  (exists k, st_k st' = Some k) /\
  ((st_text st' = st_text st /\ st_rep st' = st_rep st) \/
   (exists i, st_subject st' < i /\
              st_text st' = splice (st_text st) i insert /\
              st_rep st' = true)).
Proof.
  intros H.
  destruct (index (st_text st) pivot (st_subject st)) as [p|e] eqn:Hi.
  2:{ unfold patch_call in H. rewrite Hi in H. discriminate H. }
  rewrite (patch_call_located _ _ _ Hi) in H.
  destruct (index_occurrence _ _ _ _ Hi) as (Hsp & Hpl & r & Hr).
  assert (Hlen : p + length pivot <= length (st_text st)).
  { apply (f_equal (@length ascii)) in Hr.
    rewrite length_skipn, length_app in Hr. lia. }
  destruct (fst (scan _ (st_k st))) as [k|]; [|discriminate H].
  injection H as <-. unfold after_call.
  destruct (starts_with insert _); cbn [st_subject st_text st_k st_rep].
  - repeat split; try lia; [now exists k|now left].
  - repeat split; try lia.
    + apply firstn_splice; lia.
    + now exists k.
    + right. exists (p + length pivot + k + 1). repeat split. lia.
Qed.

Lemma loop_body_keeps_prefix_witness :
  let st := mkState (str "a.view(b).sum()") 0 None false in
  let st' := mkState (str "a.view(b).contiguous().sum()") 7 (Some 1) true in
  patch_call view_pivot st = Ok st' /\
  firstn 7 (st_text st') = firstn 7 (st_text st).
Proof.
  intros st st'. split; [reflexivity|].
  exact (proj1 (proj2 (loop_body_keeps_prefix view_pivot st st' eq_refl))).
Defined.

Lemma patch_call_raises (pivot : text) (st : state) (e : exn) :
  patch_call pivot st = Raise e ->
  (e = ValueError /\
   (length (st_text st) < st_subject st \/
    find pivot (skipn (st_subject st) (st_text st)) = None)) \/
  (e = NameError /\ st_k st = None /\
   exists p, index (st_text st) pivot (st_subject st) = Ok p /\
             p + length pivot = length (st_text st)).
Proof.
  intros H.
  destruct (index (st_text st) pivot (st_subject st)) as [p|e'] eqn:Hi.
  - right. rewrite (patch_call_located _ _ _ Hi) in H.
    destruct (fst (scan _ (st_k st))) as [k|] eqn:Hs; [discriminate H|].
    injection H as <-. unfold scan in Hs.
    destruct (scan_loop_none _ _ _ _ Hs) as [Hrest Hk].
    split; [reflexivity|]. split; [exact Hk|]. exists p. split; [reflexivity|].
    destruct (index_occurrence _ _ _ _ Hi) as (_ & Hpl & r & Hr).
    apply (f_equal (@length ascii)) in Hr, Hrest.
    rewrite length_skipn in Hr, Hrest. rewrite length_app in Hr.
    cbn [length] in Hrest. lia.
  - left. unfold patch_call in H. rewrite Hi in H. cbn [bind] in H.
    injection H as <-. split; [exact (index_raises _ _ _ _ Hi)|].
    unfold index in Hi.
    destruct (length (st_text st) <? st_subject st) eqn:L.
    + left. now apply Nat.ltb_lt.
    + right. now destruct (find pivot (skipn (st_subject st) (st_text st))).
Qed.

(** X2. A turn of the loop raises in two cases only: [ValueError] when no
    pivot is left from [subject] on, and [NameError] when the text ends
    with the pivot it found and [k] is not bound. *)
Theorem loop_body_errors (pivot : text) (st : state) (e : exn) :
  patch_call pivot st = Raise e ->
  (e = ValueError /\
   (length (st_text st) < st_subject st \/
    find pivot (skipn (st_subject st) (st_text st)) = None)) \/
  (e = NameError /\ st_k st = None /\
   exists p, index (st_text st) pivot (st_subject st) = Ok p /\
             p + length pivot = length (st_text st)).
Proof. exact (patch_call_raises pivot st e). Qed.

Lemma loop_body_errors_witness :
  patch_call view_pivot (mkState (str "x.view(") 0 None false) = Raise NameError /\
  exists p, index (str "x.view(") view_pivot 0 = Ok p /\ p + 6 = 7.
Proof.
  split; [reflexivity|].
  destruct (loop_body_errors view_pivot (mkState (str "x.view(") 0 None false)
              NameError eq_refl) as [[H _]|(_ & _ & H)]; [discriminate H|exact H].
Defined.

(** *** Where the marker goes *)

Lemma scan_loop_stop (rest : text) :
  forall i cnt k0 k,
    (0 < cnt)%Z ->
    fst (scan_loop rest i cnt k0) = Some k -> rest <> [] ->
    i <= k < i + length rest /\
    (nth_error rest (k - i) = Some ")"%char \/ k = i + length rest - 1).
Proof.
  induction rest as [|c rest IH]; intros i cnt k0 k Hp H Hne; [contradiction|].
  cbn [scan_loop] in H. cbn [length].
  destruct (step_cnt c cnt =? 0)%Z eqn:E; cbn [fst] in H.
  - injection H as <-. split; [lia|]. left. rewrite Nat.sub_diag. cbn.
    apply Z.eqb_eq in E.
    destruct (step_cnt_cases c cnt) as [[_ Hs]|[[-> _]|(_ & _ & Hs)]];
      try reflexivity; lia.
  - apply Z.eqb_neq in E.
    assert (Hp' : (0 < step_cnt c cnt)%Z).
    { destruct (step_cnt_cases c cnt) as [[_ Hs]|[[_ Hs]|(_ & _ & Hs)]]; lia. }
    destruct rest as [|c' rest].
    + cbn in H. injection H as <-. cbn [length]. split; [lia|]. right. lia.
    + destruct (IH _ _ _ _ Hp' H ltac:(discriminate)) as (Hb & Hc).
      cbn [length] in Hb, Hc |- *. split; [lia|].
      destruct Hc as [Hc|Hc]; [left|right; lia].
      replace (k - i) with (S (k - S i)) by lia. exact Hc.
Qed.

(** The shape of the text after a turn of the loop: the marker goes right
    after a closing parenthesis that is not before the new [subject], or
    at the end of the text. *)
Lemma patch_call_shape (pivot : text) (st st' : state) :
  patch_call pivot st = Ok st' ->
  st_subject st' <= length (st_text st) /\
  (exists p, index (st_text st) pivot (st_subject st) = Ok p /\
             st_subject st' = p + length pivot) /\
  st_k st' <> None /\
  ((st_text st' = st_text st /\ st_rep st' = st_rep st) \/
   (st_rep st' = true /\
    ((exists a y, st_text st = a ++ ")"%char :: y /\
                  st_subject st' <= length a /\
                  st_text st' = a ++ ")"%char :: insert ++ y) \/
     st_text st' = st_text st ++ insert))).
Proof.
  intros H.
  destruct (index (st_text st) pivot (st_subject st)) as [p|e] eqn:Hi.
  2:{ unfold patch_call in H. rewrite Hi in H. discriminate H. }
  rewrite (patch_call_located _ _ _ Hi) in H.
  destruct (index_occurrence _ _ _ _ Hi) as (Hsp & Hpl & r & Hr).
  assert (Hlen : p + length pivot <= length (st_text st)).
  { apply (f_equal (@length ascii)) in Hr.
    rewrite length_skipn, length_app in Hr. lia. }
  destruct (fst (scan _ (st_k st))) as [k|] eqn:Hs; [|discriminate H].
  injection H as <-. unfold after_call.
  destruct (starts_with insert _); cbn [st_subject st_text st_k st_rep].
  { split; [exact Hlen|]. split; [now exists p|]. split; [discriminate|now left]. }
  split; [exact Hlen|]. split; [now exists p|]. split; [discriminate|].
  right. split; [reflexivity|].
  set (sub := p + length pivot) in *.
  destruct (skipn sub (st_text st)) as [|c rest] eqn:Hrest.
  - right. apply splice_past_end.
    apply (f_equal (@length ascii)) in Hrest. rewrite length_skipn in Hrest.
    cbn in Hrest. lia.
  - rewrite <- Hrest in Hs. unfold scan in Hs.
    assert (Hne : skipn sub (st_text st) <> []) by (rewrite Hrest; discriminate).
    destruct (scan_loop_stop _ 0 1%Z _ _ ltac:(lia) Hs Hne) as (Hb & Hc).
    rewrite length_skipn in Hb, Hc. rewrite Nat.sub_0_r in Hc.
    destruct Hc as [Hc|Hc].
    + left. rewrite nth_error_skipn in Hc.
      destruct (nth_error_split _ _ Hc) as (a & y & Ht & Ha).
      exists a, y. split; [exact Ht|]. split; [lia|].
      replace (sub + k + 1) with (length (a ++ [")"%char]))
        by (rewrite length_app; cbn; lia).
      rewrite Ht.
      replace (a ++ ")"%char :: y) with ((a ++ [")"%char]) ++ y)
        by (rewrite <- app_assoc; reflexivity).
      rewrite splice_app, <- app_assoc. reflexivity.
    + right. apply splice_past_end. lia.
Qed.

(** The growth of the text over the turns of a loop, and [rep]. *)
Lemma for_range_growth (pivot : text) (n : nat) :
  forall st st',
    for_range n (patch_call pivot) st = Ok st' ->
    exists m,
      m <= n /\
      length (st_text st') = length (st_text st) + m * length insert /\
      st_rep st' = st_rep st || negb (m =? 0).
Proof.
  induction n as [|n IH]; intros st st' H.
  - injection H as <-. exists 0. split; [lia|]. split; [lia|].
    now rewrite orb_false_r.
  - cbn [for_range] in H.
    destruct (patch_call pivot st) as [st1|e] eqn:H1; [|discriminate H].
    cbn [bind] in H. destruct (IH _ _ H) as (m & Hm & Hl & Hr).
    destruct (patch_call_shape _ _ _ H1) as (_ & _ & _ & [[Ht Hp]|[Hp Ht]]).
    + exists m. rewrite Hl, Hr, Ht, Hp. split; [lia|]. split; reflexivity.
    + exists (S m). split; [lia|]. split.
      * rewrite Hl.
        destruct Ht as [(a & y & E & _ & ->)| ->]; [rewrite E|];
          rewrite !length_app; cbn [length]; rewrite ?length_app; lia.
      * rewrite Hr, Hp. cbn. now rewrite orb_true_r.
Qed.

(** *** The calls are kept *)

Section Shaped.

Variable w : text.
Hypothesis w_no_dot : ~ In "."%char w.
Hypothesis w_no_close : ~ In ")"%char w.
Hypothesis w_not_marker : forall z, starts_with ("."%char :: w) (insert ++ z) = false.

Let pivot : text := "."%char :: w.

Lemma find_in_marker : find pivot insert = None.
Proof.
  pose proof (find_pivot_marker w w_not_marker []) as H.
  rewrite app_nil_r in H. exact H.
Qed.

(** The marker at the end of a text adds no call. *)
Lemma count_app_marker (x : text) :
  count (x ++ insert) pivot = count x pivot.
Proof.
  assert (G : forall n x, length x <= n ->
                          count (x ++ insert) pivot = count x pivot).
  { clear x. induction n as [|n IH]; intros x Hn;
      rewrite (count_unfold (x ++ insert) pivot (pivot_not_nil w)),
              (count_unfold x pivot (pivot_not_nil w));
      change (x ++ insert) with (x ++ "."%char :: str "contiguous()");
      unfold pivot;
      rewrite (find_app_lead "."%char w w_no_dot x (str "contiguous()"));
      change ("."%char :: str "contiguous()") with insert;
      fold pivot; rewrite find_in_marker;
      destruct (find pivot x) as [j|] eqn:F; try reflexivity.
    - apply find_length in F. cbn [pivot length] in F. lia.
    - f_equal. pose proof (find_length _ _ _ F) as Hl.
      rewrite skipn_app.
      replace (j + length pivot - length x) with 0 by lia. cbn [skipn].
      apply IH. rewrite length_skipn. cbn [pivot length] in *. lia. }
  now apply (G (length x)).
Qed.

(** A turn of the loop for any pivot keeps the number of calls of the
    pivot [. w]. *)
Lemma patch_call_count (p : text) (st st' : state) :
  patch_call p st = Ok st' ->
  count (st_text st') pivot = count (st_text st) pivot.
Proof.
  intros H.
  destruct (patch_call_shape _ _ _ H)
    as (_ & _ & _ & [[-> _]|[_ [(a & y & -> & _ & ->)| ->]]]).
  - reflexivity.
  - apply (count_insert w w_no_close w_not_marker).
  - apply count_app_marker.
Qed.

Lemma for_range_count (p : text) (n : nat) :
  forall st st',
    for_range n (patch_call p) st = Ok st' ->
    count (st_text st') pivot = count (st_text st) pivot.
Proof.
  induction n as [|n IH]; intros st st' H.
  - now injection H as <-.
  - cbn [for_range] in H.
    destruct (patch_call p st) as [st1|e] eqn:H1; [|discriminate H].
    cbn [bind] in H. rewrite (IH _ _ H). exact (patch_call_count p _ _ H1).
Qed.

(** The loop over the calls of the pivot finds a call at every turn: it
    returns, unless [k] is unbound and the text ends with a call. *)
Lemma for_range_total (n : nat) :
  forall (t : text) (sub : nat) (k : option nat) (rep : bool),
    sub <= length t ->
    count (skipn sub t) pivot = n ->
    match for_range n (patch_call pivot) (mkState t sub k rep) with
    | Ok st' => k <> None -> st_k st' <> None
    | Raise e => e = NameError /\ k = None
    end.
Proof.
  induction n as [|n IH]; intros t sub k rep Hsub Hn.
  - cbn. auto.
  - rewrite (count_unfold _ pivot (pivot_not_nil w)) in Hn.
    destruct (find pivot (skipn sub t)) as [j|] eqn:F; [|discriminate Hn].
    apply Nat.succ_inj in Hn. rewrite skipn_skipn in Hn.
    pose proof (index_find t pivot sub j Hsub F) as Hi.
    cbn [for_range].
    destruct (patch_call pivot (mkState t sub k rep)) as [st1|e] eqn:H1.
    + cbn [bind].
      destruct (patch_call_shape _ _ _ H1) as (Hl & (p' & Hi' & Hs1) & Hk1 & Ht).
      cbn [st_text st_subject st_rep] in Hl, Hi', Ht.
      rewrite Hi in Hi'. injection Hi' as <-.
      destruct st1 as [t1 sub1 k1 rep1]. cbn [st_text st_subject st_k st_rep] in *.
      subst sub1.
      assert (Hc : count (skipn (sub + j + length pivot) t1) pivot = n).
      { rewrite <- Hn.
        replace (j + length pivot + sub) with (sub + j + length pivot) by lia.
        destruct Ht as [[-> _]|[_ [(a & y & -> & Ha & ->)| ->]]].
        - reflexivity.
        - rewrite !skipn_app.
          replace (sub + j + length pivot - length a) with 0 by lia.
          cbn [skipn]. apply (count_insert w w_no_close w_not_marker).
        - rewrite skipn_app.
          replace (sub + j + length pivot - length t) with 0 by lia.
          cbn [skipn]. apply count_app_marker. }
      assert (Hl1 : sub + j + length pivot <= length t1).
      { destruct Ht as [[-> _]|[_ [(a & y & E & Ha & ->)| ->]]];
          rewrite ?E in *; rewrite ?length_app in *; cbn [length] in *;
          rewrite ?length_app; lia. }
      specialize (IH t1 (sub + j + length pivot) k1 rep1 Hl1 Hc).
      destruct (for_range n (patch_call pivot) _) as [st'|e].
      * intros _. now apply IH.
      * destruct IH as [_ E]. contradiction.
    + cbn [bind].
      destruct (patch_call_raises _ _ _ H1) as [(_ & [L|N])|(-> & Hk & _)].
      * cbn [st_text st_subject] in L. lia.
      * cbn [st_text st_subject] in N. rewrite F in N. discriminate N.
      * now split.
Qed.

End Shaped.

(** *** The whole run *)

Lemma view_no_dot : ~ In "."%char (str "view(").
Proof. apply no_char_in. reflexivity. Qed.

Lemma patch_prefix_total (prefix : text) (st : state) :
  In prefix prefixes ->
  match patch_prefix prefix st with
  | Ok st' => st_k st <> None -> st_k st' <> None
  | Raise e => e = NameError /\ st_k st = None
  end.
Proof.
  intros Hin.
  destruct (prefix_shape prefix Hin) as (w & Hw & Hd & Hc & Hm & _).
  unfold patch_prefix. cbn zeta. cbn [st_text st_k st_rep]. rewrite Hw.
  apply (for_range_total w Hd Hc Hm); [lia|reflexivity].
Qed.

Lemma patch_body_raises (k0 : option nat) (s : text) (e : exn) :
  patch_body k0 s = Raise e -> e = NameError /\ k0 = None.
Proof.
  unfold patch_body. cbn [prefixes for_prefixes].
  pose proof (patch_prefix_total (str "view") (mkState s 0 k0 false)
                ltac:(left; reflexivity)) as H1.
  destruct (patch_prefix (str "view") _) as [st1|e1]; cbn [bind].
  - pose proof (patch_prefix_total (str "reshape") st1
                  ltac:(right; left; reflexivity)) as H2.
    destruct (patch_prefix (str "reshape") st1) as [st2|e2]; cbn [bind].
    + discriminate.
    + intros [= <-]. destruct H2 as [-> H2]. split; [reflexivity|].
      cbn [st_k] in H1. destruct k0 as [k|]; [|reflexivity].
      exfalso. apply H1; [discriminate|exact H2].
  - intros [= <-]. exact H1.
Qed.

(** X3. The patcher raises nothing but [NameError], and that only when
    [k] is unbound: with [k] bound by an earlier scan it returns a text
    for every input. *)
Theorem patcher_raises_only_name_error (k0 : option nat) (s : text) :
  match patch_text k0 s with
  | Ok _ => True
  | Raise e => e = NameError /\ k0 = None
  end.
Proof.
  unfold patch_text.
  destruct (patch_body k0 s) as [st|e] eqn:E; cbn [bind]; [exact I|].
  exact (patch_body_raises k0 s e E).
Qed.

Lemma for_prefixes_two (st : state) :
  for_prefixes prefixes st
  = bind (patch_prefix (str "view") st) (fun st1 =>
    bind (patch_prefix (str "reshape") st1) (fun st2 => Ok st2)).
Proof. reflexivity. Qed.

(** What the two loops leave, on any text on which they return. *)
Lemma loops_inv (k0 : option nat) (s : text) (mid : state) :
  for_prefixes prefixes (mkState s 0 k0 false) = Ok mid ->
  exists st1,
    patch_prefix (str "view") (mkState s 0 k0 false) = Ok st1 /\
    patch_prefix (str "reshape") st1 = Ok mid.
Proof.
  rewrite for_prefixes_two.
  destruct (patch_prefix (str "view") _) as [st1|e]; [|discriminate].
  cbn [bind]. destruct (patch_prefix (str "reshape") st1) as [st2|e] eqn:E;
    [|discriminate].
  cbn [bind]. intros [= <-]. now exists st1.
Qed.

Lemma patch_prefix_count (prefix p : text) (st st' : state) :
  In p prefixes ->
  patch_prefix prefix st = Ok st' ->
  count (st_text st') (pivot_of p) = count (st_text st) (pivot_of p).
Proof.
  intros Hin H.
  destruct (prefix_shape p Hin) as (w & Hw & Hd & Hc & Hm & _). rewrite Hw.
  unfold patch_prefix in H. cbn zeta in H.
  exact (for_range_count w Hd Hc Hm _ _ _ _ H).
Qed.

Lemma patch_prefix_growth (prefix : text) (st st' : state) :
  patch_prefix prefix st = Ok st' ->
  exists m,
    m <= count (st_text st) (pivot_of prefix) /\
    length (st_text st') = length (st_text st) + m * length insert /\
    st_rep st' = st_rep st || negb (m =? 0).
Proof.
  unfold patch_prefix. cbn zeta. intros H.
  exact (for_range_growth _ _ _ _ H).
Qed.

(** *** The final replacement *)

Lemma count_head (s p : text) :
  p <> [] ->
  count s p = if starts_with p s
              then S (count (skipn (length p) s) p)
              else match s with
                   | [] => 0
                   | _ :: s' => count s' p
                   end.
Proof.
  intros Hne. rewrite (count_unfold s p Hne).
  destruct s as [|c s].
  - cbn [find]. now rewrite (starts_with_nil_r p Hne).
  - rewrite find_cons. destruct (starts_with p (c :: s)); [reflexivity|].
    rewrite (count_unfold s p Hne).
    destruct (find p s) as [j|]; reflexivity.
Qed.

Lemma count_cons_other (p : text) (c : ascii) (s : text) :
  p <> [] -> starts_with p (c :: s) = false -> count (c :: s) p = count s p.
Proof. intros Hne H. now rewrite (count_head (c :: s) p Hne), H. Qed.

Lemma count_here (p z : text) :
  p <> [] -> count (p ++ z) p = S (count z p).
Proof.
  intros Hne. now rewrite (count_head _ p Hne), starts_with_app, skipn_app_length.
Qed.

Lemma count_reshape_after_view (z : text) :
  count (view_pivot ++ z) reshape_pivot = count z reshape_pivot.
Proof.
  cbn [view_pivot pivot_of str list_ascii_of_string app].
  do 6 (rewrite count_cons_other; [|discriminate|reflexivity]). reflexivity.
Qed.

Lemma count_view_after_reshape (z : text) :
  count (reshape_pivot ++ z) view_pivot = count z view_pivot.
Proof.
  cbn [reshape_pivot pivot_of str list_ascii_of_string app].
  do 9 (rewrite count_cons_other; [|discriminate|reflexivity]). reflexivity.
Qed.

(** The replacement makes the text longer by three characters for each
    call of [view]. *)
Lemma length_rename (t : text) :
  length (rename t) = length t + 3 * count t view_pivot.
Proof.
  assert (G : forall n t, length t <= n ->
                          length (rename t) = length t + 3 * count t view_pivot).
  { clear t. induction n as [|n IH]; intros t Hn;
      rewrite rename_unfold, (count_head t view_pivot ltac:(discriminate));
      destruct (starts_with view_pivot t) eqn:V.
    - apply starts_with_length in V. cbn in V. lia.
    - destruct t; [reflexivity|cbn in Hn; lia].
    - destruct (starts_with_inv _ _ V) as [t2 ->].
      rewrite skipn_app_length, !length_app in *.
      rewrite IH by (cbn in Hn; lia). cbn [length view_pivot reshape_pivot
        pivot_of str list_ascii_of_string app]. lia.
    - destruct t as [|c t]; [reflexivity|]. cbn [length].
      rewrite IH by (cbn in Hn; lia). lia. }
  now apply (G (length t)).
Qed.

Lemma depth_rename (t : text) :
  forall cnt, depth cnt (rename t) = depth cnt t.
Proof.
  assert (G : forall n t cnt, length t <= n -> depth cnt (rename t) = depth cnt t).
  { clear t. induction n as [|n IH]; intros t cnt Hn;
      rewrite rename_unfold; destruct (starts_with view_pivot t) eqn:V.
    - apply starts_with_length in V. cbn in V. lia.
    - destruct t; [reflexivity|cbn in Hn; lia].
    - destruct (starts_with_inv _ _ V) as [t2 ->].
      rewrite skipn_app_length, !depth_app.
      rewrite length_app in Hn. rewrite IH by (cbn in Hn; lia). reflexivity.
    - destruct t as [|c t]; [reflexivity|].
      rewrite !depth_cons. apply IH. cbn in Hn. lia. }
  intros cnt. now apply (G (length t)).
Qed.

Lemma rename_nodot_app (x : text) :
  ~ In "."%char x -> forall z, rename (x ++ z) = x ++ rename z.
Proof.
  induction x as [|a x IH]; intros Hx z; [reflexivity|].
  cbn [app]. rewrite rename_unfold.
  change view_pivot with ("."%char :: str "view(").
  rewrite starts_with_cons.
  destruct (Ascii.eqb_spec "."%char a) as [<-|_].
  - exfalso. apply Hx. now left.
  - cbn [andb]. f_equal. apply IH. intros H. apply Hx. now right.
Qed.

Lemma starts_with_rename_nodot (x t : text) :
  ~ In "."%char x -> starts_with x (rename t) = starts_with x t.
Proof.
  intros Hx. destruct (starts_with x t) eqn:E.
  - destruct (starts_with_inv _ _ E) as [z ->].
    rewrite rename_nodot_app by exact Hx. apply starts_with_app.
  - destruct (starts_with x (rename t)) eqn:F; [|reflexivity].
    apply (starts_with_replace_nodot x Hx) in F. congruence.
Qed.

(** A call of [reshape] in the renamed text stands for a call of [view]
    or of [reshape]. *)
Lemma count_rename (t : text) :
  count (rename t) reshape_pivot = count t view_pivot + count t reshape_pivot.
Proof.
  assert (G : forall n t, length t <= n ->
                          count (rename t) reshape_pivot
                          = count t view_pivot + count t reshape_pivot).
  { clear t. induction n as [|n IH]; intros t Hn;
      rewrite rename_unfold; destruct (starts_with view_pivot t) eqn:V.
    - apply starts_with_length in V. cbn in V. lia.
    - destruct t; [reflexivity|cbn in Hn; lia].
    - destruct (starts_with_inv _ _ V) as [t2 ->].
      rewrite skipn_app_length, count_here, count_here,
              count_reshape_after_view by discriminate.
      rewrite length_app in Hn. rewrite IH by (cbn in Hn; lia). lia.
    - destruct t as [|c t]; [reflexivity|].
      rewrite (count_cons_other view_pivot c t ltac:(discriminate) V).
      rewrite (count_head (c :: rename t) reshape_pivot ltac:(discriminate)),
              (count_head (c :: t) reshape_pivot ltac:(discriminate)).
      assert (SW : forall u, starts_with reshape_pivot (c :: u)
                             = Ascii.eqb "."%char c && starts_with (str "reshape(") u).
      { intros u. change reshape_pivot with ("."%char :: str "reshape(").
        apply starts_with_cons. }
      rewrite !SW, (starts_with_rename_nodot (str "reshape(") t reshape_no_dot).
      destruct (Ascii.eqb "."%char c && starts_with (str "reshape(") t) eqn:R.
      + apply andb_true_iff in R as [_ R].
        destruct (starts_with_inv _ _ R) as [t3 ->].
        rewrite rename_reshape_tail.
        change (skipn (length reshape_pivot) (c :: str "reshape(" ++ rename t3))
          with (rename t3).
        change (skipn (length reshape_pivot) (c :: str "reshape(" ++ t3))
          with t3.
        rewrite IH by (cbn in Hn; lia).
        assert (E : count (str "reshape(" ++ t3) view_pivot = count t3 view_pivot).
        { cbn [str list_ascii_of_string app].
          do 8 (rewrite count_cons_other; [|discriminate|reflexivity]).
          reflexivity. }
        rewrite E. lia.
      + apply IH. cbn in Hn. lia. }
  now apply (G (length t)).
Qed.

(** *** What a run changes *)

Lemma patch_text_inv (k0 : option nat) (s s' : text) :
  patch_text k0 s = Ok s' ->
  exists st1 mid,
    patch_prefix (str "view") (mkState s 0 k0 false) = Ok st1 /\
    patch_prefix (str "reshape") st1 = Ok mid /\
    patch_body k0 s = Ok (mkState (rename (st_text mid)) (st_subject mid)
                                  (st_k mid) (st_rep mid)) /\
    s' = rename (st_text mid).
Proof.
  unfold patch_text. destruct (patch_body k0 s) as [st|e] eqn:Hb; [|discriminate].
  cbn [bind]. intros [= <-].
  destruct (patch_body_inv k0 s st Hb) as (mid & Hl & ->).
  destruct (loops_inv k0 s mid Hl) as (st1 & H1 & H2).
  exists st1, mid. repeat split; assumption.
Qed.

(** X4. A run inserts at most one marker for each call of a target name
    and nothing else but the three characters by which [.reshape(] is
    longer than [.view(]: the text returned is longer than the text given
    by [m] markers and three characters for each call of [view], and
    [rep] tells whether [m] is positive. *)
Theorem patched_length (k0 : option nat) (s : text) (st : state) :
  patch_body k0 s = Ok st ->
  exists m,
    m <= count s view_pivot + count s reshape_pivot /\
    length (st_text st)
    = length s + m * length insert + 3 * count s view_pivot /\
    st_rep st = negb (m =? 0).
Proof.
  intros Hb.
  destruct (patch_body_inv k0 s st Hb) as (mid & Hl & ->).
  destruct (loops_inv k0 s mid Hl) as (st1 & H1 & H2).
  destruct (patch_prefix_growth _ _ _ H1) as (m1 & Hm1 & Hl1 & Hr1).
  destruct (patch_prefix_growth _ _ _ H2) as (m2 & Hm2 & Hl2 & Hr2).
  pose proof (patch_prefix_count (str "view") (str "reshape") _ _
                ltac:(right; left; reflexivity) H1) as Hc1.
  pose proof (patch_prefix_count (str "view") (str "view") _ _
                ltac:(left; reflexivity) H1) as Hv1.
  pose proof (patch_prefix_count (str "reshape") (str "view") _ _
                ltac:(left; reflexivity) H2) as Hv2.
  cbn [st_text st_rep] in *.
  fold view_pivot in Hm1, Hv1, Hv2. fold reshape_pivot in Hm2, Hc1.
  exists (m1 + m2). split; [lia|]. split.
  - fold (rename (st_text mid)). rewrite length_rename, Hl2, Hl1, Hv2, Hv1. lia.
  - rewrite Hr2, Hr1. destruct m1, m2; reflexivity.
Qed.

Lemma patched_length_witness :
  exists m,
    m <= 2 + 0 /\
    length (str "a.reshape(b.reshape(2).contiguous()).contiguous()")
    = length (str "a.view(b.view(2)).contiguous()") + m * length insert + 3 * 2 /\
    true = negb (m =? 0).
Proof.
  exact (patched_length None (str "a.view(b.view(2)).contiguous()")
           (mkState (str "a.reshape(b.reshape(2).contiguous()).contiguous()")
                    0 (Some 1) true) eq_refl).
Defined.

Lemma depth_insert (cnt : Z) : depth cnt insert = cnt.
Proof. cbn. lia. Qed.

Lemma patch_call_depth (pivot : text) (st st' : state) :
  patch_call pivot st = Ok st' ->
  forall cnt, depth cnt (st_text st') = depth cnt (st_text st).
Proof.
  intros H cnt.
  destruct (patch_call_shape _ _ _ H) as (_ & _ & _ & [[-> _]|[_ Ht]]);
    [reflexivity|].
  destruct Ht as [(a & y & -> & _ & ->)| ->].
  - now rewrite !depth_app, !depth_cons, depth_app, depth_insert.
  - now rewrite depth_app, depth_insert.
Qed.

Lemma for_range_depth (pivot : text) (n : nat) :
  forall st st',
    for_range n (patch_call pivot) st = Ok st' ->
    forall cnt, depth cnt (st_text st') = depth cnt (st_text st).
Proof.
  induction n as [|n IH]; intros st st' H cnt.
  - now injection H as <-.
  - cbn [for_range] in H.
    destruct (patch_call pivot st) as [st1|e] eqn:H1; [|discriminate H].
    cbn [bind] in H. rewrite (IH _ _ H cnt). exact (patch_call_depth _ _ _ H1 cnt).
Qed.

(** X5. A run keeps the nesting of the parentheses: counted as the scan
    counts, from any start value, the text returned ends at the depth at
    which the text given ends. *)
Theorem patched_depth (k0 : option nat) (s s' : text) :
  patch_text k0 s = Ok s' ->
  forall cnt, depth cnt s' = depth cnt s.
Proof.
  intros H cnt.
  destruct (patch_text_inv k0 s s' H) as (st1 & mid & H1 & H2 & _ & ->).
  unfold patch_prefix in H1, H2. cbn zeta in H1, H2.
  rewrite depth_rename, (for_range_depth _ _ _ _ H2 cnt). cbn [st_text].
  rewrite (for_range_depth _ _ _ _ H1 cnt). reflexivity.
Qed.

Lemma patched_depth_witness :
  depth 0 (str "f(x.reshape(a, (b)).contiguous()")
  = depth 0 (str "f(x.view(a, (b))").
Proof.
  exact (patched_depth None (str "f(x.view(a, (b))")
           (str "f(x.reshape(a, (b)).contiguous()") eq_refl 0%Z).
Defined.

(** X6. A run loses no call and makes none: the calls of [reshape] in
    the text returned are as many as the calls of [view] and of [reshape]
    in the text given. *)
Theorem patched_calls (k0 : option nat) (s s' : text) :
  patch_text k0 s = Ok s' ->
  count s' reshape_pivot = count s view_pivot + count s reshape_pivot.
Proof.
  intros H.
  destruct (patch_text_inv k0 s s' H) as (st1 & mid & H1 & H2 & _ & ->).
  rewrite count_rename.
  pose proof (patch_prefix_count (str "view") (str "reshape") _ _
                ltac:(right; left; reflexivity) H1) as Hr1.
  pose proof (patch_prefix_count (str "view") (str "view") _ _
                ltac:(left; reflexivity) H1) as Hv1.
  pose proof (patch_prefix_count (str "reshape") (str "view") _ _
                ltac:(left; reflexivity) H2) as Hv2.
  pose proof (patch_prefix_count (str "reshape") (str "reshape") _ _
                ltac:(right; left; reflexivity) H2) as Hr2.
  cbn [st_text] in *.
  fold view_pivot in Hv1, Hv2. fold reshape_pivot in Hr1, Hr2.
  lia.
Qed.

Lemma patched_calls_witness :
  count (str "a.reshape(b.reshape(2).contiguous()).contiguous()") reshape_pivot
  = count (str "a.view(b.reshape(2))") view_pivot
    + count (str "a.view(b.reshape(2))") reshape_pivot.
Proof.
  exact (patched_calls None (str "a.view(b.reshape(2))")
           (str "a.reshape(b.reshape(2).contiguous()).contiguous()") eq_refl).
Defined.

Lemma patch_body_no_call (k0 : option nat) (s : text) :
  count s view_pivot = 0 ->
  count s reshape_pivot = 0 ->
  patch_body k0 s = Ok (mkState s 0 k0 false).
Proof.
  intros Hv Hr.
  unfold patch_body. cbn [prefixes for_prefixes].
  unfold patch_prefix at 1. cbn zeta. cbn [st_text st_k st_rep].
  fold view_pivot. rewrite Hv. cbn [for_range bind].
  unfold patch_prefix at 1. cbn zeta. cbn [st_text st_k st_rep].
  fold reshape_pivot. rewrite Hr. cbn [for_range bind].
  assert (F : find view_pivot s = None).
  { rewrite (count_unfold s view_pivot ltac:(discriminate)) in Hv.
    destruct (find view_pivot s); [discriminate Hv|reflexivity]. }
  change (Ok (mkState (rename s) 0 k0 false) = Ok (mkState s 0 k0 false)).
  now rewrite (rename_none s F).
Qed.

(** X7. A text with no call of a target name is returned as it is, with
    [rep] false and [k] as it was, also when [k] is unbound. *)
Theorem no_call_no_change (k0 : option nat) (s : text) :
  count s view_pivot = 0 ->
  count s reshape_pivot = 0 ->
  patch_body k0 s = Ok (mkState s 0 k0 false) /\
  patch_text k0 s = Ok s.
Proof.
  intros Hv Hr. unfold patch_text.
  rewrite (patch_body_no_call k0 s Hv Hr). split; reflexivity.
Qed.

Lemma no_call_no_change_witness :
  patch_body None (str "y = x.viewer(1)")
  = Ok (mkState (str "y = x.viewer(1)") 0 None false) /\
  patch_text None (str "y = x.viewer(1)") = Ok (str "y = x.viewer(1)").
Proof.
  exact (no_call_no_change None (str "y = x.viewer(1)") eq_refl eq_refl).
Defined.

(** *** The calls of a well closed text *)

Lemma marked_suffix_scan (rest : text) :
  marked_suffix rest ->
  exists k,
    scan rest None = (Some k, 0%Z) /\
    starts_with insert (skipn (k + 1) rest) = true.
Proof.
  intros (body & y & -> & Hrun & Hm).
  exists (length body). split.
  - exact (scan_run body y None Hrun).
  - replace (length body + 1) with (length body + 1 + 0) by lia.
    rewrite <- Nat.add_assoc.
    rewrite (skipn_app_more body (")"%char :: y) (1 + 0)). exact Hm.
Qed.

(** X8. On a text in which every call of a target name is closed, every
    call of [reshape] in the text returned has the marker after its
    closing parenthesis: the scan from its opening parenthesis stops
    with the counter at 0 at an offset [k], and the marker is at the
    offset after. *)
Theorem well_closed_calls_are_marked (k0 : option nat) (s s' : text) :
  well_closed s ->
  patch_text k0 s = Ok s' ->
  forall j,
    starts_with reshape_pivot (skipn j s') = true ->
    exists k,
      scan (skipn (j + length reshape_pivot) s') None = (Some k, 0%Z) /\
      starts_with insert (skipn (k + 1) (skipn (j + length reshape_pivot) s'))
      = true.
Proof.
  intros H Hp j Hj.
  destruct (patch_text_inv k0 s s' Hp) as (st1 & mid & H1 & H2 & _ & ->).
  destruct (patch_prefix_marks (str "view") (all_closed reshape_pivot)
              (mkState s 0 k0 false))
    as (st1' & H1' & Hm1 & Hk1).
  { left; reflexivity. }
  { apply (all_closed_insert (str "reshape(") reshape_no_close). reflexivity. }
  { apply well_closed_all_closed; [left; reflexivity|exact H]. }
  { apply (well_closed_all_closed s (str "reshape"));
      [right; left; reflexivity|exact H]. }
  rewrite H1 in H1'. injection H1' as <-.
  destruct (patch_prefix_marks (str "reshape") (all_marked view_pivot) st1)
    as (st2 & H2' & Hm2 & Hk2).
  { right; left; reflexivity. }
  { apply (all_marked_insert (str "view(") view_tail_no_close). reflexivity. }
  { exact Hk1. }
  { exact Hm1. }
  rewrite H2 in H2'. injection H2' as <-.
  apply marked_suffix_scan.
  exact (all_marked_rename (st_text mid) Hk2 Hm2 j Hj).
Qed.

Lemma well_closed_calls_are_marked_witness :
  exists k,
    scan (skipn (1 + length reshape_pivot) (str "x.reshape(1).contiguous()")) None
    = (Some k, 0%Z) /\
    starts_with insert
      (skipn (k + 1)
         (skipn (1 + length reshape_pivot) (str "x.reshape(1).contiguous()")))
    = true.
Proof.
  assert (Hw : well_closed (str "x.view(1)")).
  { intros prefix j [<-|[<-|[]]] Ho.
    - destruct j as [|j]; [discriminate Ho|].
      destruct j as [|j].
      + exists 1. split; [cbn; lia|]. split; [reflexivity|].
        intros i Hi. destruct i as [|i]; [discriminate|lia].
      + do 7 (destruct j as [|j]; [discriminate Ho|]). past_the_end Ho.
    - do 9 (destruct j as [|j]; [discriminate Ho|]). past_the_end Ho. }
  exact (well_closed_calls_are_marked None (str "x.view(1)")
           (str "x.reshape(1).contiguous()") Hw eq_refl 1 eq_refl).
Defined.

(** *** The loop over the files *)

Lemma for_range_binds (pivot : text) (n : nat) :
  forall st st',
    for_range n (patch_call pivot) st = Ok st' ->
    (n = 0 /\ st' = st) \/ st_k st' <> None.
Proof.
  induction n as [|n IH]; intros st st' H.
  - left. split; [reflexivity|]. now injection H as <-.
  - right. cbn [for_range] in H.
    destruct (patch_call pivot st) as [st1|e] eqn:H1; [|discriminate H].
    cbn [bind] in H.
    destruct (patch_call_shape _ _ _ H1) as (_ & _ & Hk & _).
    destruct (IH _ _ H) as [[_ ->]|Hk']; assumption.
Qed.

(** A run that leaves [k] unbound met no call, and returns the text as
    it was. *)
Lemma unbound_after (k0 : option nat) (s : text) (st : state) :
  patch_body k0 s = Ok st ->
  st_k st = None ->
  st_text st = s /\ k0 = None /\
  count s view_pivot = 0 /\ count s reshape_pivot = 0.
Proof.
  intros Hb Hk.
  destruct (patch_body_inv k0 s st Hb) as (mid & Hl & ->).
  destruct (loops_inv k0 s mid Hl) as (st1 & H1 & H2).
  cbn [st_k] in Hk.
  pose proof H1 as G1. pose proof H2 as G2.
  unfold patch_prefix in G1, G2. cbn zeta in G1, G2. cbn [st_text st_k st_rep] in G1, G2.
  destruct (for_range_binds _ _ _ _ G2) as [[E2 ->]|N2]; [|contradiction].
  cbn [st_k] in Hk.
  destruct (for_range_binds _ _ _ _ G1) as [[E1 ->]|N1]; [|contradiction].
  cbn [st_text st_k] in *.
  pose proof (patch_body_no_call k0 s E1 E2) as Hn.
  rewrite Hb in Hn. injection Hn as Hn.
  split; [exact Hn|]. split; [exact Hk|]. split; [exact E1|exact E2].
Qed.

Import ConvertTpuScript.

Lemma for_paths_stopped (vs : list visit) :
  forall k out p e,
    fst (for_paths vs k out) = PatchError p e ->
    k = None /\ e = NameError /\
    exists done v rest,
      vs = done ++ v :: rest /\ v_path v = p /\
      (exists s, v_read v = Some s /\ patch_body None s = Raise NameError) /\
      Forall no_call done /\
      snd (for_paths vs k out)
      = out ++ flat_map written_back done ++ [Printed (name p)].
Proof.
  induction vs as [|v0 rest IH]; intros k out p e H; [discriminate H|].
  cbn [for_paths] in H |- *. cbn zeta in H |- *.
  destruct (v_read v0) as [s|] eqn:Hs; [|discriminate H].
  destruct (patch_body k s) as [st|e0] eqn:Hb.
  - destruct (v_writable v0) eqn:Hw; [|discriminate H].
    destruct (IH _ _ _ _ H)
      as (Hk & He & done & v & rest' & Hv & Hp & Hr & Hd & Ho).
    destruct (unbound_after k s st Hb Hk) as (Ht & -> & Hc1 & Hc2).
    split; [reflexivity|]. split; [exact He|].
    exists (v0 :: done), v, rest'.
    split; [now rewrite Hv|]. split; [exact Hp|]. split; [exact Hr|]. split.
    + constructor; [|exact Hd]. split; [exact Hw|]. now exists s.
    + rewrite Ho, Ht. cbn [flat_map]. unfold written_back at 2. rewrite Hs.
      rewrite <- !app_assoc. reflexivity.
  - cbn [fst snd] in H |- *. injection H as <- <-.
    destruct (patch_body_raises k s e0 Hb) as [-> ->].
    split; [reflexivity|]. split; [reflexivity|].
    exists [], v0, rest. split; [reflexivity|]. split; [reflexivity|]. split.
    + now exists s.
    + split; [constructor|reflexivity].
Qed.

(** X9. A run of the script that the patcher stops has altered no text.
    The error is [NameError], raised with [k] unbound at the first file
    that has a call of a target name: every file before it could be
    read and written and had no call, and was written the text that was
    read from it, as it was; the file at which the run stops is not
    opened for writing, and no file after it is touched. *)
Theorem stopped_run_wrote_back_what_it_read (vs : list visit) (p : path)
                                            (e : exn) :
  fst (script vs) = PatchError p e ->
  e = NameError /\
  exists done v rest,
    vs = done ++ v :: rest /\ v_path v = p /\
    (exists s, v_read v = Some s /\ patch_body None s = Raise NameError) /\
    Forall no_call done /\
    snd (script vs) = flat_map written_back done ++ [Printed (name p)].
Proof.
  intros H. unfold script in *.
  destruct (for_paths_stopped vs None [] p e H) as (_ & He & Hd).
  split; [exact He|exact Hd].
Qed.

Lemma stopped_run_wrote_back_what_it_read_witness :
  NameError = NameError /\
  exists done v rest,
    [mkVisit (str "a.py") (Some (str "x = 1")) true;
     mkVisit (str "d/b.py") (Some (str "y.view(")) true;
     mkVisit (str "c.py") (Some (str "z.view(1)")) true]
    = done ++ v :: rest /\
    v_path v = str "d/b.py" /\
    (exists s, v_read v = Some s /\ patch_body None s = Raise NameError) /\
    Forall no_call done /\
    snd (script [mkVisit (str "a.py") (Some (str "x = 1")) true;
                 mkVisit (str "d/b.py") (Some (str "y.view(")) true;
                 mkVisit (str "c.py") (Some (str "z.view(1)")) true])
    = flat_map written_back done ++ [Printed (name (str "d/b.py"))].
Proof.
  exact (stopped_run_wrote_back_what_it_read
           [mkVisit (str "a.py") (Some (str "x = 1")) true;
            mkVisit (str "d/b.py") (Some (str "y.view(")) true;
            mkVisit (str "c.py") (Some (str "z.view(1)")) true]
           (str "d/b.py") NameError eq_refl).
Defined.

End ConvertTpuExtra.

(** ** More of the writer facade *)

Module WriterExtra.
Import Py Writer WriterCalls PyFacts WriterSpec.
Local Open Scope py_scope.

(** *** [_encode] *)

Lemma replace_char (c : ascii) (new s : text) :
  replace s [c] new = flat_map (fun x => if Ascii.eqb c x then new else [x]) s.
Proof.
  unfold replace.
  induction s as [|x s IH]; [reflexivity|].
  cbn [replace_from flat_map]. rewrite starts_with_cons.
  cbn [starts_with length Nat.sub]. rewrite andb_true_r.
  destruct (Ascii.eqb c x); cbn [app]; now rewrite IH.
Qed.

Lemma flat_map_flat_map (f g : ascii -> text) (s : text) :
  flat_map g (flat_map f s) = flat_map (fun x => flat_map g (f x)) s.
Proof.
  induction s as [|x s IH]; [reflexivity|].
  cbn [flat_map]. now rewrite flat_map_app, IH.
Qed.

Lemma encode_escape (s : text) : _encode s = flat_map escape s.
Proof.
  unfold _encode. cbn zeta.
  change (str "%") with ["%"%char]. change (str "/") with ["/"%char].
  change (str "\") with ["\"%char].
  rewrite !replace_char, !flat_map_flat_map.
  apply flat_map_ext. intros x. unfold escape.
  destruct (Ascii.eqb_spec "%"%char x) as [<-|N1]; [reflexivity|].
  cbn [flat_map app].
  destruct (Ascii.eqb_spec "/"%char x) as [<-|N2]; [reflexivity|].
  cbn [flat_map app].
  destruct (Ascii.eqb_spec "\"%char x) as [<-|N3]; reflexivity.
Qed.

Lemma escape_cases (c : ascii) :
  (c = "%"%char /\ escape c = str "%25") \/
  (c = "/"%char /\ escape c = str "%2f") \/
  (c = "\"%char /\ escape c = str "%5c") \/
  (c <> "%"%char /\ c <> "/"%char /\ c <> "\"%char /\ escape c = [c]).
Proof.
  unfold escape.
  destruct (Ascii.eqb_spec "%"%char c) as [<-|N1]; [now left|].
  destruct (Ascii.eqb_spec "/"%char c) as [<-|N2]; [now right; left|].
  destruct (Ascii.eqb_spec "\"%char c) as [<-|N3]; [now right; right; left|].
  right; right; right. repeat split; congruence.
Qed.

Lemma flat_map_escape_inj (a : text) :
  forall b, flat_map escape a = flat_map escape b -> a = b.
Proof.
  induction a as [|x a IH]; intros [|y b] H.
  - reflexivity.
  - cbn [flat_map] in H.
    destruct (escape_cases y) as [[_ E]|[[_ E]|[[_ E]|(_ & _ & _ & E)]]];
      rewrite E in H; discriminate H.
  - cbn [flat_map] in H.
    destruct (escape_cases x) as [[_ E]|[[_ E]|[[_ E]|(_ & _ & _ & E)]]];
      rewrite E in H; discriminate H.
  - cbn [flat_map] in H.
    destruct (escape_cases x) as [[-> E]|[[-> E]|[[-> E]|(X1 & X2 & X3 & E)]]];
      destruct (escape_cases y) as [[-> F]|[[-> F]|[[-> F]|(Y1 & Y2 & Y3 & F)]]];
      rewrite ?E, ?F in H; cbn in H;
      try (injection H as H; try congruence; try discriminate);
      try (f_equal; [congruence|]; apply IH; congruence);
      try (f_equal; apply IH; congruence).
Qed.

Lemma text_eqb_eq (a b : text) : text_eqb a b = true <-> a = b.
Proof.
  unfold text_eqb. destruct (list_eq_dec Ascii.ascii_dec a b); split; try easy.
Qed.

Lemma text_eqb_neq (a b : text) : a <> b -> text_eqb a b = false.
Proof.
  intros H. destruct (text_eqb a b) eqn:E; [|reflexivity].
  apply text_eqb_eq in E. contradiction.
Qed.

Lemma encode_inj (a b : text) : _encode a = _encode b -> a = b.
Proof. rewrite !encode_escape. apply flat_map_escape_inj. Qed.

Lemma path_join_inj (a b c : text) : path_join a b = path_join a c -> b = c.
Proof.
  unfold path_join. destruct a as [|x a]; [easy|].
  destruct (Ascii.eqb (last (x :: a) "/"%char) "/"%char); intros H.
  - now apply app_inv_head in H.
  - apply app_inv_head in H. now apply app_inv_head in H.
Qed.

Lemma text_eqb_same (x y a b : text) :
  (x = y <-> a = b) -> text_eqb x y = text_eqb a b.
Proof.
  intros H. destruct (text_eqb a b) eqn:E.
  - apply text_eqb_eq. apply H. now apply text_eqb_eq.
  - destruct (text_eqb x y) eqn:F; [|reflexivity].
    apply text_eqb_eq in F. apply H in F. apply text_eqb_eq in F. congruence.
Qed.

(** X11. [_encode] is injective on strings: the names it gives two tags
    are the same string only when the tags are, and so are the save
    paths that [add_embedding] builds from them for one file writer and
    one step. *)
Theorem encode_tells_tags_apart (a b : text) :
  text_eqb (_encode a) (_encode b) = text_eqb a b /\
  forall fw g,
    text_eqb (embedding_path fw g a) (embedding_path fw g b) = text_eqb a b.
Proof.
  split.
  - apply text_eqb_same. split; [apply encode_inj|now intros ->].
  - intros fw g. apply text_eqb_same. split; [|now intros ->].
    unfold embedding_path. intros H.
    apply path_join_inj in H. apply app_inv_head in H.
    apply app_inv_head in H. now apply encode_inj.
Qed.

Lemma encode_tells_tags_apart_witness :
  text_eqb (_encode (str "a/b")) (_encode (str "a%2fb")) = false /\
  text_eqb (embedding_path first_writer (Some 2%Z) (str "a/b"))
           (embedding_path first_writer (Some 2%Z) (str "a%2fb"))
  = false.
Proof.
  exact (conj (proj1 (encode_tells_tags_apart (str "a/b") (str "a%2fb")))
              (proj2 (encode_tells_tags_apart (str "a/b") (str "a%2fb"))
                     first_writer (Some 2%Z))).
Defined.

(** X12. The name [_encode] returns has no [/] and no backslash: it is
    one component of a path. *)
Theorem encode_has_no_separator (s : text) :
  existsb (Ascii.eqb "/"%char) (_encode s) = false /\
  existsb (Ascii.eqb "\"%char) (_encode s) = false.
Proof.
  rewrite encode_escape.
  induction s as [|x s [IH1 IH2]]; [split; reflexivity|].
  cbn [flat_map]. rewrite !existsb_app, IH1, IH2, !orb_false_r.
  destruct (escape_cases x) as [[-> E]|[[-> E]|[[-> E]|(X1 & X2 & X3 & E)]]];
    rewrite E; try (split; reflexivity).
  cbn [existsb]. rewrite !orb_false_r.
  split; apply Ascii.eqb_neq; congruence.
Qed.

(** *** File writers opened and closed *)

Lemma live_after_app (tr tr' : list effect) :
  forall l, live_after (tr ++ tr') l = live_after tr' (live_after tr l).
Proof.
  induction tr as [|e tr IH]; intros l; [reflexivity|].
  destruct e; cbn [app live_after]; apply IH.
Qed.

Lemma live_app (tr tr' : list effect) :
  live (tr ++ tr') = live_after tr' (live tr).
Proof. apply live_after_app. Qed.

Lemma live_snoc_quiet (tr : list effect) (e : effect) :
  quiet e -> live (tr ++ [e]) = live tr.
Proof. intros Q. rewrite live_app. destruct e; cbn in *; easy. Qed.

Lemma live_emit (e : effect) (w : env) :
  quiet e -> live (trace (emit e w)) = live (trace w).
Proof. intros Q. cbn [emit trace]. now apply live_snoc_quiet. Qed.

Lemma live_add_event (fw : file_writer) (p : payload) (step : option Z)
      (walltime : option nat) (w : env) :
  live (trace (fw_add_event fw p step walltime w)) = live (trace w).
Proof. destruct fw; [reflexivity|]. now apply live_emit. Qed.

Lemma live_flush (fw : file_writer) (w : env) :
  live (trace (fw_flush fw w)) = live (trace w).
Proof. destruct fw; [reflexivity|]. now apply live_emit. Qed.

Section Keeps.

Variable I : SummaryWriter -> env -> Prop.

Lemma keeps_ret (A : Type) (a : A) : keeps I (ret a).
Proof. intros self w H. exact H. Qed.

Lemma keeps_raise (A : Type) (e : exn) : keeps I (@raise A e).
Proof. intros self w H. exact H. Qed.

Lemma keeps_lift (A : Type) (r : result A) : keeps I (lift r).
Proof. intros self w H. exact H. Qed.

Lemma keeps_assert (b : bool) : keeps I (assert b).
Proof. destruct b; [apply keeps_ret|apply keeps_raise]. Qed.

Lemma keeps_bind (A B : Type) (m : M A) (f : A -> M B) :
  keeps I m -> (forall a, keeps I (f a)) -> keeps I (bindM m f).
Proof.
  intros Hm Hf self w H. unfold bindM.
  specialize (Hm self w H).
  destruct (m self w) as [[[a|e] self'] w']; cbn [fst snd] in *.
  - now apply Hf.
  - exact Hm.
Qed.

Lemma keeps_for_each (A : Type) (body : A -> M unit) (l : list A) :
  (forall a, keeps I (body a)) -> keeps I (for_each body l).
Proof.
  intros Hb. induction l as [|a l IH]; cbn [for_each].
  - apply keeps_ret.
  - apply keeps_bind; [apply Hb|intros _; exact IH].
Qed.

End Keeps.

Lemma accounted_env (F : list nat) (self : SummaryWriter) (w w' : env) :
  live (trace w') = live (trace w) -> accounted F self w -> accounted F self w'.
Proof. intros E (H1 & H2 & H3). repeat split; try assumption. now rewrite E. Qed.

Lemma keeps_effect (F : list nat) (f : env -> env) :
  (forall w, live (trace (f w)) = live (trace w)) ->
  keeps (accounted F) (effectM f).
Proof. intros Hf self w H. cbn. now apply (accounted_env F self w). Qed.

Lemma keeps_fetch (F : list nat) (item : pyarg) :
  keeps (accounted F) (fetch_if_blob item).
Proof. destruct item; [apply keeps_raise|apply keeps_ret]. Qed.

Lemma keeps_get_file_writer (F : list nat) : keeps (accounted F) _get_file_writer.
Proof.
  intros self w (Hd & Hs & Hl). unfold _get_file_writer. rewrite Hd. cbn [negb].
  unfold synced in Hs.
  destruct (all_writers self) as [ws|] eqn:Ea;
    destruct (sw_file_writer self) as [fw|] eqn:Ef; try contradiction.
  - cbn [fst snd]. repeat split; try assumption.
    unfold synced. now rewrite Ea, Ef.
  - assert (Hl' : forall id, In id (live (trace w)) -> In id F).
    { intros id Hi. destruct (Hl id Hi) as [Hh|Hh]; [|exact Hh].
      unfold held_writers in Hh. rewrite Ea in Hh. destruct Hh. }
    destruct (dict_get (kwargs self) (str "purge_step")) as [step|].
    + unfold new_FileWriter. cbn [kwargs set_kwargs logdir].
      destruct (dict_pop (kwargs self) (str "purge_step")) as [|kv kw].
      * cbn [fst snd]. split; [exact Hd|]. split; [exact I|].
        intros id. cbn [fw_add_event emit trace].
        rewrite !live_snoc_quiet by exact I.
        rewrite live_app. cbn [live_after]. intros [<-|Hi].
        -- left. now left.
        -- right. now apply Hl'.
      * cbn [fst snd]. split; [exact Hd|]. split.
        -- unfold synced. cbn. now rewrite Ea, Ef.
        -- intros id Hi. right. now apply Hl'.
    + unfold new_FileWriter.
      destruct (kwargs self) as [|kv kw].
      * cbn [fst snd]. split; [exact Hd|]. split; [exact I|].
        intros id. cbn [trace]. rewrite live_app. cbn [live_after].
        intros [<-|Hi].
        -- left. now left.
        -- right. now apply Hl'.
      * cbn [fst snd]. split; [exact Hd|]. split.
        -- unfold synced. now rewrite Ea, Ef.
        -- intros id Hi. right. now apply Hl'.
Qed.

Lemma keeps_add_summary (F : list nat) (fw : file_writer) (sm : summary)
      (g : option Z) (t : option nat) :
  keeps (accounted F) (effectM (fw_add_summary fw sm g t)).
Proof. apply keeps_effect. intros w. apply live_add_event. Qed.

Lemma keeps_add_scalar (F : list nat) (tag : text) (v : pyarg)
      (g : option Z) (t : option nat) :
  keeps (accounted F) (add_scalar tag v g t).
Proof.
  unfold add_scalar.
  apply keeps_bind; [apply keeps_fetch|intros a].
  apply keeps_bind; [apply keeps_get_file_writer|intros fw].
  apply keeps_add_summary.
Qed.

Lemma keeps_add_histogram_raw (F : list nat) (tag : text)
      (mn mx num sm sq : Z) (bl bc : list Z) (g : option Z) (t : option nat) :
  keeps (accounted F) (add_histogram_raw tag mn mx num sm sq bl bc g t).
Proof.
  unfold add_histogram_raw.
  destruct (negb (length bl =? length bc)); [apply keeps_raise|].
  apply keeps_bind; [apply keeps_get_file_writer|intros fw].
  apply keeps_add_summary.
Qed.

Lemma keeps_add_image_with_boxes (F : list nat) (tag : text) (img box : pyarg)
      (g : option Z) (t : option nat) (df : text) (l : labels_arg) :
  keeps (accounted F) (add_image_with_boxes tag img box g t df l).
Proof.
  unfold add_image_with_boxes.
  apply keeps_bind; [apply keeps_fetch|intros i].
  apply keeps_bind; [apply keeps_fetch|intros b].
  apply keeps_bind.
  - assert (K : forall ls : list text, keeps (accounted F) (fun self w =>
                match shape_at b 0 with
                | Raise e => (Raise e, self, w)
                | Ok n =>
                    if negb (length ls =? n)
                    then (Ok (@None (list text)), self,
                          emit (Warning labels_warning) w)
                    else (Ok (Some ls), self, w)
                end)).
    { intros ls self w H. destruct (shape_at b 0) as [n|e]; [|exact H].
      destruct (negb (length ls =? n)); [|exact H].
      cbn [fst snd]. apply (accounted_env F self w); [|exact H].
      now apply live_emit. }
    destruct l; [apply keeps_ret|apply K|apply K].
  - intros lb. apply keeps_bind; [apply keeps_get_file_writer|intros fw].
    apply keeps_add_summary.
Qed.

Lemma keeps_makedirs (F : list nat) (save_path : text) :
  keeps (accounted F) (makedirs_or_warn save_path).
Proof.
  apply keeps_effect. intros w.
  destruct (existsb (text_eqb save_path) (dirs w)).
  - now apply live_emit.
  - cbn [trace]. now apply live_snoc_quiet.
Qed.

Lemma keeps_emit (F : list nat) (e : effect) :
  quiet e -> keeps (accounted F) (effectM (emit e)).
Proof. intros Q. apply keeps_effect. intros w. now apply live_emit. Qed.

Lemma keeps_add_embedding (F : list nat) (mat : ndarray)
      (md : option (list text)) (img : option ndarray) (g : option Z)
      (tag : text) :
  keeps (accounted F) (add_embedding mat md img g tag).
Proof.
  unfold add_embedding. cbn zeta.
  apply keeps_bind; [apply keeps_get_file_writer|intros fw].
  apply keeps_bind; [apply keeps_makedirs|intros _].
  apply keeps_bind.
  { destruct md as [m|]; [|apply keeps_ret].
    apply keeps_bind; [apply keeps_lift|intros n].
    apply keeps_bind; [apply keeps_assert|intros _].
    now apply keeps_emit. }
  intros _. apply keeps_bind.
  { destruct img as [i|]; [|apply keeps_ret].
    apply keeps_bind; [apply keeps_lift|intros n].
    apply keeps_bind; [apply keeps_lift|intros m].
    apply keeps_bind; [apply keeps_assert|intros _].
    apply keeps_bind; [apply keeps_lift|intros h].
    apply keeps_bind; [apply keeps_lift|intros v].
    apply keeps_bind; [apply keeps_assert|intros _].
    now apply keeps_emit. }
  intros _. apply keeps_bind; [apply keeps_assert|intros _].
  apply keeps_bind; [now apply keeps_emit|intros _].
  apply keeps_bind; [apply keeps_get_file_writer|intros fw'].
  now apply keeps_emit.
Qed.

Lemma values_dict_set_new (V : Type) (d : list (text * V)) (key : text) (v : V) :
  dict_get d key = None -> values (dict_set d key v) = values d ++ [v].
Proof.
  induction d as [|[k v'] d IH]; intros H; [reflexivity|].
  cbn [dict_get dict_set] in *. destruct (text_eqb k key); [discriminate H|].
  unfold values in *. cbn [map app]. now rewrite (IH H).
Qed.

Lemma writer_ids_app (a b : list file_writer) :
  writer_ids (a ++ b) = writer_ids a ++ writer_ids b.
Proof. apply flat_map_app. Qed.

Lemma keeps_add_scalars_item (F : list nat) (fw_logdir main_tag : text)
      (g : option Z) (t : option nat) (item : text * pyarg) :
  keeps (accounted F) (add_scalars_item fw_logdir main_tag g t item).
Proof.
  destruct item as [tag v]. unfold add_scalars_item.
  apply keeps_bind.
  { intros self w (Hd & Hs & Hl).
    destruct (all_writers self) as [ws|] eqn:Ea; [|now repeat split].
    destruct (dict_get ws _) as [fw|] eqn:Eg.
    - repeat split; assumption.
    - cbn [new_FileWriter fst snd]. split; [exact Hd|]. split.
      + unfold synced in *. cbn. rewrite Ea in Hs.
        destruct (sw_file_writer self); [exact I|contradiction].
      + intros id. cbn [trace]. rewrite live_app. cbn [live_after].
        unfold held_writers. cbn [set_writers all_writers].
        rewrite (values_dict_set_new _ ws _ _ Eg), writer_ids_app.
        intros [<-|Hi].
        * left. apply in_or_app. right. now left.
        * destruct (Hl id Hi) as [Hh|Hh]; [|now right].
          left. apply in_or_app. left.
          unfold held_writers in Hh. now rewrite Ea in Hh. }
  intros fw. apply keeps_bind; [apply keeps_fetch|intros a].
  apply keeps_bind; [apply keeps_add_summary|intros _].
  intros self w H. exact H.
Qed.

Lemma keeps_add_scalars (F : list nat) (now : nat) (main_tag : text)
      (d : list (text * pyarg)) (g : option Z) (t : option nat) :
  keeps (accounted F) (add_scalars now main_tag d g t).
Proof.
  unfold add_scalars. cbn zeta.
  apply keeps_bind; [apply keeps_get_file_writer|intros fw].
  apply keeps_for_each. intros item. apply keeps_add_scalars_item.
Qed.

Lemma live_after_closed (fws : list file_writer) :
  forall l id,
    In id (live_after (flat_map flush_and_close fws) l) ->
    In id l /\ ~ In id (writer_ids fws).
Proof.
  induction fws as [|fw fws IH]; intros l id H.
  - split; [exact H|intros []].
  - destruct fw as [d|i d]; cbn [flat_map flush_and_close app live_after] in H.
    + apply IH in H. exact H.
    + apply IH in H. destruct H as [H1 H2].
      apply in_remove in H1. destruct H1 as [H1 H3].
      split; [exact H1|]. cbn. intros [E|E]; [now symmetry in E|contradiction].
Qed.

Lemma close_result (self : SummaryWriter) (w : env) :
  close self w
  = (Ok tt,
     match all_writers self with
     | None => self
     | Some _ => set_writers self None None
     end,
     mkEnv (trace w ++ flat_map flush_and_close (held_writers self))
           (next_id w) (dirs w)).
Proof.
  unfold close, held_writers. destruct (all_writers self) as [ws|].
  - now rewrite close_all_trace.
  - cbn. rewrite app_nil_r. now destruct w.
Qed.

Lemma close_holds_nothing (self : SummaryWriter) (w : env) :
  held_writers (snd (fst (close self w))) = [].
Proof.
  rewrite close_result. cbn [fst snd]. unfold held_writers.
  destruct (all_writers self) eqn:E; [reflexivity|now rewrite E].
Qed.






Lemma keeps_close (F : list nat) : keeps (accounted F) close.
Proof.
  intros self w (Hd & Hs & Hl). rewrite close_result. cbn [fst snd].
  split; [now destruct (all_writers self)|]. split.
  - destruct (all_writers self) eqn:Ea; [exact I|exact Hs].
  - intros id. cbn [trace]. rewrite live_app. intros H.
    apply live_after_closed in H. destruct H as [H1 H2].
    destruct (Hl id H1) as [Hh|Hh]; [contradiction|now right].
Qed.

Lemma live_flush_all (fws : list file_writer) :
  forall w,
    live (trace (fold_left (fun w writer => fw_flush writer w) fws w))
    = live (trace w).
Proof.
  induction fws as [|fw fws IH]; intros w; [reflexivity|].
  cbn [fold_left]. rewrite IH. apply live_flush.
Qed.

Lemma keeps_flush (F : list nat) : keeps (accounted F) flush.
Proof.
  intros self w H. unfold flush.
  destruct (all_writers self) as [ws|]; [|exact H].
  cbn [fst snd]. apply (accounted_env F self w); [|exact H].
  apply live_flush_all.
Qed.

Lemma with_writer_live (F : list nat) (A : Type) (hp : SummaryWriter)
      (body : M A) (w : env) :
  keeps (accounted F) body ->
  accounted F hp w ->
  forall id, In id (live (trace (snd (with_writer hp body w)))) -> In id F.
Proof.
  intros Kb H id. unfold with_writer.
  specialize (Kb hp w H).
  destruct (body hp w) as [[r hp'] w']. cbn [fst snd] in Kb.
  pose proof (keeps_close F hp' w' Kb) as (_ & _ & Hl).
  pose proof (close_holds_nothing hp' w') as Hn.
  destruct (close hp' w') as [[[u|e] hp''] w'']; cbn [fst snd] in *;
    intros Hi; destruct (Hl id Hi) as [Hh|Hh]; try exact Hh;
    rewrite Hn in Hh; destruct Hh.
Qed.

Lemma keeps_add_hparams (F : list nat) (now : text) (hp md : pyobj) :
  keeps (accounted F) (add_hparams now hp md).
Proof.
  intros self w H. unfold add_hparams.
  destruct hp as [|hpd|]; try exact H.
  destruct md as [|mdd|]; try exact H.
  destruct (sw_file_writer self) as [fw|] eqn:Ef; [|exact H].
  set (F' := writer_ids (held_writers self) ++ F).
  assert (Ei : exists d0,
             init [] (Some (path_join (get_logdir fw) now)) [] None
                  10 120 [] true None [] w
             = (Ok (mkWriter d0 None 10 120 [] true []
                             (Some (FileWriter (next_id w) d0))
                             (Some [(d0, FileWriter (next_id w) d0)]) []),
                mkEnv (trace w ++ [Open (next_id w) d0]) (S (next_id w)) (dirs w))).
  { unfold init. cbn zeta.
    destruct (path_join (get_logdir fw) now); eexists; reflexivity. }
  destruct Ei as (d0 & Ei). rewrite Ei.
  set (hp1 := mkWriter d0 None 10 120 [] true []
                       (Some (FileWriter (next_id w) d0))
                       (Some [(d0, FileWriter (next_id w) d0)]) []).
  set (w1 := mkEnv (trace w ++ [Open (next_id w) d0]) (S (next_id w)) (dirs w)).
  assert (H1 : accounted F' hp1 w1).
  { destruct H as (Hd & Hs & Hl). split; [reflexivity|]. split; [exact I|].
    intros id. unfold w1. cbn [trace]. rewrite live_app. cbn [live_after].
    intros [<-|Hi]; [left; now left|].
    right. unfold F'. apply in_or_app.
    destruct (Hl id Hi); [now left|now right]. }
  match goal with
  | |- context [with_writer hp1 ?b w1] =>
      pose proof (with_writer_live F' unit hp1 b w1) as Hw;
      destruct (with_writer hp1 b w1) as [r w2]
  end.
  cbn [fst snd] in *.
  destruct H as (Hd & Hs & Hl). split; [exact Hd|]. split; [exact Hs|].
  intros id Hi.
  assert (Hin : In id F').
  { apply Hw; [|exact H1|exact Hi].
    intros hpx wx Hx.
    destruct (sw_file_writer hpx) as [f|]; [|exact Hx].
    apply (keeps_for_each (accounted F')).
    - intros kv. apply keeps_add_scalar.
    - apply (accounted_env F' hpx wx); [|exact Hx].
      unfold fw_add_summary. now rewrite !live_add_event. }
  unfold F' in Hin. apply in_app_or in Hin. exact Hin.
Qed.

Lemma keeps_exec (F : list nat) (c : call) : keeps (accounted F) (exec c).
Proof.
  destruct c; cbn [exec].
  - apply keeps_add_scalar.
  - apply keeps_add_scalars.
  - apply keeps_add_histogram_raw.
  - apply keeps_add_image_with_boxes.
  - apply keeps_add_embedding.
  - apply keeps_add_hparams.
  - apply keeps_flush.
  - apply keeps_close.
Qed.

Lemma exec_all_accounted (F : list nat) (cs : list call) :
  forall self w,
    accounted F self w ->
    accounted F (fst (exec_all cs self w)) (snd (exec_all cs self w)).
Proof.
  induction cs as [|c cs IH]; intros self w H; [exact H|].
  cbn [exec_all]. pose proof (keeps_exec F c self w H) as Hc.
  destruct (exec c self w) as [[r self'] w']. now apply IH.
Qed.

Lemma init_accounted (run_name : text) (logdir_arg : option text)
      (comment : text) (purge : option Z) (max_queue flush_secs : nat)
      (suffix : text) (log_dir : option text) (kw : list (text * Z))
      (w0 w : env) (self : SummaryWriter) :
  live (trace w0) = [] ->
  init run_name logdir_arg comment purge max_queue flush_secs suffix true
       log_dir kw w0 = (Ok self, w) ->
  accounted [] self w.
Proof.
  intros Hl. unfold init. cbn zeta.
  match goal with
  | |- context [_get_file_writer ?s0 w0] =>
      pose proof (keeps_get_file_writer [] s0 w0) as K;
      destruct (_get_file_writer s0 w0) as [[[fw|e] s1] w1]
  end; [|discriminate].
  intros [= <- <-]. apply K.
  split; [reflexivity|]. split; [exact I|].
  intros id. rewrite Hl. intros [].
Qed.

(** X13. A facade that writes to disk leaves no file writer open: after
    any calls of its methods, of which some may have raised, [close]
    closes every file writer that was opened since the facade was made,
    those of the facades [add_hparams] made among them. *)
Theorem close_leaves_no_writer_open
        (run_name : text) (logdir_arg : option text) (comment : text)
        (purge : option Z) (max_queue flush_secs : nat) (suffix : text)
        (log_dir : option text) (kw : list (text * Z))
        (w0 w : env) (self : SummaryWriter) (cs : list call) :
  live (trace w0) = [] ->
  init run_name logdir_arg comment purge max_queue flush_secs suffix true
       log_dir kw w0 = (Ok self, w) ->
  live (trace (snd (exec_all (cs ++ [CallClose]) self w))) = [].
Proof.
  intros Hl Hi.
  pose proof (init_accounted _ _ _ _ _ _ _ _ _ _ _ _ Hl Hi) as H.
  assert (G : forall cs' s1 w1,
             exec_all (cs' ++ [CallClose]) s1 w1
             = (snd (fst (close (fst (exec_all cs' s1 w1)) (snd (exec_all cs' s1 w1)))),
                snd (close (fst (exec_all cs' s1 w1)) (snd (exec_all cs' s1 w1))))).
  { induction cs' as [|c cs' IH]; intros s1 w1.
    - cbn [app exec_all exec fst snd]. now destruct (close s1 w1) as [[r s2] w2].
    - cbn [app exec_all]. destruct (exec c s1 w1) as [[r s2] w2]. apply IH. }
  rewrite G. cbn [snd].
  pose proof (exec_all_accounted [] cs self w H) as H1.
  pose proof (keeps_close [] _ _ H1) as (_ & _ & H2).
  pose proof (close_holds_nothing (fst (exec_all cs self w))
                                  (snd (exec_all cs self w))) as Hn.
  destruct (live (trace (snd (close (fst (exec_all cs self w))
                                    (snd (exec_all cs self w)))))) as [|id l] eqn:E;
    [reflexivity|].
  exfalso. destruct (H2 id (or_introl eq_refl)) as [Hh|[]].
  rewrite Hn in Hh. destruct Hh.
Qed.

Lemma close_leaves_no_writer_open_witness :
  live (trace (snd (exec_all
                      ([CallAddScalars 7 (str "loss")
                          [(str "train", PArr (mkArray [])); (str "test", PStr (str "blob"))]
                          (Some 1%Z) None;
                        CallAddHparams (str "1.5") (PDict []) (PDict []);
                        CallClose;
                        CallAddScalar (str "acc") (PArr (mkArray [])) None None]
                       ++ [CallClose])
                      open_writer
                      (mkEnv [Open 0 (str "runs/exp1")] 1 []))))
  = [].
Proof.
  exact (close_leaves_no_writer_open
           [] (Some (str "runs/exp1")) [] None 10 120 [] None []
           fresh_env (mkEnv [Open 0 (str "runs/exp1")] 1 []) open_writer
           [CallAddScalars 7 (str "loss")
              [(str "train", PArr (mkArray [])); (str "test", PStr (str "blob"))]
              (Some 1%Z) None;
            CallAddHparams (str "1.5") (PDict []) (PDict []);
            CallClose;
            CallAddScalar (str "acc") (PArr (mkArray [])) None None]
           eq_refl eq_refl).
Defined.

(** *** [add_scalars] *)

Lemma dict_get_set_other (V : Type) (d : list (text * V)) (key key' : text) (v : V) :
  key <> key' -> dict_get (dict_set d key v) key' = dict_get d key'.
Proof.
  intros N. induction d as [|[k v'] d IH].
  - cbn. now rewrite text_eqb_neq.
  - cbn [dict_set dict_get]. destruct (text_eqb k key) eqn:E.
    + apply text_eqb_eq in E. subst k. cbn [dict_get].
      now rewrite text_eqb_neq.
    + cbn [dict_get]. now rewrite IH.
Qed.

Lemma dict_get_set_same (V : Type) (d : list (text * V)) (key : text) (v : V) :
  dict_get (dict_set d key v) key = Some v.
Proof.
  induction d as [|[k v'] d IH].
  - cbn. now rewrite (proj2 (text_eqb_eq key key) eq_refl).
  - cbn [dict_set]. destruct (text_eqb k key) eqn:E; cbn [dict_get]; rewrite E;
      [reflexivity|exact IH].
Qed.

Lemma scalars_dir_inj (d m a b : text) :
  scalars_dir d m a = scalars_dir d m b -> a = b.
Proof.
  unfold scalars_dir. intros H.
  apply app_inv_head in H. apply app_inv_head in H.
  apply app_inv_head in H. now apply app_inv_head in H.
Qed.

Lemma scalars_dir_longer (d m a : text) : d <> scalars_dir d m a.
Proof.
  unfold scalars_dir. intros H. apply (f_equal (@length ascii)) in H.
  rewrite !length_app in H. cbn in H. lia.
Qed.

(** A turn of the loop for a tag that has no file writer yet. *)
Lemma add_scalars_item_new (d m : text) (g : option Z) (t : option nat)
      (tag : text) (a : ndarray) (self : SummaryWriter) (w : env)
      (ws : list (text * file_writer)) :
  all_writers self = Some ws ->
  dict_get ws (scalars_dir d m tag) = None ->
  exists self',
    add_scalars_item d m g t (tag, PArr a) self w
    = (Ok tt, self',
       mkEnv (trace w ++ [Open (next_id w) (scalars_dir d m tag);
                          AddEvent (next_id w) (Summary (scalar m (PArr a))) g t])
             (S (next_id w)) (dirs w)) /\
    all_writers self'
    = Some (dict_set ws (scalars_dir d m tag)
                     (FileWriter (next_id w) (scalars_dir d m tag))) /\
    sw_file_writer self' = sw_file_writer self /\
    _write_to_disk self' = _write_to_disk self.
Proof.
  intros Ea Eg. unfold add_scalars_item, bindM.
  fold (scalars_dir d m tag). rewrite Ea, Eg.
  cbn [new_FileWriter fetch_if_blob ret effectM fw_add_summary fw_add_event
       append_to_scalar_dict emit trace next_id dirs].
  eexists. split; [|split; [|split]].
  - unfold append_to_scalar_dict, emit. cbn [trace next_id dirs].
    rewrite <- app_assoc. reflexivity.
  - reflexivity.
  - reflexivity.
  - reflexivity.
Qed.

Lemma add_scalars_loop_new (d m : text) (g : option Z) (t : option nat)
      (items : list (text * ndarray)) :
  forall self w ws,
    all_writers self = Some ws ->
    NoDup (map fst items) ->
    (forall tag, In tag (map fst items) -> dict_get ws (scalars_dir d m tag) = None) ->
    exists self',
      for_each (add_scalars_item d m g t) (array_items items) self w
      = (Ok tt, self',
         mkEnv (trace w ++ scalars_trace d m g t (next_id w) items)
               (next_id w + length items) (dirs w)) /\
      all_writers self' <> None /\
      _write_to_disk self' = _write_to_disk self.
Proof.
  induction items as [|[tag a] items IH]; intros self w ws Ea Hn Hg.
  - exists self. cbn. rewrite app_nil_r, Nat.add_0_r. split; [now destruct w|].
    split; [now rewrite Ea|reflexivity].
  - cbn [array_items map for_each fst snd]. unfold bindM at 1.
    destruct (add_scalars_item_new d m g t tag a self w ws Ea)
      as (self1 & E1 & Ea1 & _ & Hd1).
    { apply Hg. now left. }
    rewrite E1.
    inversion Hn as [|x l Hx Hn']; subst.
    destruct (IH self1
                (mkEnv (trace w ++ [Open (next_id w) (scalars_dir d m tag);
                                    AddEvent (next_id w)
                                             (Summary (scalar m (PArr a))) g t])
                       (S (next_id w)) (dirs w))
                _ Ea1 Hn') as (self2 & E2 & Ea2 & Hd2).
    { intros tag' Hin. rewrite dict_get_set_other.
      - apply Hg. now right.
      - intros E. apply scalars_dir_inj in E. subst tag'. contradiction. }
    exists self2. fold (array_items items). rewrite E2.
    cbn [trace next_id dirs scalars_trace length].
    split; [|split; [exact Ea2|congruence]].
    assert (En : S (next_id w) + length items = next_id w + S (length items))
      by lia.
    rewrite En, <- app_assoc. reflexivity.
Qed.

(** X14. A facade made with [write_to_disk] false writes to disk all the
    same when [add_scalars] is called: for every tag of the dictionary a
    file writer is opened on a directory of its own and the summary is
    added to it, on every call.  The next method that records a value
    drops these file writers, so that [close] closes none of them. *)
Theorem add_scalars_writes_without_write_to_disk
        (self : SummaryWriter) (w : env) (now : nat) (main_tag : text)
        (items : list (text * ndarray)) (g : option Z) (t : option nat) :
  _write_to_disk self = false ->
  NoDup (map fst items) ->
  exists self1 w1,
    add_scalars now main_tag (array_items items) g t self w = (Ok tt, self1, w1) /\
    trace w1
    = trace w ++ scalars_trace (logdir self) main_tag g
                               (match t with None => Some now | Some x => Some x end)
                               (next_id w) items /\
    forall tag' a' g' t',
    exists self2,
      add_scalar tag' (PArr a') g' t' self1 w1 = (Ok tt, self2, w1) /\
      close self2 w1 = (Ok tt, set_writers self2 None None, w1).
Proof.
  intros Hd Hn. unfold add_scalars. cbn zeta. unfold bindM at 1.
  unfold _get_file_writer at 1. rewrite Hd. cbn [negb get_logdir].
  set (self0 := set_writers self (Some (DummyFileWriter (logdir self)))
                            (Some [(logdir self, DummyFileWriter (logdir self))])).
  destruct (add_scalars_loop_new (logdir self) main_tag g
              (match t with None => Some now | Some x => Some x end)
              items self0 w [(logdir self, DummyFileWriter (logdir self))]
              eq_refl Hn)
    as (self1 & E1 & Ea1 & Hd1).
  { intros tag _. cbn [dict_get].
    rewrite text_eqb_neq; [reflexivity|apply scalars_dir_longer]. }
  exists self1. eexists. split; [exact E1|]. split; [reflexivity|].
  intros tag' a' g' t'.
  unfold add_scalar, bindM. cbn [fetch_if_blob ret].
  unfold _get_file_writer. rewrite Hd1. cbn [self0 set_writers _write_to_disk].
  rewrite Hd. cbn [negb effectM fw_add_summary fw_add_event].
  eexists. split; [reflexivity|].
  rewrite close_result. cbn [all_writers set_writers held_writers values map
                             flat_map flush_and_close get_logdir app trace
                             next_id dirs].
  now rewrite app_nil_r.
Qed.

Lemma add_scalars_writes_without_write_to_disk_witness :
  exists self1 w1,
    add_scalars 7 (str "loss") (array_items [(str "train", mkArray [])])
                (Some 1%Z) None
                (mkWriter (str "runs/exp1") None 10 120 [] false [] None None [])
                fresh_env
    = (Ok tt, self1, w1) /\
    trace w1
    = trace fresh_env
      ++ scalars_trace (str "runs/exp1") (str "loss") (Some 1%Z) (Some 7) 0
                       [(str "train", mkArray [])] /\
    forall tag' a' g' t',
    exists self2,
      add_scalar tag' (PArr a') g' t' self1 w1 = (Ok tt, self2, w1) /\
      close self2 w1 = (Ok tt, set_writers self2 None None, w1).
Proof.
  exact (add_scalars_writes_without_write_to_disk
           (mkWriter (str "runs/exp1") None 10 120 [] false [] None None [])
           fresh_env 7 (str "loss") [(str "train", mkArray [])] (Some 1%Z) None
           eq_refl
           (NoDup_cons (str "train") (fun H : In (str "train") [] => H)
                       (NoDup_nil text))).
Defined.

Lemma get_file_writer_disk (self self' : SummaryWriter) (w w' : env)
      (fw : file_writer) :
  _write_to_disk self = true ->
  _get_file_writer self w = (Ok fw, self', w') ->
  sw_file_writer self' = Some fw /\
  all_writers self' <> None /\
  _write_to_disk self' = true.
Proof.
  intros Hd. unfold _get_file_writer. rewrite Hd. cbn [negb].
  destruct (all_writers self) as [ws|] eqn:Ea;
    destruct (sw_file_writer self) as [f|] eqn:Ef.
  1: { intros [= <- <- <-]. rewrite Ea. repeat split; [exact Ef|discriminate|exact Hd]. }
  all: destruct (dict_get (kwargs self) (str "purge_step")) as [step|];
    unfold new_FileWriter; cbn [kwargs set_kwargs logdir];
    match goal with
    | |- context [match ?k with [] => _ | _ :: _ => _ end] => destruct k
    end;
    intros [= <- <- <-]; repeat split; try discriminate; exact Hd.
Qed.

Lemma get_file_writer_held (self : SummaryWriter) (w : env)
      (fw : file_writer) (ws : list (text * file_writer)) :
  _write_to_disk self = true ->
  sw_file_writer self = Some fw ->
  all_writers self = Some ws ->
  _get_file_writer self w = (Ok fw, self, w).
Proof.
  intros Hd Ef Ea. unfold _get_file_writer. now rewrite Hd, Ea, Ef.
Qed.

(** A turn of the loop that returns leaves a file writer for its tag,
    and keeps those of the other tags. *)
Lemma add_scalars_item_returns (d m : text) (g : option Z) (t : option nat)
      (item : text * pyarg) (self self' : SummaryWriter) (w w' : env) :
  add_scalars_item d m g t item self w = (Ok tt, self', w') ->
  exists ws ws',
    all_writers self = Some ws /\ all_writers self' = Some ws' /\
    dict_get ws' (scalars_dir d m (fst item)) <> None /\
    (forall key, dict_get ws key <> None -> dict_get ws' key <> None) /\
    sw_file_writer self' = sw_file_writer self /\
    _write_to_disk self' = _write_to_disk self.
Proof.
  destruct item as [tag v]. unfold add_scalars_item, bindM.
  fold (scalars_dir d m tag).
  destruct (all_writers self) as [ws|] eqn:Ea; [|discriminate].
  destruct v as [nm|a].
  { destruct (dict_get ws (scalars_dir d m tag)); discriminate. }
  destruct (dict_get ws (scalars_dir d m tag)) as [fw|] eqn:Eg.
  - cbn [fetch_if_blob ret effectM append_to_scalar_dict].
    intros [= <- <-]. exists ws, ws. cbn [all_writers set_scalar_dict fst].
    rewrite Ea, Eg. repeat split; try easy.
  - cbn [new_FileWriter fetch_if_blob ret effectM append_to_scalar_dict].
    intros [= <- <-].
    exists ws, (dict_set ws (scalars_dir d m tag)
                         (FileWriter (next_id w) (scalars_dir d m tag))).
    cbn [all_writers set_scalar_dict set_writers fst sw_file_writer _write_to_disk].
    split; [reflexivity|]. split; [reflexivity|]. split.
    + now rewrite dict_get_set_same.
    + split; [|split; reflexivity].
      intros key Hk.
      destruct (list_eq_dec Ascii.ascii_dec (scalars_dir d m tag) key) as [<-|N].
      * now rewrite dict_get_set_same.
      * now rewrite dict_get_set_other.
Qed.

Lemma add_scalars_loop_returns (d m : text) (g : option Z) (t : option nat)
      (items : list (text * pyarg)) :
  forall self self' w w' ws,
    all_writers self = Some ws ->
    for_each (add_scalars_item d m g t) items self w = (Ok tt, self', w') ->
    exists ws',
      all_writers self' = Some ws' /\
      (forall tag, In tag (map fst items) ->
                   dict_get ws' (scalars_dir d m tag) <> None) /\
      (forall key, dict_get ws key <> None -> dict_get ws' key <> None) /\
      sw_file_writer self' = sw_file_writer self /\
      _write_to_disk self' = _write_to_disk self.
Proof.
  induction items as [|item items IH]; intros self self' w w' ws Ea H.
  - cbn in H. injection H as <- <-. exists ws. repeat split; easy.
  - cbn [for_each] in H. unfold bindM at 1 in H.
    destruct (add_scalars_item d m g t item self w) as [[[u|e] s1] w1] eqn:E1;
      [|discriminate H].
    destruct u.
    destruct (add_scalars_item_returns _ _ _ _ _ _ _ _ _ E1)
      as (ws0 & ws1 & Ea0 & Ea1 & Hg & Hk & Hf & Hd).
    rewrite Ea in Ea0. injection Ea0 as <-.
    destruct (IH _ _ _ _ _ Ea1 H) as (ws' & Ea' & Hg' & Hk' & Hf' & Hd').
    exists ws'. split; [exact Ea'|]. split.
    + intros tag [<-|Hin]; [now apply Hk'|now apply Hg'].
    + split; [|split; congruence].
      intros key Hkey. apply Hk'. now apply Hk.
Qed.

(** A turn of the loop for a tag that has a file writer. *)
Lemma add_scalars_item_found (d m : text) (g : option Z) (t : option nat)
      (tag : text) (a : ndarray) (self : SummaryWriter) (w : env)
      (ws : list (text * file_writer)) (fw : file_writer) :
  all_writers self = Some ws ->
  dict_get ws (scalars_dir d m tag) = Some fw ->
  exists self',
    add_scalars_item d m g t (tag, PArr a) self w
    = (Ok tt, self', fw_add_summary fw (scalar m (PArr a)) g t w) /\
    all_writers self' = Some ws.
Proof.
  intros Ea Eg. unfold add_scalars_item, bindM.
  fold (scalars_dir d m tag). rewrite Ea, Eg.
  cbn [fetch_if_blob ret effectM append_to_scalar_dict].
  eexists. split; [reflexivity|exact Ea].
Qed.

Lemma quiet_add_summary (fw : file_writer) (sm : summary) (g : option Z)
      (t : option nat) (w : env) :
  next_id (fw_add_summary fw sm g t w) = next_id w /\
  exists evs,
    trace (fw_add_summary fw sm g t w) = trace w ++ evs /\ Forall quiet evs.
Proof.
  destruct fw as [d|id d]; cbn.
  - split; [reflexivity|]. exists []. now rewrite app_nil_r.
  - split; [reflexivity|]. eexists. split; [reflexivity|].
    constructor; [exact I|constructor].
Qed.

Lemma add_scalars_loop_found (d m : text) (g : option Z) (t : option nat)
      (items : list (text * ndarray)) :
  forall self w ws,
    all_writers self = Some ws ->
    (forall tag, In tag (map fst items) ->
                 dict_get ws (scalars_dir d m tag) <> None) ->
    exists self' w',
      for_each (add_scalars_item d m g t) (array_items items) self w
      = (Ok tt, self', w') /\
      next_id w' = next_id w /\
      exists evs, trace w' = trace w ++ evs /\ Forall quiet evs.
Proof.
  induction items as [|[tag a] items IH]; intros self w ws Ea Hg.
  - exists self, w. split; [reflexivity|]. split; [reflexivity|].
    exists []. now rewrite app_nil_r.
  - cbn [array_items map for_each fst snd]. fold (array_items items).
    unfold bindM at 1.
    destruct (dict_get ws (scalars_dir d m tag)) as [fw|] eqn:Eg;
      [|exfalso; apply (Hg tag); [now left|exact Eg]].
    destruct (add_scalars_item_found d m g t tag a self w ws fw Ea Eg)
      as (self1 & E1 & Ea1).
    rewrite E1.
    destruct (IH self1 (fw_add_summary fw (scalar m (PArr a)) g t w) ws Ea1)
      as (self2 & w2 & E2 & Hn & evs & Ht & Hq).
    { intros tag' Hin. apply Hg. now right. }
    destruct (quiet_add_summary fw (scalar m (PArr a)) g t w)
      as (Hn1 & evs1 & Ht1 & Hq1).
    exists self2, w2. split; [exact E2|]. split; [congruence|].
    exists (evs1 ++ evs). split.
    + now rewrite Ht, Ht1, app_assoc.
    + now apply Forall_app.
Qed.

(** *** A facade that is not to write to disk *)

Lemma get_file_writer_dummy (self : SummaryWriter) (w : env) :
  _write_to_disk self = false ->
  _get_file_writer self w
  = (Ok (DummyFileWriter (logdir self)),
     set_writers self (Some (DummyFileWriter (logdir self)))
                 (Some [(logdir self, DummyFileWriter (logdir self))]),
     w).
Proof. intros Hd. unfold _get_file_writer. now rewrite Hd. Qed.

(** X16. With [write_to_disk] false, [add_scalar], [add_histogram_raw]
    and [add_image_with_boxes] leave the disk alone, the last one but
    for the warning it may print; [add_embedding] does not: it makes the
    directory of the embedding, or prints the warning that it exists,
    writes the matrix there and adds the embedding to the projector
    configuration. *)
Theorem write_to_disk_false_is_partial (self : SummaryWriter) (w : env) :
  _write_to_disk self = false ->
  (forall tag v g t, snd (add_scalar tag v g t self w) = w) /\
  (forall tag mn mx num sm sq bl bc g t,
      snd (add_histogram_raw tag mn mx num sm sq bl bc g t self w) = w) /\
  (forall tag img box g t df l,
      snd (add_image_with_boxes tag img box g t df l self w) = w \/
      snd (add_image_with_boxes tag img box g t df l self w)
      = emit (Warning labels_warning) w) /\
  (forall mat g tag,
      ndim mat = 2 ->
      exists self' w',
        add_embedding mat None None g tag self w = (Ok tt, self', w') /\
        trace w'
        = trace w
          ++ [if existsb (text_eqb (embedding_path (DummyFileWriter (logdir self)) g tag))
                         (dirs w)
              then Warning exists_warning
              else Makedirs (embedding_path (DummyFileWriter (logdir self)) g tag);
              MakeMat (embedding_path (DummyFileWriter (logdir self)) g tag) mat;
              AppendPbtxt (logdir self)
                          (zfill (str_of_Z (match g with None => 0%Z | Some z => z end)) 5
                           ++ str "/" ++ _encode tag)
                          (match g with None => 0%Z | Some z => z end) tag]).
Proof.
  intros Hd. split; [|split; [|split]].
  - intros tag v g t. unfold add_scalar, bindM.
    destruct v as [nm|a]; [reflexivity|]. cbn [fetch_if_blob ret].
    now rewrite (get_file_writer_dummy _ w Hd).
  - intros tag mn mx num sm sq bl bc g t. unfold add_histogram_raw.
    destruct (negb (length bl =? length bc)); [reflexivity|].
    unfold bindM. now rewrite (get_file_writer_dummy _ w Hd).
  - intros tag img box g t df l. unfold add_image_with_boxes, bindM.
    destruct img as [nm|i]; [now left|]. cbn [fetch_if_blob ret].
    destruct box as [nm|b]; [now left|]. cbn [fetch_if_blob ret].
    destruct l as [|lb|lbs].
    + left. cbn [ret]. now rewrite (get_file_writer_dummy _ w Hd).
    + destruct (shape_at b 0) as [n|e]; [|now left].
      destruct (negb (length [lb] =? n)).
      * right. now rewrite (get_file_writer_dummy _ _ Hd).
      * left. now rewrite (get_file_writer_dummy _ _ Hd).
    + destruct (shape_at b 0) as [n|e]; [|now left].
      destruct (negb (length lbs =? n)).
      * right. now rewrite (get_file_writer_dummy _ _ Hd).
      * left. now rewrite (get_file_writer_dummy _ _ Hd).
  - intros mat g tag Hn. unfold add_embedding. cbn zeta.
    rewrite Hn. cbn [Nat.eqb]. cbv [bindM].
    rewrite (get_file_writer_dummy _ w Hd).
    cbv [makedirs_or_warn effectM ret assert]. cbv beta iota.
    rewrite get_file_writer_dummy by exact Hd.
    eexists. eexists. split; [reflexivity|].
    unfold embedding_path. cbn [get_logdir set_writers logdir].
    destruct (existsb _ (dirs w)); cbn [emit trace];
      rewrite <- ?app_assoc; reflexivity.
Qed.

Lemma write_to_disk_false_is_partial_witness :
  exists self' w',
    add_embedding (mkArray [3; 4]) None None (Some 2%Z) (str "a/b")
                  (mkWriter (str "runs/exp1") None 10 120 [] false [] None None [])
                  fresh_env
    = (Ok tt, self', w') /\
    trace w'
    = [Makedirs (str "runs/exp1/00002/a%2fb");
       MakeMat (str "runs/exp1/00002/a%2fb") (mkArray [3; 4]);
       AppendPbtxt (str "runs/exp1") (str "00002/a%2fb") 2%Z (str "a/b")].
Proof.
  destruct (write_to_disk_false_is_partial
              (mkWriter (str "runs/exp1") None 10 120 [] false [] None None [])
              fresh_env eq_refl) as (_ & _ & _ & H).
  exact (H (mkArray [3; 4]) (Some 2%Z) (str "a/b") eq_refl).
Defined.

(** *** [purge_step] *)

Lemma unpurged_env (self self' : SummaryWriter) (w w' : env) (evs : list effect) :
  kwargs self' = kwargs self ->
  trace w' = trace w ++ evs ->
  Forall no_purge evs ->
  unpurged self w -> unpurged self' w'.
Proof.
  intros Ek Et He [H1 H2]. split; [now rewrite Ek|].
  rewrite Et. now apply Forall_app.
Qed.

Lemma unpurged_self (self self' : SummaryWriter) (w : env) :
  kwargs self' = kwargs self -> unpurged self w -> unpurged self' w.
Proof.
  intros Ek H. apply (unpurged_env self self' w w []); try easy.
  now rewrite app_nil_r.
Qed.

Lemma unpurged_emit (self : SummaryWriter) (w : env) (e : effect) :
  no_purge e -> unpurged self w -> unpurged self (emit e w).
Proof.
  intros He H. apply (unpurged_env self self w _ [e]); try easy.
  now constructor.
Qed.

Lemma unpurged_add_summary (self : SummaryWriter) (w : env) (fw : file_writer)
      (sm : summary) (g : option Z) (t : option nat) :
  unpurged self w -> unpurged self (fw_add_summary fw sm g t w).
Proof.
  intros H. destruct fw as [d|id d]; [exact H|]. now apply unpurged_emit.
Qed.

Lemma purge_keeps_effect (f : env -> env) :
  (forall self w, unpurged self w -> unpurged self (f w)) ->
  keeps unpurged (effectM f).
Proof. intros Hf self w H. now apply Hf. Qed.

Lemma purge_keeps_emit (e : effect) : no_purge e -> keeps unpurged (effectM (emit e)).
Proof. intros He. apply purge_keeps_effect. intros. now apply unpurged_emit. Qed.

Lemma purge_keeps_add_summary (fw : file_writer) (sm : summary)
      (g : option Z) (t : option nat) :
  keeps unpurged (effectM (fw_add_summary fw sm g t)).
Proof. apply purge_keeps_effect. intros. now apply unpurged_add_summary. Qed.

Lemma purge_keeps_fetch (item : pyarg) : keeps unpurged (fetch_if_blob item).
Proof. destruct item; [apply keeps_raise|apply keeps_ret]. Qed.

Lemma purge_keeps_get_file_writer : keeps unpurged _get_file_writer.
Proof.
  intros self w H. pose proof H as [Hk Ht]. unfold _get_file_writer.
  destruct (negb (_write_to_disk self)).
  { cbn [fst snd]. now apply (unpurged_self self). }
  destruct (all_writers self) as [ws|]; destruct (sw_file_writer self) as [fw|];
    try exact H; rewrite Hk; unfold new_FileWriter;
    destruct (kwargs self) as [|kv kw] eqn:Ek; try exact H; cbn [fst snd];
    (apply (unpurged_env self _ w _ [Open (next_id w) (logdir self)]);
     [reflexivity|reflexivity|now repeat constructor|exact H]).
Qed.

Lemma purge_keeps_add_scalar (tag : text) (v : pyarg) (g : option Z)
      (t : option nat) :
  keeps unpurged (add_scalar tag v g t).
Proof.
  unfold add_scalar.
  apply keeps_bind; [apply purge_keeps_fetch|intros a].
  apply keeps_bind; [apply purge_keeps_get_file_writer|intros fw].
  apply purge_keeps_add_summary.
Qed.

Lemma purge_keeps_add_histogram_raw (tag : text) (mn mx num sm sq : Z)
      (bl bc : list Z) (g : option Z) (t : option nat) :
  keeps unpurged (add_histogram_raw tag mn mx num sm sq bl bc g t).
Proof.
  unfold add_histogram_raw.
  destruct (negb (length bl =? length bc)); [apply keeps_raise|].
  apply keeps_bind; [apply purge_keeps_get_file_writer|intros fw].
  apply purge_keeps_add_summary.
Qed.

Lemma purge_keeps_add_image_with_boxes (tag : text) (img box : pyarg)
      (g : option Z) (t : option nat) (df : text) (l : labels_arg) :
  keeps unpurged (add_image_with_boxes tag img box g t df l).
Proof.
  unfold add_image_with_boxes.
  apply keeps_bind; [apply purge_keeps_fetch|intros i].
  apply keeps_bind; [apply purge_keeps_fetch|intros b].
  apply keeps_bind.
  - assert (K : forall ls : list text, keeps unpurged (fun self w =>
                match shape_at b 0 with
                | Raise e => (Raise e, self, w)
                | Ok n =>
                    if negb (length ls =? n)
                    then (Ok (@None (list text)), self,
                          emit (Warning labels_warning) w)
                    else (Ok (Some ls), self, w)
                end)).
    { intros ls self w H. destruct (shape_at b 0) as [n|e]; [|exact H].
      destruct (negb (length ls =? n)); [|exact H].
      cbn [fst snd]. now apply unpurged_emit. }
    destruct l; [apply keeps_ret|apply K|apply K].
  - intros lb. apply keeps_bind; [apply purge_keeps_get_file_writer|intros fw].
    apply purge_keeps_add_summary.
Qed.

Lemma purge_keeps_makedirs (save_path : text) :
  keeps unpurged (makedirs_or_warn save_path).
Proof.
  apply purge_keeps_effect. intros self w H.
  destruct (existsb (text_eqb save_path) (dirs w)).
  - now apply unpurged_emit.
  - apply (unpurged_env self self w _ [Makedirs save_path]); try easy.
    now repeat constructor.
Qed.

Lemma purge_keeps_add_embedding (mat : ndarray) (md : option (list text))
      (img : option ndarray) (g : option Z) (tag : text) :
  keeps unpurged (add_embedding mat md img g tag).
Proof.
  unfold add_embedding. cbn zeta.
  apply keeps_bind; [apply purge_keeps_get_file_writer|intros fw].
  apply keeps_bind; [apply purge_keeps_makedirs|intros _].
  apply keeps_bind.
  { destruct md as [m|]; [|apply keeps_ret].
    apply keeps_bind; [apply keeps_lift|intros n].
    apply keeps_bind; [apply keeps_assert|intros _].
    now apply purge_keeps_emit. }
  intros _. apply keeps_bind.
  { destruct img as [i|]; [|apply keeps_ret].
    apply keeps_bind; [apply keeps_lift|intros n].
    apply keeps_bind; [apply keeps_lift|intros m].
    apply keeps_bind; [apply keeps_assert|intros _].
    apply keeps_bind; [apply keeps_lift|intros h].
    apply keeps_bind; [apply keeps_lift|intros v].
    apply keeps_bind; [apply keeps_assert|intros _].
    now apply purge_keeps_emit. }
  intros _. apply keeps_bind; [apply keeps_assert|intros _].
  apply keeps_bind; [now apply purge_keeps_emit|intros _].
  apply keeps_bind; [apply purge_keeps_get_file_writer|intros fw'].
  now apply purge_keeps_emit.
Qed.

Lemma purge_keeps_add_scalars_item (fw_logdir main_tag : text)
      (g : option Z) (t : option nat) (item : text * pyarg) :
  keeps unpurged (add_scalars_item fw_logdir main_tag g t item).
Proof.
  destruct item as [tag v]. unfold add_scalars_item.
  apply keeps_bind.
  { intros self w H.
    destruct (all_writers self) as [ws|]; [|exact H].
    destruct (dict_get ws _) as [fw|]; [exact H|].
    cbn [new_FileWriter fst snd].
    apply (unpurged_env self _ w _
             [Open (next_id w) (fw_logdir ++ str "/" ++ main_tag ++ str "/" ++ tag)]);
      [reflexivity|reflexivity|now repeat constructor|exact H]. }
  intros fw. apply keeps_bind; [apply purge_keeps_fetch|intros a].
  apply keeps_bind; [apply purge_keeps_add_summary|intros _].
  intros self w H. cbn [append_to_scalar_dict fst snd].
  now apply (unpurged_self self).
Qed.

Lemma purge_keeps_add_scalars (now : nat) (main_tag : text)
      (d : list (text * pyarg)) (g : option Z) (t : option nat) :
  keeps unpurged (add_scalars now main_tag d g t).
Proof.
  unfold add_scalars. cbn zeta.
  apply keeps_bind; [apply purge_keeps_get_file_writer|intros fw].
  apply keeps_for_each. intros item. apply purge_keeps_add_scalars_item.
Qed.

Lemma no_purge_flush_and_close (fws : list file_writer) :
  Forall no_purge (flat_map flush_and_close fws).
Proof.
  induction fws as [|fw fws IH]; [constructor|].
  cbn [flat_map]. apply Forall_app. split; [|exact IH].
  destruct fw; cbn; repeat constructor.
Qed.

Lemma purge_keeps_close : keeps unpurged close.
Proof.
  intros self w H. rewrite close_result. cbn [fst snd].
  apply (unpurged_env self _ w _ (flat_map flush_and_close (held_writers self)));
    [now destruct (all_writers self)|reflexivity|
     apply no_purge_flush_and_close|exact H].
Qed.

Lemma flush_all_trace (fws : list file_writer) :
  forall w,
    exists evs,
      trace (fold_left (fun w writer => fw_flush writer w) fws w) = trace w ++ evs /\
      Forall no_purge evs.
Proof.
  induction fws as [|fw fws IH]; intros w.
  - exists []. now rewrite app_nil_r.
  - cbn [fold_left]. destruct (IH (fw_flush fw w)) as (evs & Et & He).
    destruct fw as [d|id d]; cbn [fw_flush] in *.
    + now exists evs.
    + exists (Flush id :: evs). split.
      * rewrite Et. cbn [emit trace]. now rewrite <- app_assoc.
      * now constructor.
Qed.

Lemma purge_keeps_flush : keeps unpurged flush.
Proof.
  intros self w H. unfold flush.
  destruct (all_writers self) as [ws|]; [|exact H]. cbn [fst snd].
  destruct (flush_all_trace (values ws) w) as (evs & Et & He).
  now apply (unpurged_env self self w _ evs).
Qed.

Lemma with_writer_unpurged (A : Type) (hp : SummaryWriter) (body : M A)
      (w : env) :
  keeps unpurged body ->
  unpurged hp w ->
  Forall no_purge (trace (snd (with_writer hp body w))).
Proof.
  intros Kb H. unfold with_writer.
  specialize (Kb hp w H).
  destruct (body hp w) as [[r hp'] w']. cbn [fst snd] in Kb.
  pose proof (purge_keeps_close hp' w' Kb) as [_ H3].
  destruct (close hp' w') as [[[u|e] hp''] w'']; exact H3.
Qed.

Lemma purge_keeps_add_hparams (now : text) (hp md : pyobj) :
  keeps unpurged (add_hparams now hp md).
Proof.
  intros self w H. unfold add_hparams.
  destruct hp as [|hpd|]; try exact H.
  destruct md as [|mdd|]; try exact H.
  destruct (sw_file_writer self) as [fw|] eqn:Ef; [|exact H].
  assert (Ei : exists d0,
             init [] (Some (path_join (get_logdir fw) now)) [] None
                  10 120 [] true None [] w
             = (Ok (mkWriter d0 None 10 120 [] true []
                             (Some (FileWriter (next_id w) d0))
                             (Some [(d0, FileWriter (next_id w) d0)]) []),
                mkEnv (trace w ++ [Open (next_id w) d0]) (S (next_id w)) (dirs w))).
  { unfold init. cbn zeta.
    destruct (path_join (get_logdir fw) now); eexists; reflexivity. }
  destruct Ei as (d0 & Ei). rewrite Ei.
  set (hp1 := mkWriter d0 None 10 120 [] true []
                       (Some (FileWriter (next_id w) d0))
                       (Some [(d0, FileWriter (next_id w) d0)]) []).
  set (w1 := mkEnv (trace w ++ [Open (next_id w) d0]) (S (next_id w)) (dirs w)).
  assert (H1 : unpurged hp1 w1).
  { split; [reflexivity|]. unfold w1. cbn [trace].
    apply Forall_app. split; [exact (proj2 H)|now repeat constructor]. }
  match goal with
  | |- context [with_writer hp1 ?b w1] =>
      pose proof (with_writer_unpurged unit hp1 b w1) as Hw;
      destruct (with_writer hp1 b w1) as [r w2]
  end.
  cbn [fst snd] in *.
  split; [exact (proj1 H)|].
  apply Hw; [|exact H1].
  intros hpx wx Hx.
  destruct (sw_file_writer hpx) as [f|]; [|exact Hx].
  apply (keeps_for_each unpurged).
  - intros kv. apply purge_keeps_add_scalar.
  - now repeat apply unpurged_add_summary.
Qed.

Lemma purge_keeps_exec (c : call) : keeps unpurged (exec c).
Proof.
  destruct c; cbn [exec].
  - apply purge_keeps_add_scalar.
  - apply purge_keeps_add_scalars.
  - apply purge_keeps_add_histogram_raw.
  - apply purge_keeps_add_image_with_boxes.
  - apply purge_keeps_add_embedding.
  - apply purge_keeps_add_hparams.
  - apply purge_keeps_flush.
  - apply purge_keeps_close.
Qed.

(** X17. The [purge_step] given to the constructor is stored and never
    used.  A call binds [purge_step] to the parameter of that name, so
    the keyword arguments have no such key; then the facade that [init]
    returns is the one it returns without a [purge_step] but for the
    field that stores it, with the same calls made on the collaborators,
    and no method ever adds the two events that start a purge. *)
Theorem purge_step_is_never_used
        (run_name : text) (logdir_arg : option text) (comment : text)
        (purge : option Z) (max_queue flush_secs : nat) (suffix : text)
        (write_to_disk : bool) (log_dir : option text) (kw : list (text * Z))
        (w0 w : env) (self : SummaryWriter) (cs : list call) :
  dict_get kw (str "purge_step") = None ->
  Forall no_purge (trace w0) ->
  init run_name logdir_arg comment purge max_queue flush_secs suffix
       write_to_disk log_dir kw w0 = (Ok self, w) ->
  (exists self0,
      init run_name logdir_arg comment None max_queue flush_secs suffix
           write_to_disk log_dir kw w0 = (Ok self0, w) /\
      self = mkWriter (logdir self0) purge (_max_queue self0) (_flush_secs self0)
                      (_filename_suffix self0) (_write_to_disk self0)
                      (kwargs self0) (sw_file_writer self0) (all_writers self0)
                      (scalar_dict self0)) /\
  Forall no_purge (trace (snd (exec_all cs self w))).
Proof.
  intros Hk H0 Hi. split.
  - revert Hi. unfold init. cbn zeta.
    unfold _get_file_writer. cbn [_write_to_disk all_writers sw_file_writer kwargs].
    destruct write_to_disk; cbn [negb].
    + rewrite Hk. unfold new_FileWriter. cbn [kwargs logdir].
      destruct kw as [|kv kw']; [|discriminate].
      intros [= <- <-]. eexists. split; reflexivity.
    + intros [= <- <-]. eexists. split; reflexivity.
  - assert (H : unpurged self w).
    { revert Hi. unfold init. cbn zeta.
      match goal with
      | |- context [_get_file_writer ?s0 w0] =>
          pose proof (purge_keeps_get_file_writer s0 w0) as K;
          destruct (_get_file_writer s0 w0) as [[[fw|e] s1] w1]
      end; [|discriminate].
      intros [= <- <-]. apply K. split; [exact Hk|exact H0]. }
    clear Hi. revert self w H.
    induction cs as [|c cs IH]; intros self w H; [exact (proj2 H)|].
    cbn [exec_all]. pose proof (purge_keeps_exec c self w H) as Hc.
    destruct (exec c self w) as [[r self'] w']. now apply IH.
Qed.

Lemma purge_step_is_never_used_witness :
  Forall no_purge
    (trace (snd (exec_all
                   [CallAddScalar (str "acc") (PArr (mkArray [])) (Some 7%Z) None;
                    CallClose;
                    CallAddScalar (str "acc") (PArr (mkArray [])) (Some 8%Z) None]
                   (mkWriter (str "runs/exp1") (Some 5%Z) 10 120 [] true []
                             (Some first_writer)
                             (Some [(str "runs/exp1", first_writer)]) [])
                   (mkEnv [Open 0 (str "runs/exp1")] 1 [])))).
Proof.
  exact (proj2 (purge_step_is_never_used
                  [] (Some (str "runs/exp1")) [] (Some 5%Z) 10 120 [] true None []
                  fresh_env (mkEnv [Open 0 (str "runs/exp1")] 1 [])
                  (mkWriter (str "runs/exp1") (Some 5%Z) 10 120 [] true []
                            (Some first_writer)
                            (Some [(str "runs/exp1", first_writer)]) [])
                  [CallAddScalar (str "acc") (PArr (mkArray [])) (Some 7%Z) None;
                   CallClose;
                   CallAddScalar (str "acc") (PArr (mkArray [])) (Some 8%Z) None]
                  eq_refl (Forall_nil no_purge) eq_refl)).
Defined.

(** *** Calls made in between *)

Lemma add_embedding_split (mat : ndarray) (md : option (list text))
      (img : option ndarray) (g : option Z) (tag : text) :
  add_embedding mat md img g tag
  = (fw <- _get_file_writer ;;
     makedirs_or_warn (embedding_path fw g tag) ;;
     embedding_files mat md img g tag fw).
Proof. reflexivity. Qed.




Section Kept.

Variable J : SummaryWriter -> Prop.
Variable Q : env -> Prop.

Hypothesis J_get :
  forall self w, J self -> J (snd (fst (_get_file_writer self w))).
Hypothesis J_item :
  forall self ws key fw,
    J self -> all_writers self = Some ws -> dict_get ws key = None ->
    J (set_writers self (sw_file_writer self) (Some (dict_set ws key fw))).
Hypothesis J_dict : forall self dct, J self -> J (set_scalar_dict self dct).
Hypothesis Q_emit : forall e w, not_makedirs e -> Q w -> Q (emit e w).
Hypothesis Q_open :
  forall w d,
    Q w -> Q (mkEnv (trace w ++ [Open (next_id w) d]) (S (next_id w)) (dirs w)).
Hypothesis Q_made :
  forall w p,
    Q w -> Q (mkEnv (trace w ++ [Makedirs p]) (next_id w) (p :: dirs w)).

Lemma kept_effect (f : env -> env) :
  (forall w, Q w -> Q (f w)) -> keeps (both J Q) (effectM f).
Proof. intros Hf self w [HJ HQ]. split; [exact HJ|now apply Hf]. Qed.

Lemma kept_emit (e : effect) :
  not_makedirs e -> keeps (both J Q) (effectM (emit e)).
Proof. intros He. apply kept_effect. intros w. now apply Q_emit. Qed.

Lemma Q_add_event (fw : file_writer) (p : payload) (g : option Z)
      (t : option nat) (w : env) :
  Q w -> Q (fw_add_event fw p g t w).
Proof. destruct fw; [easy|]. intros H. now apply Q_emit. Qed.

Lemma Q_flush (fw : file_writer) (w : env) : Q w -> Q (fw_flush fw w).
Proof. destruct fw; [easy|]. intros H. now apply Q_emit. Qed.

Lemma Q_close (fw : file_writer) (w : env) : Q w -> Q (fw_close fw w).
Proof. destruct fw; [easy|]. intros H. now apply Q_emit. Qed.

Lemma kept_add_summary (fw : file_writer) (sm : summary) (g : option Z)
      (t : option nat) :
  keeps (both J Q) (effectM (fw_add_summary fw sm g t)).
Proof. apply kept_effect. intros w. apply Q_add_event. Qed.

Lemma Q_get_file_writer (self : SummaryWriter) (w : env) :
  Q w -> Q (snd (_get_file_writer self w)).
Proof.
  intros H. unfold _get_file_writer.
  destruct (negb (_write_to_disk self)); [exact H|].
  destruct (all_writers self) as [ws|]; destruct (sw_file_writer self) as [fw|];
    try exact H;
    destruct (dict_get (kwargs self) (str "purge_step")) as [step|];
    unfold new_FileWriter; cbn [kwargs set_kwargs logdir];
    match goal with
    | |- context [match ?k with [] => _ | _ :: _ => _ end] => destruct k
    end;
    cbn [fst snd]; try exact H;
    try (apply Q_add_event, Q_add_event, Q_open; exact H);
    apply Q_open; exact H.
Qed.

Lemma kept_get_file_writer : keeps (both J Q) _get_file_writer.
Proof.
  intros self w [HJ HQ]. split; [now apply J_get|now apply Q_get_file_writer].
Qed.

Lemma kept_fetch (item : pyarg) : keeps (both J Q) (fetch_if_blob item).
Proof. destruct item; [apply keeps_raise|apply keeps_ret]. Qed.

Lemma kept_add_scalar (tag : text) (v : pyarg) (g : option Z) (t : option nat) :
  keeps (both J Q) (add_scalar tag v g t).
Proof.
  unfold add_scalar.
  apply keeps_bind; [apply kept_fetch|intros a].
  apply keeps_bind; [apply kept_get_file_writer|intros fw].
  apply kept_add_summary.
Qed.

Lemma kept_add_histogram_raw (tag : text) (mn mx num sm sq : Z)
      (bl bc : list Z) (g : option Z) (t : option nat) :
  keeps (both J Q) (add_histogram_raw tag mn mx num sm sq bl bc g t).
Proof.
  unfold add_histogram_raw.
  destruct (negb (length bl =? length bc)); [apply keeps_raise|].
  apply keeps_bind; [apply kept_get_file_writer|intros fw].
  apply kept_add_summary.
Qed.

Lemma kept_add_image_with_boxes (tag : text) (img box : pyarg)
      (g : option Z) (t : option nat) (df : text) (l : labels_arg) :
  keeps (both J Q) (add_image_with_boxes tag img box g t df l).
Proof.
  unfold add_image_with_boxes.
  apply keeps_bind; [apply kept_fetch|intros i].
  apply keeps_bind; [apply kept_fetch|intros b].
  apply keeps_bind.
  - assert (K : forall ls : list text, keeps (both J Q) (fun self w =>
                match shape_at b 0 with
                | Raise e => (Raise e, self, w)
                | Ok n =>
                    if negb (length ls =? n)
                    then (Ok (@None (list text)), self,
                          emit (Warning labels_warning) w)
                    else (Ok (Some ls), self, w)
                end)).
    { intros ls self w H. destruct (shape_at b 0) as [n|e]; [|exact H].
      destruct (negb (length ls =? n)); [|exact H].
      cbn [fst snd]. destruct H as [HJ HQ]. split; [exact HJ|].
      now apply Q_emit. }
    destruct l; [apply keeps_ret|apply K|apply K].
  - intros lb. apply keeps_bind; [apply kept_get_file_writer|intros fw].
    apply kept_add_summary.
Qed.

Lemma kept_makedirs (save_path : text) :
  keeps (both J Q) (makedirs_or_warn save_path).
Proof.
  apply kept_effect. intros w H.
  destruct (existsb (text_eqb save_path) (dirs w)).
  - now apply Q_emit.
  - now apply Q_made.
Qed.

Lemma kept_embedding_files (mat : ndarray) (md : option (list text))
      (img : option ndarray) (g : option Z) (tag : text) (fw : file_writer) :
  keeps (both J Q) (embedding_files mat md img g tag fw).
Proof.
  unfold embedding_files. cbn zeta.
  apply keeps_bind.
  { destruct md as [m|]; [|apply keeps_ret].
    apply keeps_bind; [apply keeps_lift|intros n].
    apply keeps_bind; [apply keeps_assert|intros _].
    now apply kept_emit. }
  intros _. apply keeps_bind.
  { destruct img as [i|]; [|apply keeps_ret].
    apply keeps_bind; [apply keeps_lift|intros n].
    apply keeps_bind; [apply keeps_lift|intros m].
    apply keeps_bind; [apply keeps_assert|intros _].
    apply keeps_bind; [apply keeps_lift|intros h].
    apply keeps_bind; [apply keeps_lift|intros v].
    apply keeps_bind; [apply keeps_assert|intros _].
    now apply kept_emit. }
  intros _. apply keeps_bind; [apply keeps_assert|intros _].
  apply keeps_bind; [now apply kept_emit|intros _].
  apply keeps_bind; [apply kept_get_file_writer|intros fw'].
  now apply kept_emit.
Qed.

Lemma kept_add_embedding (mat : ndarray) (md : option (list text))
      (img : option ndarray) (g : option Z) (tag : text) :
  keeps (both J Q) (add_embedding mat md img g tag).
Proof.
  rewrite add_embedding_split.
  apply keeps_bind; [apply kept_get_file_writer|intros fw].
  apply keeps_bind; [apply kept_makedirs|intros _].
  apply kept_embedding_files.
Qed.

Lemma kept_add_scalars_item (fw_logdir main_tag : text)
      (g : option Z) (t : option nat) (item : text * pyarg) :
  keeps (both J Q) (add_scalars_item fw_logdir main_tag g t item).
Proof.
  destruct item as [tag v]. unfold add_scalars_item.
  apply keeps_bind.
  { intros self w [HJ HQ].
    destruct (all_writers self) as [ws|] eqn:Ea; [|now split].
    destruct (dict_get ws _) as [fw|] eqn:Eg; [now split|].
    cbn [new_FileWriter fst snd]. split; [now apply J_item|now apply Q_open]. }
  intros fw. apply keeps_bind; [apply kept_fetch|intros a].
  apply keeps_bind; [apply kept_add_summary|intros _].
  intros self w [HJ HQ]. cbn [append_to_scalar_dict fst snd].
  split; [now apply J_dict|exact HQ].
Qed.

Lemma kept_add_scalars (now : nat) (main_tag : text)
      (d : list (text * pyarg)) (g : option Z) (t : option nat) :
  keeps (both J Q) (add_scalars now main_tag d g t).
Proof.
  unfold add_scalars. cbn zeta.
  apply keeps_bind; [apply kept_get_file_writer|intros fw].
  apply keeps_for_each. intros item. apply kept_add_scalars_item.
Qed.

Lemma Q_flush_all (fws : list file_writer) :
  forall w, Q w -> Q (fold_left (fun w writer => fw_flush writer w) fws w).
Proof.
  induction fws as [|fw fws IH]; intros w H; [exact H|].
  cbn [fold_left]. apply IH. now apply Q_flush.
Qed.

Lemma kept_flush : keeps (both J Q) flush.
Proof.
  intros self w [HJ HQ]. unfold flush.
  destruct (all_writers self) as [ws|]; [|now split].
  cbn [fst snd]. split; [exact HJ|now apply Q_flush_all].
Qed.

Lemma Q_close_all (fws : list file_writer) :
  forall w,
    Q w ->
    Q (fold_left (fun w writer => fw_close writer (fw_flush writer w)) fws w).
Proof.
  induction fws as [|fw fws IH]; intros w H; [exact H|].
  cbn [fold_left]. apply IH. now apply Q_close, Q_flush.
Qed.

Lemma Q_closed (self : SummaryWriter) (w : env) :
  Q w -> Q (snd (close self w)).
Proof.
  intros H. unfold close. destruct (all_writers self) as [ws|]; [|exact H].
  cbn [snd]. now apply Q_close_all.
Qed.

End Kept.

Section KeptCalls.

Variable J : SummaryWriter -> Prop.
Variable Q : env -> Prop.

Hypothesis J_get :
  forall self w, J self -> J (snd (fst (_get_file_writer self w))).
Hypothesis J_item :
  forall self ws key fw,
    J self -> all_writers self = Some ws -> dict_get ws key = None ->
    J (set_writers self (sw_file_writer self) (Some (dict_set ws key fw))).
Hypothesis J_dict : forall self dct, J self -> J (set_scalar_dict self dct).
Hypothesis Q_emit : forall e w, not_makedirs e -> Q w -> Q (emit e w).
Hypothesis Q_open :
  forall w d,
    Q w -> Q (mkEnv (trace w ++ [Open (next_id w) d]) (S (next_id w)) (dirs w)).
Hypothesis Q_made :
  forall w p,
    Q w -> Q (mkEnv (trace w ++ [Makedirs p]) (next_id w) (p :: dirs w)).

(** The facade that [add_hparams] makes runs on the same collaborators. *)
Lemma kept_add_hparams (now : text) (hp md : pyobj) :
  keeps (both J Q) (add_hparams now hp md).
Proof.
  intros self w H. unfold add_hparams.
  destruct hp as [|hpd|]; try exact H.
  destruct md as [|mdd|]; try exact H.
  destruct (sw_file_writer self) as [fw|] eqn:Ef; [|exact H].
  assert (Ei : exists d0,
             init [] (Some (path_join (get_logdir fw) now)) [] None
                  10 120 [] true None [] w
             = (Ok (mkWriter d0 None 10 120 [] true []
                             (Some (FileWriter (next_id w) d0))
                             (Some [(d0, FileWriter (next_id w) d0)]) []),
                mkEnv (trace w ++ [Open (next_id w) d0]) (S (next_id w)) (dirs w))).
  { unfold init. cbn zeta.
    destruct (path_join (get_logdir fw) now); eexists; reflexivity. }
  destruct Ei as (d0 & Ei). rewrite Ei.
  set (hp1 := mkWriter d0 None 10 120 [] true []
                       (Some (FileWriter (next_id w) d0))
                       (Some [(d0, FileWriter (next_id w) d0)]) []).
  set (w1 := mkEnv (trace w ++ [Open (next_id w) d0]) (S (next_id w)) (dirs w)).
  assert (H1 : both (fun _ => True) Q hp1 w1).
  { split; [exact I|]. apply Q_open. exact (proj2 H). }
  assert (G : forall (b : M unit),
             keeps (both (fun _ => True) Q) b ->
             Q (snd (with_writer hp1 b w1))).
  { intros b Kb. unfold with_writer. specialize (Kb hp1 w1 H1).
    destruct (b hp1 w1) as [[r hp2] w2]. cbn [fst snd] in Kb.
    pose proof (Q_closed Q Q_emit hp2 w2 (proj2 Kb)) as H3.
    destruct (close hp2 w2) as [[[u|e] hp3] w3]; exact H3. }
  match goal with
  | |- context [with_writer hp1 ?b w1] =>
      specialize (G b); destruct (with_writer hp1 b w1) as [r w2]
  end.
  cbn [fst snd] in *. split; [exact (proj1 H)|]. apply G.
  intros hpx wx Hx.
  destruct (sw_file_writer hpx) as [f|]; [|exact Hx].
  apply (keeps_for_each (both (fun _ => True) Q)).
  - intros kv. apply kept_add_scalar; [easy|exact Q_emit|exact Q_open].
  - split; [exact I|]. unfold fw_add_summary.
    do 3 apply (Q_add_event Q Q_emit). exact (proj2 Hx).
Qed.

Lemma kept_exec (c : call) : not_close c -> keeps (both J Q) (exec c).
Proof.
  destruct c; cbn [exec not_close]; intros Hc; try contradiction.
  - apply kept_add_scalar; assumption.
  - apply kept_add_scalars; assumption.
  - apply kept_add_histogram_raw; assumption.
  - apply kept_add_image_with_boxes; assumption.
  - apply kept_add_embedding; assumption.
  - apply kept_add_hparams.
  - apply kept_flush; assumption.
Qed.

Lemma kept_exec_all (cs : list call) :
  Forall not_close cs ->
  forall self w,
    both J Q self w ->
    both J Q (fst (exec_all cs self w)) (snd (exec_all cs self w)).
Proof.
  induction 1 as [|c cs Hc Hcs IH]; intros self w H; [exact H|].
  cbn [exec_all]. pose proof (kept_exec c Hc self w H) as Hk.
  destruct (exec c self w) as [[r self'] w']. now apply IH.
Qed.

End KeptCalls.

(** The default file writer stays. *)
Lemma stays_get (d : text) (K : list text) (self : SummaryWriter) (w : env) :
  stays d K self ->
  exists fw self',
    _get_file_writer self w = (Ok fw, self', w) /\
    get_logdir fw = d /\ stays d K self' /\
    _write_to_disk self' = _write_to_disk self.
Proof.
  unfold stays. destruct (_write_to_disk self) eqn:Hd.
  - intros (fw & ws & Hf & Ha & Hl & Hk). exists fw, self.
    split; [now apply (get_file_writer_held self w fw ws)|].
    split; [exact Hl|]. rewrite Hd. split; [|reflexivity].
    now exists fw, ws.
  - intros Hl. eexists. eexists.
    split; [apply (get_file_writer_dummy self w Hd)|].
    cbn [get_logdir set_writers _write_to_disk logdir]. rewrite Hd.
    repeat split; exact Hl.
Qed.


Lemma stays_kept_item (d : text) (K : list text) (self : SummaryWriter)
      (ws : list (text * file_writer)) (key : text) (fw : file_writer) :
  stays d K self -> all_writers self = Some ws -> dict_get ws key = None ->
  stays d K (set_writers self (sw_file_writer self) (Some (dict_set ws key fw))).
Proof.
  unfold stays. cbn [set_writers _write_to_disk sw_file_writer all_writers logdir].
  destruct (_write_to_disk self); [|easy].
  intros (fw0 & ws0 & Hf & Ha & Hl & Hk) Ea Eg.
  rewrite Ea in Ha. injection Ha as <-.
  exists fw0, (dict_set ws key fw). repeat split; try assumption.
  intros key' Hin.
  destruct (list_eq_dec Ascii.ascii_dec key key') as [<-|N].
  - now rewrite dict_get_set_same.
  - rewrite dict_get_set_other by exact N. now apply Hk.
Qed.

Lemma stays_kept_dict (d : text) (K : list text) (self : SummaryWriter)
      (dct : list (text * list (option nat * option Z * pyarg))) :
  stays d K self -> stays d K (set_scalar_dict self dct).
Proof. intros H. exact H. Qed.


(** X15. A facade that writes to disk keeps one file writer for each
    tag of [add_scalars]: when a call has returned, a call made later
    with the same main tag and tags of that call, after any calls of
    the methods other than [close], returns, opens no file writer and
    closes none. *)
Theorem add_scalars_reuses_file_writers
        (self self1 : SummaryWriter) (w w1 : env) (now : nat) (main_tag : text)
        (items : list (text * pyarg)) (g : option Z) (t : option nat)
        (cs : list call)
        (now' : nat) (items' : list (text * ndarray))
        (g' : option Z) (t' : option nat) :
  _write_to_disk self = true ->
  add_scalars now main_tag items g t self w = (Ok tt, self1, w1) ->
  Forall not_close cs ->
  (forall tag, In tag (map fst items') -> In tag (map fst items)) ->
  exists self3 w3,
    add_scalars now' main_tag (array_items items') g' t'
                (fst (exec_all cs self1 w1)) (snd (exec_all cs self1 w1))
    = (Ok tt, self3, w3) /\
    next_id w3 = next_id (snd (exec_all cs self1 w1)) /\
    exists evs,
      trace w3 = trace (snd (exec_all cs self1 w1)) ++ evs /\ Forall quiet evs.
Proof.
  intros Hd H Hcs Hsub. unfold add_scalars in H. cbn zeta in H.
  unfold bindM at 1 in H.
  destruct (_get_file_writer self w) as [[[fw|e] s0] w0] eqn:E0; [|discriminate H].
  destruct (get_file_writer_disk _ _ _ _ _ Hd E0) as (Hf0 & Ha0 & Hd0).
  destruct (all_writers s0) as [ws0|] eqn:Ea0; [|contradiction].
  destruct (add_scalars_loop_returns _ _ _ _ _ _ _ _ _ _ Ea0 H)
    as (ws1 & Ea1 & Hg1 & _ & Hf1 & Hd1).
  set (d := get_logdir fw) in *.
  set (K := map (scalars_dir d main_tag) (map fst items)).
  set (J := fun s : SummaryWriter => _write_to_disk s = true /\ stays d K s).
  assert (HJ : J self1).
  { split; [congruence|]. unfold stays.
    replace (_write_to_disk self1) with true by congruence.
    exists fw, ws1. split; [congruence|]. split; [exact Ea1|].
    split; [reflexivity|].
    intros key Hin. unfold K in Hin. apply in_map_iff in Hin.
    destruct Hin as (tag & <- & Hin). now apply Hg1. }
  assert (H2 : both J (fun _ => True) (fst (exec_all cs self1 w1))
                    (snd (exec_all cs self1 w1))).
  { apply kept_exec_all; try easy.
    - intros s x [Hs1 Hs2].
      destruct (stays_get d K s x Hs2) as (fw' & s' & E & _ & Hs' & Hd').
      rewrite E. cbn [fst snd]. split; [congruence|exact Hs'].
    - intros s ws key fw' [Hs1 Hs2] Ea Eg. split; [exact Hs1|].
      now apply stays_kept_item. }
  destruct H2 as [[Hd2 Hs2] _].
  set (self2 := fst (exec_all cs self1 w1)) in *.
  set (w2 := snd (exec_all cs self1 w1)) in *.
  unfold stays in Hs2. rewrite Hd2 in Hs2.
  destruct Hs2 as (fw2 & ws2 & Hf2 & Ea2 & Hl2 & Hk2).
  unfold add_scalars. cbn zeta. unfold bindM at 1.
  rewrite (get_file_writer_held self2 w2 fw2 ws2 Hd2 Hf2 Ea2).
  rewrite Hl2.
  apply (add_scalars_loop_found _ _ _ _ _ _ _ ws2 Ea2).
  intros tag Hin. apply Hk2. unfold K.
  apply in_map. now apply Hsub.
Qed.

Lemma add_scalars_reuses_file_writers_witness :
  exists self3 w3,
    add_scalars 9 (str "loss") (array_items [(str "train", mkArray [])])
                (Some 2%Z) None
                (fst (exec_all
                        [CallAddScalar (str "acc") (PArr (mkArray [])) None None;
                         CallFlush]
                        (fst (exec_all [CallAddScalars 7 (str "loss")
                                          [(str "train", PArr (mkArray []))]
                                          (Some 1%Z) None]
                                       open_writer
                                       (mkEnv [Open 0 (str "runs/exp1")] 1 [])))
                        (snd (exec_all [CallAddScalars 7 (str "loss")
                                          [(str "train", PArr (mkArray []))]
                                          (Some 1%Z) None]
                                       open_writer
                                       (mkEnv [Open 0 (str "runs/exp1")] 1 [])))))
                (snd (exec_all
                        [CallAddScalar (str "acc") (PArr (mkArray [])) None None;
                         CallFlush]
                        (fst (exec_all [CallAddScalars 7 (str "loss")
                                          [(str "train", PArr (mkArray []))]
                                          (Some 1%Z) None]
                                       open_writer
                                       (mkEnv [Open 0 (str "runs/exp1")] 1 [])))
                        (snd (exec_all [CallAddScalars 7 (str "loss")
                                          [(str "train", PArr (mkArray []))]
                                          (Some 1%Z) None]
                                       open_writer
                                       (mkEnv [Open 0 (str "runs/exp1")] 1 [])))))
    = (Ok tt, self3, w3) /\
    next_id w3 = 2 /\
    exists evs,
      trace w3
      = [Open 0 (str "runs/exp1");
         Open 1 (str "runs/exp1/loss/train");
         AddEvent 1 (Summary (scalar (str "loss") (PArr (mkArray []))))
                  (Some 1%Z) (Some 7);
         AddEvent 0 (Summary (scalar (str "acc") (PArr (mkArray [])))) None None;
         Flush 0; Flush 1]
        ++ evs /\
      Forall quiet evs.
Proof.
  exact (add_scalars_reuses_file_writers
           open_writer _ (mkEnv [Open 0 (str "runs/exp1")] 1 []) _
           7 (str "loss") [(str "train", PArr (mkArray []))] (Some 1%Z) None
           [CallAddScalar (str "acc") (PArr (mkArray [])) None None; CallFlush]
           9 [(str "train", mkArray [])] (Some 2%Z) None
           eq_refl eq_refl
           (Forall_cons (P := not_close)
              (CallAddScalar (str "acc") (PArr (mkArray [])) None None) I
              (Forall_cons (P := not_close) CallFlush I (Forall_nil not_close)))
           (fun tag H => H)).
Defined.

(** *** [add_embedding] called again *)





End WriterExtra.
